(** * kubeutil: the process runner, declarative apply and credential poller

    A shallow embedding of package [kubeutil] (runner, ClusterRoleBinding
    apply, ServiceAccountToken) of my-operator, with the parts of the Go
    standard library the package calls ([strings], [strconv], [unicode/utf8],
    [encoding/json], [os/exec], [fmt]) modelled next to it.

    Go strings are byte sequences: they are [string] here, one [ascii] per
    byte.  A Go [error] value is [option error], [None] being [nil]. *)

From Stdlib Require Import String Ascii List NArith Bool Arith Lia.
Import ListNotations.
Local Open Scope string_scope.
Local Open Scope N_scope.

(* ================================================================== *)
(** ** Bytes and small helpers *)

Definition byte (c : ascii) : N := N_of_ascii c.
Definition char (b : N) : ascii := ascii_of_N b.
Definition str1 (b : N) : string := String (char b) EmptyString.

Definition between (lo b hi : N) : bool := (lo <=? b) && (b <=? hi).

Fixpoint rev_string (acc s : string) : string :=
  match s with
  | EmptyString => acc
  | String c s' => rev_string (String c acc) s'
  end.

Definition reverse (s : string) : string := rev_string EmptyString s.

Fixpoint drop (n : nat) (s : string) : string :=
  match n, s with
  | O, _ => s
  | S _, EmptyString => EmptyString
  | S n', String _ s' => drop n' s'
  end.

Fixpoint take (n : nat) (s : string) : string :=
  match n, s with
  | O, _ => EmptyString
  | S _, EmptyString => EmptyString
  | S n', String c s' => String c (take n' s')
  end.

Definition is_empty (s : string) : bool :=
  match s with EmptyString => true | String _ _ => false end.

(* ================================================================== *)
(** ** unicode/utf8 *)

Module utf8.

Definition RuneError : N := 0xFFFD.

Definition cont (b : N) : bool := between 0x80 b 0xBF.

(** [utf8.DecodeRuneInString]: the first rune of [s] and its width in
    bytes; an invalid or truncated encoding is [(RuneError, 1)], the empty
    string [(RuneError, 0)].  The ranges are those of the package's
    [first] and [acceptRanges] tables. *)
Definition DecodeRuneInString (s : string) : N * nat :=
  match s with
  | EmptyString => (RuneError, 0%nat)
  | String c0 s1 =>
    let b0 := byte c0 in
    if b0 <? 0x80 then (b0, 1%nat)
    else if b0 <? 0xC2 then (RuneError, 1%nat)
    else if b0 <? 0xE0 then
      match s1 with
      | String c1 _ =>
        let b1 := byte c1 in
        if cont b1
        then (N.lor (N.shiftl (N.land b0 0x1F) 6) (N.land b1 0x3F), 2%nat)
        else (RuneError, 1%nat)
      | _ => (RuneError, 1%nat)
      end
    else if b0 <? 0xF0 then
      match s1 with
      | String c1 (String c2 _) =>
        let b1 := byte c1 in
        let b2 := byte c2 in
        let lo := if b0 =? 0xE0 then 0xA0 else 0x80 in
        let hi := if b0 =? 0xED then 0x9F else 0xBF in
        if between lo b1 hi && cont b2
        then (N.lor (N.shiftl (N.land b0 0x0F) 12)
                (N.lor (N.shiftl (N.land b1 0x3F) 6) (N.land b2 0x3F)), 3%nat)
        else (RuneError, 1%nat)
      | _ => (RuneError, 1%nat)
      end
    else if b0 <? 0xF5 then
      match s1 with
      | String c1 (String c2 (String c3 _)) =>
        let b1 := byte c1 in
        let b2 := byte c2 in
        let b3 := byte c3 in
        let lo := if b0 =? 0xF0 then 0x90 else 0x80 in
        let hi := if b0 =? 0xF4 then 0x8F else 0xBF in
        if between lo b1 hi && cont b2 && cont b3
        then (N.lor (N.shiftl (N.land b0 0x07) 18)
                (N.lor (N.shiftl (N.land b1 0x3F) 12)
                   (N.lor (N.shiftl (N.land b2 0x3F) 6) (N.land b3 0x3F))), 4%nat)
        else (RuneError, 1%nat)
      | _ => (RuneError, 1%nat)
      end
    else (RuneError, 1%nat)
  end.

Definition surrogate (r : N) : bool := between 0xD800 r 0xDFFF.

(** [utf8.AppendRune] on an empty buffer: the UTF-8 encoding of [r];
    surrogates and runes above U+10FFFF encode as U+FFFD. *)
Definition EncodeRune (r : N) : string :=
  let r := if surrogate r || (0x10FFFF <? r) then RuneError else r in
  if r <? 0x80 then str1 r
  else if r <? 0x800 then
    str1 (N.lor 0xC0 (N.shiftr r 6)) ++ str1 (N.lor 0x80 (N.land r 0x3F))
  else if r <? 0x10000 then
    str1 (N.lor 0xE0 (N.shiftr r 12))
    ++ str1 (N.lor 0x80 (N.land (N.shiftr r 6) 0x3F))
    ++ str1 (N.lor 0x80 (N.land r 0x3F))
  else
    str1 (N.lor 0xF0 (N.shiftr r 18))
    ++ str1 (N.lor 0x80 (N.land (N.shiftr r 12) 0x3F))
    ++ str1 (N.lor 0x80 (N.land (N.shiftr r 6) 0x3F))
    ++ str1 (N.lor 0x80 (N.land r 0x3F)).

End utf8.

(* ================================================================== *)
(** ** unicode *)

Module unicode.

(** [unicode.IsSpace]: the White_Space property. *)
Definition IsSpace (r : N) : bool :=
  between 0x09 r 0x0D || (r =? 0x20) || (r =? 0x85) || (r =? 0xA0)
  || (r =? 0x1680) || between 0x2000 r 0x200A
  || (r =? 0x2028) || (r =? 0x2029) || (r =? 0x202F)
  || (r =? 0x205F) || (r =? 0x3000).

End unicode.

(** The part of the Unicode tables that is taken as given: which runes
    above Latin-1 [strconv.IsPrint] calls printable. *)
Class Unicode := { IsPrintTable : N -> bool }.

(* ================================================================== *)
(** ** strings *)

Module strings.

(** [strings.Join(elems, sep)]. *)
Fixpoint Join (elems : list string) (sep : string) : string :=
  match elems with
  | [] => EmptyString
  | [e] => e
  | e :: rest => e ++ sep ++ Join rest sep
  end.

(** [strings.Contains(s, substr)]. *)
Fixpoint Contains (s substr : string) : bool :=
  prefix substr s ||
  match s with
  | EmptyString => false
  | String _ s' => Contains s' substr
  end.

(** Leading white space: [skip] counts the bytes still owed to the rune
    that was just recognised as a space. *)
Fixpoint trimLeftSpace (skip : nat) (s : string) : string :=
  match s with
  | EmptyString => EmptyString
  | String _ s' =>
    match skip with
    | S k => trimLeftSpace k s'
    | O =>
      let (r, w) := utf8.DecodeRuneInString s in
      if unicode.IsSpace r then trimLeftSpace (Nat.pred w) s' else s
    end
  end.

(** Width of the white-space rune that the reversed string [r] starts
    with, that is, that the string ends with; [0] if it ends with none.
    [utf8.DecodeLastRuneInString] backs up over at most three
    continuation bytes to a start byte and decodes from there. *)
Definition lastSpaceWidth (r : string) : nat :=
  match r with
  | EmptyString => 0%nat
  | String c0 r1 =>
    if byte c0 <? 0x80 then (if unicode.IsSpace (byte c0) then 1%nat else 0%nat)
    else if negb (utf8.cont (byte c0)) then 0%nat
    else
      match r1 with
      | EmptyString => 0%nat
      | String c1 r2 =>
        if negb (utf8.cont (byte c1)) then
          let (x, w) := utf8.DecodeRuneInString (String c1 (String c0 EmptyString)) in
          if Nat.eqb w 2 && unicode.IsSpace x then 2%nat else 0%nat
        else
          match r2 with
          | EmptyString => 0%nat
          | String c2 _ =>
            if negb (utf8.cont (byte c2)) then
              let (x, w) :=
                utf8.DecodeRuneInString
                  (String c2 (String c1 (String c0 EmptyString))) in
              if Nat.eqb w 3 && unicode.IsSpace x then 3%nat else 0%nat
            else 0%nat
          end
      end
  end.

Fixpoint trimRightSpaceRev (skip : nat) (r : string) : string :=
  match r with
  | EmptyString => EmptyString
  | String _ r' =>
    match skip with
    | S k => trimRightSpaceRev k r'
    | O =>
      match lastSpaceWidth r with
      | O => r
      | S k => trimRightSpaceRev k r'
      end
    end
  end.

(** [strings.TrimSpace(s)]: [s] without leading and trailing white space
    as [unicode.IsSpace] defines it. *)
Definition TrimSpace (s : string) : string :=
  reverse (trimRightSpaceRev 0 (reverse (trimLeftSpace 0 s))).

Fixpoint dropWhileIn (cutset : string) (r : string) : string :=
  match r with
  | EmptyString => EmptyString
  | String c r' =>
    if Contains cutset (String c EmptyString) then dropWhileIn cutset r' else r
  end.

(** [strings.TrimRight(s, cutset)] for a cutset of single-byte runes. *)
Definition TrimRight (s cutset : string) : string :=
  reverse (dropWhileIn cutset (reverse s)).

(** [strings.HasPrefix(s, prefix)]. *)
Definition HasPrefix (s pre : string) : bool := prefix pre s.

(** [strings.TrimPrefix(s, prefix)]. *)
Definition TrimPrefix (s pre : string) : string :=
  if HasPrefix s pre then drop (String.length pre) s else s.

(** [strings.Index(s, substr)]: the index of the first instance of
    [substr] in [s]; [None] stands for -1. *)
Fixpoint Index (s substr : string) : option nat :=
  if prefix substr s then Some 0%nat
  else match s with
       | EmptyString => None
       | String _ s' =>
         match Index s' substr with
         | Some i => Some (S i)
         | None => None
         end
       end.

(** One more byte at the front of the first piece. *)
Definition consHead (c : ascii) (pieces : list string) : list string :=
  match pieces with
  | p :: ps => String c p :: ps
  | [] => [String c EmptyString]
  end.

(** The pieces of [s] between the instances of [sep], found from left to
    right without overlap; [skip] counts the bytes of the separator just
    found that are still to pass. *)
Fixpoint splitFrom (sep : string) (skip : nat) (s : string) : list string :=
  match s with
  | EmptyString => [EmptyString]
  | String c s' =>
    match skip with
    | S k => splitFrom sep k s'
    | O =>
      if prefix sep s
      then EmptyString :: splitFrom sep (Nat.pred (String.length sep)) s'
      else consHead c (splitFrom sep 0 s')
    end
  end.

(** [strings.Split(s, sep)] for a separator that is not empty. *)
Definition Split (s sep : string) : list string := splitFrom sep 0 s.

Fixpoint replaceFrom (old new : string) (skip : nat) (s : string) : string :=
  match s with
  | EmptyString => EmptyString
  | String c s' =>
    match skip with
    | S k => replaceFrom old new k s'
    | O =>
      if prefix old s
      then new ++ replaceFrom old new (Nat.pred (String.length old)) s'
      else String c (replaceFrom old new 0 s')
    end
  end.

(** [strings.ReplaceAll(s, old, new)] for an [old] that is not empty: the
    instances of [old] are taken from left to right without overlap. *)
Definition ReplaceAll (s old new : string) : string := replaceFrom old new 0 s.

End strings.

(* ================================================================== *)
(** ** strconv *)

Module strconv.

Definition hexdigit (d : N) : string :=
  str1 (if d <? 10 then 48 + d else 87 + d).

(** The [n] lowest hexadecimal digits of [r], most significant first. *)
Fixpoint hex (n : nat) (r : N) : string :=
  match n with
  | O => EmptyString
  | S n' => hex n' (N.shiftr r 4) ++ hexdigit (N.land r 0xF)
  end.

(** [strconv.IsPrint]. *)
Definition IsPrint {U : Unicode} (r : N) : bool :=
  if r <=? 0xFF then
    between 0x20 r 0x7E || (between 0xA1 r 0xFF && negb (r =? 0xAD))
  else IsPrintTable r.

Definition backslash : string := str1 92.
Definition dquote : string := str1 34.

(** [appendEscapedRune] with the double quote as the quote character,
    neither ASCII-only nor graphic-only; [enc] is the rune's own bytes. *)
Definition escapedRune {U : Unicode} (r : N) (enc : string) : string :=
  if (r =? 34) || (r =? 92) then backslash ++ enc
  else if IsPrint r then enc
  else if r =? 7 then backslash ++ "a"
  else if r =? 8 then backslash ++ "b"
  else if r =? 12 then backslash ++ "f"
  else if r =? 10 then backslash ++ "n"
  else if r =? 13 then backslash ++ "r"
  else if r =? 9 then backslash ++ "t"
  else if r =? 11 then backslash ++ "v"
  else if (r <? 0x20) || (r =? 0x7F) then backslash ++ "x" ++ hex 2 r
  else if r <? 0x10000 then backslash ++ "u" ++ hex 4 r
  else backslash ++ "U" ++ hex 8 r.

Fixpoint quoteBody {U : Unicode} (skip : nat) (s : string) : string :=
  match s with
  | EmptyString => EmptyString
  | String c s' =>
    match skip with
    | S k => quoteBody k s'
    | O =>
      let (r, w) := utf8.DecodeRuneInString s in
      (if (Nat.eqb w 1) && (r =? utf8.RuneError)
       then backslash ++ "x" ++ hex 2 (byte c)
       else escapedRune r (take w s))
      ++ quoteBody (Nat.pred w) s'
    end
  end.

(** [strconv.Quote(s)], which is what the verb [%q] prints for a string. *)
Definition Quote {U : Unicode} (s : string) : string :=
  dquote ++ quoteBody 0 s ++ dquote.

End strconv.

(* ================================================================== *)
(** ** Errors *)

(** A non-nil Go [error]: a plain message ([errors.New], [fmt.Errorf]
    without [%w], the errors of the libraries) or a message around a cause
    ([fmt.Errorf] with one [%w]). *)
Inductive error : Type :=
| errorString (s : string)
| wrapError (msg : string) (err : error).

(** [err.Error()]. *)
Definition Error (e : error) : string :=
  match e with
  | errorString s => s
  | wrapError msg _ => msg
  end.

(** [errors.Unwrap(err)]. *)
Definition Unwrap (e : error) : option error :=
  match e with
  | errorString _ => None
  | wrapError _ err => Some err
  end.

(* ================================================================== *)
(** ** encoding/json *)

Module json.

#[warnings="-register-all"]
Inductive value : Type :=
| Null
| Bool (b : bool)
| Number (lit : string)
| Str (s : string)
| Array (elems : list value)
| Object (members : list (string * value)).

(** The scanner's nesting limit. *)
Definition maxNestingDepth : N := 10000.

Definition isSpace (b : N) : bool :=
  (b =? 32) || (b =? 9) || (b =? 13) || (b =? 10).

Fixpoint skipSpace (s : string) : string :=
  match s with
  | EmptyString => EmptyString
  | String c s' => if isSpace (byte c) then skipSpace s' else s
  end.

Definition hexval (b : N) : option N :=
  if between 48 b 57 then Some (b - 48)
  else if between 97 b 102 then Some (b - 87)
  else if between 65 b 70 then Some (b - 55)
  else None.

(** Four hexadecimal digits at the head of [s]. *)
Definition hex4 (s : string) : option N :=
  match s with
  | String c0 (String c1 (String c2 (String c3 _))) =>
    match hexval (byte c0), hexval (byte c1), hexval (byte c2), hexval (byte c3) with
    | Some d0, Some d1, Some d2, Some d3 =>
      Some (N.lor (N.shiftl d0 12) (N.lor (N.shiftl d1 8) (N.lor (N.shiftl d2 4) d3)))
    | _, _, _, _ => None
    end
  | _ => None
  end.

(** [getu4]: the code unit of a [\uXXXX] escape at the head of [s]. *)
Definition getu4 (s : string) : option N :=
  match s with
  | String c0 (String c1 s') =>
    if (byte c0 =? 92) && (byte c1 =? 117) then hex4 s' else None
  | _ => None
  end.

(** [utf16.DecodeRune]. *)
Definition utf16pair (r1 : N) (r2 : option N) : option N :=
  match r2 with
  | Some r2 =>
    if between 0xD800 r1 0xDBFF && between 0xDC00 r2 0xDFFF
    then Some (N.lor (N.shiftl (r1 - 0xD800) 10) (r2 - 0xDC00) + 0x10000)
    else None
  | None => None
  end.

(** The escape that starts at the head of [s], the text after a
    backslash: the bytes it stands for and how many bytes of [s] it
    takes; [None] when the scanner rejects it. *)
Definition unescape (s : string) : option (string * nat) :=
  match s with
  | EmptyString => None
  | String c s' =>
    let b := byte c in
    if (b =? 34) || (b =? 92) || (b =? 47) then Some (str1 b, 1%nat)
    else if b =? 98 then Some (str1 8, 1%nat)
    else if b =? 102 then Some (str1 12, 1%nat)
    else if b =? 110 then Some (str1 10, 1%nat)
    else if b =? 114 then Some (str1 13, 1%nat)
    else if b =? 116 then Some (str1 9, 1%nat)
    else if b =? 117 then
      match hex4 s' with
      | None => None
      | Some rr =>
        if utf8.surrogate rr then
          match utf16pair rr (getu4 (drop 4 s')) with
          | Some dec => Some (utf8.EncodeRune dec, 11%nat)
          | None => Some (utf8.EncodeRune utf8.RuneError, 5%nat)
          end
        else Some (utf8.EncodeRune rr, 5%nat)
      end
    else None
  end.

(** A string literal from just after its opening quote: its value, as
    [unquote] decodes it, and the text after the closing quote.  An
    invalid UTF-8 byte becomes U+FFFD.  [skip] counts bytes already
    accounted for by an escape or a multi-byte rune. *)
Fixpoint scanString (skip : nat) (s : string) : option (string * string) :=
  match s with
  | EmptyString => None
  | String c s' =>
    match skip with
    | S k => scanString k s'
    | O =>
      let b := byte c in
      if b =? 34 then Some (EmptyString, s')
      else if b =? 92 then
        match unescape s' with
        | None => None
        | Some (out, n) =>
          match scanString n s' with
          | Some (v, rest) => Some (out ++ v, rest)
          | None => None
          end
        end
      else if b <? 0x20 then None
      else
        let (r, w) := utf8.DecodeRuneInString s in
        let out := if (Nat.eqb w 1) && (r =? utf8.RuneError)
                   then utf8.EncodeRune utf8.RuneError else take w s in
        match scanString (Nat.pred w) s' with
        | Some (v, rest) => Some (out ++ v, rest)
        | None => None
        end
    end
  end.

Definition isDigit (b : N) : bool := between 48 b 57.

(** [s] without its leading decimal digits. *)
Fixpoint skipDigits (s : string) : string :=
  match s with
  | EmptyString => EmptyString
  | String c s' => if isDigit (byte c) then skipDigits s' else s
  end.

Definition headIs (b : N) (s : string) : bool :=
  match s with
  | String c _ => byte c =? b
  | EmptyString => false
  end.

(** One or more digits at the head of [s]: what follows them. *)
Definition digits1 (s : string) : option string :=
  match s with
  | EmptyString => None
  | String c s' => if isDigit (byte c) then Some (skipDigits s') else None
  end.

(** The integer part of a number: a zero, or a digit other than zero and
    more digits. *)
Definition intPart (s : string) : option string :=
  if headIs 48 s then Some (drop 1 s) else digits1 s.

(** The optional fraction: a point and one or more digits. *)
Definition fracPart (s : string) : option string :=
  if headIs 46 s then digits1 (drop 1 s) else Some s.

(** The optional exponent: [e] or [E], an optional sign, one or more
    digits. *)
Definition expPart (s : string) : option string :=
  if headIs 101 s || headIs 69 s then
    let s1 := drop 1 s in
    digits1 (if headIs 43 s1 || headIs 45 s1 then drop 1 s1 else s1)
  else Some s.

(** A number literal at the head of [s]: an optional minus sign, the
    integer part, the optional fraction and exponent.  The literal and
    what follows it. *)
Definition scanNumber (s : string) : option (string * string) :=
  match intPart (if headIs 45 s then drop 1 s else s) with
  | None => None
  | Some s1 =>
    match fracPart s1 with
    | None => None
    | Some s2 =>
      match expPart s2 with
      | None => None
      | Some rest => Some (take (String.length s - String.length rest) s, rest)
      end
    end
  end.

(** The literal [lit] at the head of [s]. *)
Definition scanLiteral (lit : string) (v : value) (s : string) : option (value * string) :=
  if prefix lit s then Some (v, drop (String.length lit) s) else None.

(** One JSON value at the head of [s] (leading white space allowed) and
    the text after it.  [depth] is the number of arrays and objects
    already open.  The three functions call one another at most twice
    per byte read, which is what [fuel] counts. *)
Fixpoint parseValue (fuel : nat) (depth : N) (s : string) {struct fuel}
  : option (value * string) :=
  match fuel with
  | O => None
  | S fuel' =>
    match skipSpace s with
    | EmptyString => None
    | String c s' =>
      let b := byte c in
      if b =? 123 then
        if maxNestingDepth <? depth + 1 then None
        else if headIs 125 (skipSpace s') then Some (Object [], drop 1 (skipSpace s'))
        else
          match parseMembers fuel' (depth + 1) (skipSpace s') with
          | Some (m, rest) => Some (Object m, rest)
          | None => None
          end
      else if b =? 91 then
        if maxNestingDepth <? depth + 1 then None
        else if headIs 93 (skipSpace s') then Some (Array [], drop 1 (skipSpace s'))
        else
          match parseElems fuel' (depth + 1) s' with
          | Some (l, rest) => Some (Array l, rest)
          | None => None
          end
      else if b =? 34 then
        match scanString 0 s' with
        | Some (v, rest) => Some (Str v, rest)
        | None => None
        end
      else if (b =? 45) || isDigit b then
        match scanNumber (String c s') with
        | Some (lit, rest) => Some (Number lit, rest)
        | None => None
        end
      else if b =? 116 then scanLiteral "true" (Bool true) (String c s')
      else if b =? 102 then scanLiteral "false" (Bool false) (String c s')
      else if b =? 110 then scanLiteral "null" Null (String c s')
      else None
    end
  end

(** The members of an object from its first key (white space already
    skipped) through the closing brace. *)
with parseMembers (fuel : nat) (depth : N) (s : string) {struct fuel}
  : option (list (string * value) * string) :=
  match fuel with
  | O => None
  | S fuel' =>
    if headIs 34 s then
      match scanString 0 (drop 1 s) with
      | None => None
      | Some (k, s1) =>
        if headIs 58 (skipSpace s1) then
          match parseValue fuel' depth (drop 1 (skipSpace s1)) with
          | None => None
          | Some (v, s2) =>
            if headIs 44 (skipSpace s2) then
              match parseMembers fuel' depth (skipSpace (drop 1 (skipSpace s2))) with
              | Some (m, rest) => Some ((k, v) :: m, rest)
              | None => None
              end
            else if headIs 125 (skipSpace s2) then
              Some ([(k, v)], drop 1 (skipSpace s2))
            else None
          end
        else None
      end
    else None
  end

(** The elements of an array from its first element through the closing
    bracket. *)
with parseElems (fuel : nat) (depth : N) (s : string) {struct fuel}
  : option (list value * string) :=
  match fuel with
  | O => None
  | S fuel' =>
    match parseValue fuel' depth s with
    | None => None
    | Some (v, s1) =>
      if headIs 44 (skipSpace s1) then
        match parseElems fuel' depth (drop 1 (skipSpace s1)) with
        | Some (l, rest) => Some (v :: l, rest)
        | None => None
        end
      else if headIs 93 (skipSpace s1) then Some ([v], drop 1 (skipSpace s1))
      else None
    end
  end.

(** The fuel is enough: whatever the parser [p] reads with fuel [fuel],
    it reads with any fuel above the number of bytes read. *)
Definition enough {A : Type} (p : nat -> N -> string -> option (A * string))
  (fuel : nat) : Prop :=
  forall (depth : N) (s : string) (a : A) (rest : string),
    p fuel depth s = Some (a, rest) ->
    (String.length rest <= String.length s)%nat
    /\ forall fuel' : nat,
         (String.length s - String.length rest < fuel')%nat ->
         p fuel' depth s = Some (a, rest).

(** [checkValid] and the decoder's reading of the document: [data] is
    one JSON value with white space around it and nothing else. *)
Definition parse (data : string) : option value :=
  match parseValue (2 * String.length data + 2) 0 data with
  | Some (v, rest) => if is_empty (skipSpace rest) then Some v else None
  | None => None
  end.

(** Case folding of a key ([foldName]): ASCII letters to upper case, and
    the two runes outside ASCII whose simple fold is an ASCII letter,
    U+017F to [S] and U+212A to [K].  Keys are valid UTF-8 here, as
    [scanString] yields them. *)
Fixpoint foldName (s : string) : string :=
  match s with
  | EmptyString => EmptyString
  | String c s' =>
    let b := byte c in
    if between 97 b 122 then String (char (b - 32)) (foldName s')
    else if prefix (str1 0xC5 ++ str1 0xBF) s
    then String "S"%char (drop 1 (foldName s'))
    else if prefix (str1 0xE2 ++ str1 0x84 ++ str1 0xAA) s
    then String "K"%char (drop 2 (foldName s'))
    else String c (foldName s')
  end.

(** Whether the object key [key] names the struct field tagged [name]:
    an exact match, or else a case-insensitive one. *)
Definition fieldMatches (name key : string) : bool :=
  String.eqb key name || String.eqb (foldName key) (foldName name).

(** The two kinds of error [json.Unmarshal] returns here, each under one
    message: the wording of the library's messages is not modelled. *)
Definition SyntaxError : error := errorString "json: syntax error".
Definition UnmarshalTypeError : error :=
  errorString "json: cannot unmarshal value into Go struct field".

(** Storing a JSON value into a [string] field that holds [cur]: a
    string is stored, [null] leaves the field alone, anything else is a
    type error (and leaves the field alone). *)
Definition storeString (v : value) (cur : string) : string * option error :=
  match v with
  | Str s => (s, None)
  | Null => (cur, None)
  | _ => (cur, Some UnmarshalTypeError)
  end.

(** The first of two errors: the decoder keeps the first type error it
    meets and goes on. *)
Definition firstError (e1 e2 : option error) : option error :=
  match e1 with
  | Some _ => e1
  | None => e2
  end.

End json.

(* ================================================================== *)
(** ** A small state monad *)

(** A computation that reads and changes a state [T] and yields an [A]. *)
Definition M (T A : Type) : Type := T -> A * T.

Definition ret {T A : Type} (a : A) : M T A := fun t => (a, t).

Definition bind {T A B : Type} (m : M T A) (k : A -> M T B) : M T B :=
  fun t => let r := m t in k (fst r) (snd r).

Definition gets {T A : Type} (f : T -> A) : M T A := fun t => (f t, t).

Definition modify {T : Type} (f : T -> T) : M T unit := fun t => (tt, f t).

Declare Scope monad_scope.
Delimit Scope monad_scope with monad.
Notation "x <- m ;; k" := (bind m (fun x => k))
  (at level 100, m at next level, right associativity) : monad_scope.
Notation "m ;; k" := (bind m (fun _ => k))
  (at level 100, right associativity) : monad_scope.
Local Open Scope monad_scope.

(* ================================================================== *)
(** ** context, os and os/exec *)

(** A [context.Context], known by its identity: whether it is done is a
    fact of the world, which changes while the program runs. *)
Definition Context : Type := nat.

(** The fields of [exec.Cmd] the package reads or sets.  [Env] of length
    zero is the Go [nil] or empty slice alike; [Stdin] is [None] for a nil
    reader and [Some data] for a reader over [data], which may be empty;
    [ctx] is the context the command was built with, if any. *)
Record Cmd : Type := mkCmd {
  Path : string;
  Args : list string;
  Env : list string;
  Dir : string;
  Stdin : option string;
  ctx : option Context
}.

(** What running a command leaves behind: the bytes it wrote to the
    [Stdout] and [Stderr] writers, and what [Cmd.Run] returned. *)
Record Completed : Type := mkCompleted {
  Stdout : string;
  Stderr : string;
  Failure : option error
}.

(** The world outside the program, in state [W]: the contexts, the
    process environment, the executables on the search path and the child
    processes. *)
Class Host (W : Type) : Type := {
  Context_Err : Context -> W -> option error;
  os_Environ : W -> list string;
  exec_LookPath : W -> string -> option string;
  Cmd_Run : Cmd -> M W Completed
}.

Module exec.

(** Whether [filepath.Base(name) == name] on a Unix host: [name] is not
    empty and has no separator, or is the root alone. *)
Definition isBase (name : string) : bool :=
  negb (is_empty name) && (negb (strings.Contains name "/") || String.eqb name "/").

(** [exec.Command(name, arg...)]: only [Path] and [Args] are set; a name
    without separators is resolved through the search path when that
    finds it. *)
Definition Command {W : Type} {H : Host W} (w : W) (name : string) (arg : list string) : Cmd :=
  {| Path := if isBase name
             then match exec_LookPath w name with
                  | Some lp => lp
                  | None => name
                  end
             else name;
     Args := name :: arg;
     Env := [];
     Dir := EmptyString;
     Stdin := None;
     ctx := None |}.

(** [exec.CommandContext(ctx, name, arg...)]. *)
Definition CommandContext {W : Type} {H : Host W} (w : W) (c : Context)
  (name : string) (arg : list string) : Cmd :=
  let cmd := Command w name arg in
  {| Path := Path cmd; Args := Args cmd; Env := Env cmd; Dir := Dir cmd;
     Stdin := Stdin cmd; ctx := Some c |}.

End exec.

(* ================================================================== *)
(** ** slo: the logging collaborator *)

Module slo.

(** A logger that can be called: [Logf] with the line already
    formatted, acting on the world. *)
Record Sink (W : Type) : Type := mkSink { Logf : string -> W -> W }.
Arguments Logf {W} _ _ _.
Arguments mkSink {W} _.

(** A [slo.Logger] interface value; [None] is [nil]. *)
Definition Logger (W : Type) : Type := option (Sink W).

(** The logger that drops every line. *)
Definition nop {W : Type} : Sink W := mkSink (fun _ w => w).

(** Modelled from the spec: [slo.NewLogger], whose package is not among
    the sources.  The logging sink is optional and a missing sink is a
    guaranteed no-op, never an error: a nil logger becomes the logger that
    does nothing, any other logger is kept. *)
Definition NewLogger {W : Type} (l : Logger W) : Sink W :=
  match l with
  | Some sink => sink
  | None => nop
  end.

End slo.

(* ================================================================== *)
(** ** kubeutil *)

Module kubeutil.

Definition dq : string := str1 34.
Definition nl : string := str1 10.

(** [logger.Logf] as a step of a computation over the world. *)
Definition logf {W : Type} (logger : slo.Sink W) (line : string) : M W unit :=
  modify (slo.Logf logger line).

(** *** The runner *)

(** [CmdRunner]: anything with a [Run] method. *)
Record CmdRunner (W : Type) : Type := mkRunner {
  Run : Context -> slo.Logger W -> Cmd -> M W (string * option error)
}.
Arguments Run {W} _ _ _ _ _.
Arguments mkRunner {W} _.

(** The variable the runner appends to every environment. *)
Definition marker : string := "GO111MODULE=on".

(** The command [c2] that [DefaultRunner.Run] builds from the caller's
    [cmd] and then runs. *)
Definition rebuild {W : Type} {H : Host W} (w : W) (c : Context) (cmd : Cmd) : Cmd :=
  let path :=
    if is_empty (Path cmd) && (0 <? List.length (Args cmd))%nat
    then hd EmptyString (Args cmd)
    else Path cmd in
  let args := if (1 <? List.length (Args cmd))%nat then tl (Args cmd) else [] in
  let c2 := exec.CommandContext w c path args in
  let env := Env cmd in
  {| Path := Path c2;
     Args := Args c2;
     Env := if (List.length env =? 0)%nat
            then (os_Environ w ++ [marker])%list
            else (env ++ [marker])%list;
     Dir := Dir cmd;
     Stdin := Stdin cmd;
     ctx := ctx c2 |}.

(** [DefaultRunner.Run]. *)
Definition DefaultRunner_Run {U : Unicode} {W : Type} {H : Host W}
  (c : Context) (logger : slo.Logger W) (cmd : Cmd) : M W (string * option error) :=
  let logger := slo.NewLogger logger in
  c2 <- gets (fun w => rebuild w c cmd) ;;
  let command := strings.Join (Args c2) " " in
  logf logger ("running: " ++ strconv.Quote command) ;;
  done <- Cmd_Run c2 ;;
  let outStr := Stdout done in
  let errStr := Stderr done in
  match Failure done with
  | Some err =>
    let combined := strings.TrimSpace (errStr ++ nl ++ outStr) in
    ret (outStr,
         Some (wrapError (strconv.Quote command ++ " failed: " ++ combined
                          ++ ": " ++ Error err) err))
  | None => ret (outStr, None)
  end.

Definition DefaultRunner {U : Unicode} {W : Type} {H : Host W} : CmdRunner W :=
  mkRunner DefaultRunner_Run.

(** The child process of [DefaultRunner.Run]: the outcome of running the
    rebuilt command in the world where the line [running: ...] has been
    logged, and the world it leaves. *)
Definition launched {U : Unicode} {W : Type} {H : Host W}
  (w : W) (c : Context) (logger : slo.Logger W) (cmd : Cmd) : Completed * W :=
  let c2 := rebuild w c cmd in
  Cmd_Run c2
    (slo.Logf (slo.NewLogger logger)
       ("running: " ++ strconv.Quote (strings.Join (Args c2) " ")) w).

(** [if r == nil { r = DefaultRunner{} }]. *)
Definition orDefault {U : Unicode} {W : Type} {H : Host W} (r : option (CmdRunner W))
  : CmdRunner W :=
  match r with
  | Some r => r
  | None => DefaultRunner
  end.

(** *** What the callers of a runner see *)

(** The world together with the record of the commands handed to the
    runner so far, oldest first. *)
Record State (W : Type) : Type := mkState {
  world : W;
  runs : list Cmd
}.
Arguments world {W} _.
Arguments runs {W} _.
Arguments mkState {W} _ _.

Definition onWorld {W A : Type} (m : M W A) : M (State W) A :=
  fun st => let r := m (world st) in (fst r, mkState (snd r) (runs st)).

(** [r.Run(ctx, logger, cmd)], recorded. *)
Definition callRun {W : Type} (r : CmdRunner W) (c : Context)
  (logger : slo.Sink W) (cmd : Cmd) : M (State W) (string * option error) :=
  fun st =>
    let res := Run r c (Some logger) cmd (world st) in
    (fst res, mkState (snd res) (runs st ++ [cmd])%list).

Definition withStdin (cmd : Cmd) (data : string) : Cmd :=
  {| Path := Path cmd; Args := Args cmd; Env := Env cmd; Dir := Dir cmd;
     Stdin := Some data; ctx := ctx cmd |}.

(** *** ApplyClusterRoleBinding *)

Definition manifest (name clusterRole ns sa : string) : string :=
  "apiVersion: rbac.authorization.k8s.io/v1" ++ nl ++
  "kind: ClusterRoleBinding" ++ nl ++
  "metadata:" ++ nl ++
  "  name: " ++ name ++ nl ++
  "roleRef:" ++ nl ++
  "  apiGroup: rbac.authorization.k8s.io" ++ nl ++
  "  kind: ClusterRole" ++ nl ++
  "  name: " ++ clusterRole ++ nl ++
  "subjects:" ++ nl ++
  "- kind: ServiceAccount" ++ nl ++
  "  name: " ++ sa ++ nl ++
  "  namespace: " ++ ns ++ nl.

(** The command of the apply: [kubectl apply -f -] with the manifest on
    its standard input. *)
Definition applyCmd {W : Type} {H : Host W} (w : W) (name clusterRole ns sa : string) : Cmd :=
  withStdin (exec.Command w "kubectl" ["apply"; "-f"; "-"])
    (manifest name clusterRole ns sa).

Definition ApplyClusterRoleBinding {U : Unicode} {W : Type} {H : Host W}
  (c : Context) (logger : slo.Logger W) (r : option (CmdRunner W))
  (name clusterRole ns sa : string) : M (State W) (option error) :=
  let logger := slo.NewLogger logger in
  let r := orDefault r in
  onWorld (logf logger ("apply ClusterRoleBinding name=" ++ strconv.Quote name
                        ++ " role=" ++ strconv.Quote clusterRole
                        ++ " sa=" ++ ns ++ "/" ++ sa)) ;;
  cmd <- gets (fun st => applyCmd (world st) name clusterRole ns sa) ;;
  res <- callRun r c logger cmd ;;
  let stdout := fst res in
  let err := snd res in
  let s := strings.TrimSpace stdout in
  (if negb (is_empty s) then onWorld (logf logger (strings.TrimRight s nl)) else ret tt) ;;
  match err with
  | Some e => ret (Some (wrapError ("kubectl apply clusterrolebinding failed: " ++ Error e) e))
  | None => ret None
  end.

(** *** ServiceAccountToken *)

Record tokenRequestStatus : Type := mkStatus { Token : string }.
Record tokenRequest : Type := mkTokenRequest { Status : tokenRequestStatus }.

Definition tokenRequestBody : string :=
  "{" ++ dq ++ "apiVersion" ++ dq ++ ":" ++ dq ++ "authentication.k8s.io/v1" ++ dq ++ ","
  ++ dq ++ "kind" ++ dq ++ ":" ++ dq ++ "TokenRequest" ++ dq ++ "}".

(** The members of the object found under [status], stored in order into
    the inner struct, whose only field is tagged [token]. *)
Fixpoint storeStatusMembers (m : list (string * json.value)) (cur : tokenRequestStatus)
  : tokenRequestStatus * option error :=
  match m with
  | [] => (cur, None)
  | (k, v) :: m' =>
    let r1 := if json.fieldMatches "token" k
              then let r := json.storeString v (Token cur) in (mkStatus (fst r), snd r)
              else (cur, None) in
    let r2 := storeStatusMembers m' (fst r1) in
    (fst r2, json.firstError (snd r1) (snd r2))
  end.

Definition storeStatus (v : json.value) (cur : tokenRequestStatus)
  : tokenRequestStatus * option error :=
  match v with
  | json.Object m => storeStatusMembers m cur
  | json.Null => (cur, None)
  | _ => (cur, Some json.UnmarshalTypeError)
  end.

(** The members of the top-level object, stored in order into the outer
    struct, whose only field is tagged [status]. *)
Fixpoint storeMembers (m : list (string * json.value)) (cur : tokenRequest)
  : tokenRequest * option error :=
  match m with
  | [] => (cur, None)
  | (k, v) :: m' =>
    let r1 := if json.fieldMatches "status" k
              then let r := storeStatus v (Status cur) in (mkTokenRequest (fst r), snd r)
              else (cur, None) in
    let r2 := storeMembers m' (fst r1) in
    (fst r2, json.firstError (snd r1) (snd r2))
  end.

(** [json.Unmarshal(data, &tr)] for a zero [tr tokenRequest]: the struct
    afterwards and the error returned. *)
Definition Unmarshal (data : string) : tokenRequest * option error :=
  let zero := mkTokenRequest (mkStatus EmptyString) in
  match json.parse data with
  | None => (zero, Some json.SyntaxError)
  | Some (json.Object m) => storeMembers m zero
  | Some json.Null => (zero, None)
  | Some _ => (zero, Some json.UnmarshalTypeError)
  end.

(** The command of one request: [kubectl create --raw <path> -f -] with
    the request body on its standard input. *)
Definition tokenCmd {W : Type} {H : Host W} (w : W) (ns sa : string) : Cmd :=
  withStdin
    (exec.Command w "kubectl"
       ["create"; "--raw";
        "/api/v1/namespaces/" ++ ns ++ "/serviceaccounts/" ++ sa ++ "/token";
        "-f"; "-"])
    tokenRequestBody.

(** The closure [tryOnce]: one request through the runner. *)
Definition tryOnce {U : Unicode} {W : Type} {H : Host W}
  (c : Context) (logger : slo.Sink W) (r : CmdRunner W) (ns sa : string)
  : M (State W) (string * option error) :=
  cmd <- gets (fun st => tokenCmd (world st) ns sa) ;;
  res <- callRun r c logger cmd ;;
  let stdout := fst res in
  match snd res with
  | Some err =>
    ret (EmptyString,
         Some (wrapError ("token request failed (ns=" ++ ns ++ " sa=" ++ sa ++ "): "
                          ++ Error err) err))
  | None =>
    let u := Unmarshal stdout in
    match snd u with
    | Some err =>
      ret (EmptyString,
           Some (wrapError ("token response json parse failed: " ++ Error err
                            ++ " (body=" ++ strconv.Quote stdout ++ ")") err))
    | None =>
      if is_empty (Token (Status (fst u)))
      then ret (EmptyString, Some (errorString "token is empty"))
      else ret (Token (Status (fst u)), None)
    end
  end.

(** What a failed attempt leaves: the error becomes [lastErr] and a line
    is logged. *)
Definition notReady {W : Type} (logger : slo.Sink W) (err : error) : M (State W) unit :=
  onWorld (logf logger ("token not ready yet: " ++ Error err)).

(** The case a [select] statement of the loop proceeds with: the
    context's [Done] channel or the ticker's.  When both are ready Go
    takes either one; which it took is part of the run, so a context that
    is done counts from the moment a [select] proceeds with it. *)
Inductive selected : Type :=
| ctxDone
| tickerC.

(** The loop [for { select { ... } }], over the cases its successive
    [select] statements proceed with.  [None]: the call is still waiting
    when the cases given are used up. *)
Fixpoint pollLoop {U : Unicode} {W : Type} {H : Host W}
  (c : Context) (logger : slo.Sink W) (r : CmdRunner W) (ns sa : string)
  (lastErr : option error) (cases : list selected)
  : M (State W) (option (string * option error)) :=
  match cases with
  | [] => ret None
  | ctxDone :: _ =>
    match lastErr with
    | None =>
      e <- gets (fun st => Context_Err c (world st)) ;;
      ret (Some (EmptyString, e))
    | Some _ => ret (Some (EmptyString, lastErr))
    end
  | tickerC :: cases' =>
    res <- tryOnce c logger r ns sa ;;
    match snd res with
    | None => ret (Some (fst res, None))
    | Some err =>
      notReady logger err ;;
      pollLoop c logger r ns sa (Some err) cases'
    end
  end.

(** [ServiceAccountToken], run against the cases [cases] of its
    [select] statements. *)
Definition ServiceAccountToken {U : Unicode} {W : Type} {H : Host W}
  (c : Context) (logger : slo.Logger W) (r : option (CmdRunner W)) (ns sa : string)
  (cases : list selected) : M (State W) (option (string * option error)) :=
  let logger := slo.NewLogger logger in
  let r := orDefault r in
  e <- gets (fun st => Context_Err c (world st)) ;;
  match e with
  | Some err => ret (Some (EmptyString, Some err))
  | None =>
    res <- tryOnce c logger r ns sa ;;
    match snd res with
    | None => ret (Some (fst res, None))
    | Some err =>
      notReady logger err ;;
      pollLoop c logger r ns sa (Some err) cases
    end
  end.

(** [n] attempts in a row that all fail, each followed by [notReady]:
    the last failure ([lastErr] when [n] is zero) and the state
    afterwards; [None] when one of them succeeds. *)
Fixpoint failures {U : Unicode} {W : Type} {H : Host W}
  (c : Context) (logger : slo.Sink W) (r : CmdRunner W) (ns sa : string)
  (n : nat) (lastErr : option error) (st : State W)
  : option (option error * State W) :=
  match n with
  | O => Some (lastErr, st)
  | S n' =>
    let res := tryOnce c logger r ns sa st in
    match snd (fst res) with
    | None => None
    | Some err =>
      failures c logger r ns sa n' (Some err) (snd (notReady logger err (snd res)))
    end
  end.

(** A string of printable ASCII bytes other than the double quote and the
    backslash: what neither [%q] nor a JSON string literal has to escape. *)
Fixpoint plain (s : string) : bool :=
  match s with
  | EmptyString => true
  | String ch s' =>
    between 0x20 (byte ch) 0x7E && negb (byte ch =? 34) && negb (byte ch =? 92)
    && plain s'
  end.

(** The credential response that carries [tok] at [status.token]. *)
Definition tokenDoc (tok : string) : string :=
  "{" ++ dq ++ "status" ++ dq ++ ":{" ++ dq ++ "token" ++ dq ++ ":" ++ dq ++ tok ++ dq ++ "}}".

End kubeutil.

(* ================================================================== *)
(** ** A concrete world, to run the definitions on *)

Module Sample.

(** A world with one context, a fixed environment and search path, a
    list of the outcomes of the child processes still to come, and the
    lines logged and the commands started so far. *)
Record World : Type := mkWorld {
  ctxErr : option error;
  environ : list string;
  outcomes : list Completed;
  started : list Cmd;
  logged : list string
}.

Definition notStarted : Completed :=
  mkCompleted EmptyString EmptyString (Some (errorString "exec: no command")).

Definition run (cmd : Cmd) : M World Completed :=
  fun w =>
    (hd notStarted (outcomes w),
     mkWorld (ctxErr w) (environ w) (tl (outcomes w)) (started w ++ [cmd])%list (logged w)).

#[export] Instance host : Host World := {|
  Context_Err := fun _ w => ctxErr w;
  os_Environ := environ;
  exec_LookPath := fun _ name =>
    if String.eqb name "kubectl" then Some "/usr/bin/kubectl" else None;
  Cmd_Run := run
|}.

#[export] Instance tables : Unicode := {| IsPrintTable := fun _ => false |}.

(** A logger that keeps its lines. *)
Definition recorder : slo.Sink World :=
  slo.mkSink (fun line w =>
    mkWorld (ctxErr w) (environ w) (outcomes w) (started w) (logged w ++ [line])%list).

Definition exited (out err : string) : Completed :=
  mkCompleted out err (Some (errorString "exit status 1")).

Definition ok (out : string) : Completed := mkCompleted out EmptyString None.

Definition start (outs : list Completed) : kubeutil.State World :=
  kubeutil.mkState (mkWorld None ["HOME=/root"] outs [] []) [].

Definition background : Context := 0%nat.

(** The world of [start], on its own. *)
Definition host0 (outs : list Completed) : World := kubeutil.world (start outs).

(** The same world with the context cancelled. *)
Definition cancelled : kubeutil.State World :=
  kubeutil.mkState
    (mkWorld (Some (errorString "context canceled")) ["HOME=/root"] [] [] []) [].

(** A shell command whose last argument has double quotes in it:
    [sh -c 'echo "hi"']. *)
Definition echo : Cmd :=
  mkCmd "/bin/sh" ["sh"; "-c"; "echo " ++ kubeutil.dq ++ "hi" ++ kubeutil.dq]
    [] EmptyString None None.

(** A command assembled by hand, not by [exec.Command]: a bare name as
    path, an environment of one variable, a directory and an empty input
    stream. *)
Definition handmade : Cmd :=
  mkCmd "kubectl" ["kubectl"; "version"] ["A=1"] "/tmp" (Some EmptyString) None.

(** What [exec.Command("kubectl", "version")] gives in this world. *)
Definition resolved : Cmd :=
  mkCmd "/usr/bin/kubectl" ["kubectl"; "version"] [] EmptyString None None.

End Sample.

(* ================================================================== *)
(** ** bufio *)

Module bufio.

(** [MaxScanTokenSize]: the largest buffer a [Scanner] grows to. *)
Definition MaxScanTokenSize : N := 65536.

(** [dropCR]: a line without its final carriage return. *)
Definition dropCR (line : string) : string :=
  match reverse line with
  | String c r => if byte c =? 13 then reverse r else line
  | EmptyString => line
  end.

(** Whether a line and its newline fit the scanner's buffer. *)
Definition fits (line : string) : bool :=
  N.of_nat (String.length line) <? MaxScanTokenSize.

(** The tokens [Scanner.Scan] and [Scanner.Text] yield with the split
    function [ScanLines], from the pieces of the data between its
    newlines: every piece is a line, but for the last one when it is
    empty; a line that does not fit the buffer ends the scan (the error is
    left in [Scanner.Err]). *)
Fixpoint scan (pieces : list string) : list string :=
  match pieces with
  | [] => []
  | [last] =>
    if is_empty last then []
    else if fits last then [dropCR last] else []
  | p :: rest => if fits p then dropCR p :: scan rest else []
  end.

(** The lines a [Scanner] over [data] yields until [Scan] says false. *)
Definition Lines (data : string) : list string :=
  scan (strings.Split data (str1 10)).

End bufio.

(* ================================================================== *)
(** ** utils: the helpers of the end-to-end tests *)

(** What the helpers need of the world besides a [Host]: the working
    directory, the files, and the writer the test framework prints to. *)
Class Workspace (W : Type) : Type := {
  os_Getwd : W -> string * option error;
  os_Chdir : string -> M W (option error);
  os_ReadFile : string -> W -> string * option error;
  os_WriteFile : string -> string -> M W (option error);
  GinkgoWriter : string -> W -> W
}.

Module utils.

Definition nl : string := str1 10.

(** [GetNonEmptyLines], its loop over the lines. *)
Fixpoint nonEmpty (lines : list string) : list string :=
  match lines with
  | [] => []
  | line :: rest =>
    let line := strings.TrimSpace line in
    if is_empty line then nonEmpty rest else line :: nonEmpty rest
  end.

(** [GetNonEmptyLines]. *)
Definition GetNonEmptyLines (output : string) : list string :=
  nonEmpty (strings.Split output nl).

(** [GetProjectDir]. *)
Definition GetProjectDir {W : Type} {D : Workspace W} (w : W) : string * option error :=
  let wd := fst (os_Getwd w) in
  match snd (os_Getwd w) with
  | Some err =>
    (wd, Some (wrapError ("failed to get current working directory: " ++ Error err) err))
  | None => (strings.ReplaceAll wd "/test/e2e" EmptyString, None)
  end.

(** [Run]: the command is the caller's own, with its directory and its
    environment set anew. *)
Definition Run {U : Unicode} {W : Type} {H : Host W} {D : Workspace W}
  (cmd : Cmd) : M W (string * option error) :=
  dir <- gets (fun w => fst (GetProjectDir w)) ;;
  failed <- os_Chdir dir ;;
  match failed with
  | Some err => modify (GinkgoWriter ("chdir dir: " ++ strconv.Quote (Error err) ++ nl))
  | None => ret tt
  end ;;
  env <- gets os_Environ ;;
  let cmd := {| Path := Path cmd; Args := Args cmd;
                Env := (env ++ ["GO111MODULE=on"])%list;
                Dir := dir; Stdin := Stdin cmd; ctx := ctx cmd |} in
  let command := strings.Join (Args cmd) " " in
  modify (GinkgoWriter ("running: " ++ strconv.Quote command ++ nl)) ;;
  done <- Cmd_Run cmd ;;
  let outStr := Stdout done in
  let errStr := Stderr done in
  match Failure done with
  | Some err =>
    let combined := strings.TrimSpace (errStr ++ nl ++ outStr) in
    ret (outStr,
         Some (wrapError (strconv.Quote command ++ " failed: " ++ combined
                          ++ ": " ++ Error err) err))
  | None => ret (outStr, None)
  end.

(** The world in which [Run] starts the process: [w] after the change of
    directory and the lines written. *)
Definition ready {U : Unicode} {W : Type} {H : Host W} {D : Workspace W}
  (w : W) (cmd : Cmd) : W :=
  let dir := fst (GetProjectDir w) in
  let moved := os_Chdir dir w in
  let w1 := match fst moved with
            | Some err =>
              GinkgoWriter ("chdir dir: " ++ strconv.Quote (Error err) ++ nl) (snd moved)
            | None => snd moved
            end in
  GinkgoWriter ("running: " ++ strconv.Quote (strings.Join (Args cmd) " ") ++ nl) w1.

(** The command [Run] starts. *)
Definition prepared {U : Unicode} {W : Type} {H : Host W} {D : Workspace W}
  (w : W) (cmd : Cmd) : Cmd :=
  let dir := fst (GetProjectDir w) in
  let moved := os_Chdir dir w in
  let w1 := match fst moved with
            | Some err =>
              GinkgoWriter ("chdir dir: " ++ strconv.Quote (Error err) ++ nl) (snd moved)
            | None => snd moved
            end in
  {| Path := Path cmd; Args := Args cmd;
     Env := (os_Environ w1 ++ ["GO111MODULE=on"])%list;
     Dir := dir; Stdin := Stdin cmd; ctx := ctx cmd |}.

(** The child process of [Run]: its outcome and the world it leaves. *)
Definition launched {U : Unicode} {W : Type} {H : Host W} {D : Workspace W}
  (w : W) (cmd : Cmd) : Completed * W :=
  Cmd_Run (prepared w cmd) (ready w cmd).

(** The names [IsCertManagerCRDsInstalled] looks for. *)
Definition certManagerCRDs : list string :=
  ["certificates.cert-manager.io";
   "issuers.cert-manager.io";
   "clusterissuers.cert-manager.io";
   "certificaterequests.cert-manager.io";
   "orders.acme.cert-manager.io";
   "challenges.acme.cert-manager.io"].

(** [IsCertManagerCRDsInstalled]. *)
Definition IsCertManagerCRDsInstalled {U : Unicode} {W : Type} {H : Host W}
  {D : Workspace W} : M W bool :=
  cmd <- gets (fun w => exec.Command w "kubectl" ["get"; "crds"]) ;;
  res <- Run cmd ;;
  match snd res with
  | Some _ => ret false
  | None =>
    let crdList := GetNonEmptyLines (fst res) in
    ret (existsb
           (fun crd => existsb (fun line => strings.Contains line crd) crdList)
           certManagerCRDs)
  end.

Definition certmanagerVersion : string := "v1.16.3".

(** [certmanagerURL]: the template with the version in it. *)
Definition certmanagerURL : string :=
  "https://github.com/cert-manager/cert-manager/releases/download/"
  ++ certmanagerVersion ++ "/cert-manager.yaml".

(** The arguments of the wait for the webhook. *)
Definition waitArgs : list string :=
  ["wait"; "deployment.apps/cert-manager-webhook";
   "--for"; "condition=Available";
   "--namespace"; "cert-manager";
   "--timeout"; "5m"].

(** [InstallCertManager]. *)
Definition InstallCertManager {U : Unicode} {W : Type} {H : Host W} {D : Workspace W}
  : M W (option error) :=
  cmd <- gets (fun w => exec.Command w "kubectl" ["apply"; "-f"; certmanagerURL]) ;;
  res <- Run cmd ;;
  match snd res with
  | Some err => ret (Some err)
  | None =>
    cmd <- gets (fun w => exec.Command w "kubectl" waitArgs) ;;
    res <- Run cmd ;;
    ret (snd res)
  end.

(** What [UncommentCode] puts in place of [target]: its lines, each
    without the prefix, with a newline between two of them. *)
Definition uncommented (target pre : string) : string :=
  strings.Join (map (fun line => strings.TrimPrefix line pre) (bufio.Lines target)) nl.

(** [UncommentCode].  Writing to a [bytes.Buffer] never returns an error,
    so the three checks of these writes have no branch here. *)
Definition UncommentCode {U : Unicode} {W : Type} {D : Workspace W}
  (filename target pre : string) : M W (option error) :=
  read <- gets (os_ReadFile filename) ;;
  match snd read with
  | Some err =>
    ret (Some (wrapError ("failed to read file " ++ strconv.Quote filename ++ ": "
                          ++ Error err) err))
  | None =>
    let strContent := fst read in
    match strings.Index strContent target with
    | None =>
      ret (Some (errorString ("unable to find the code " ++ strconv.Quote target
                              ++ " to be uncomment")))
    | Some idx =>
      match bufio.Lines target with
      | [] => ret None
      | _ :: _ =>
        let out := take idx strContent ++ uncommented target pre
                   ++ drop (idx + String.length target) strContent in
        failed <- os_WriteFile filename out ;;
        match failed with
        | Some err =>
          ret (Some (wrapError ("failed to write file " ++ strconv.Quote filename ++ ": "
                                ++ Error err) err))
        | None => ret None
        end
      end
    end
  end.

(** A block of lines behind a comment prefix, as a target for
    [UncommentCode]. *)
Definition commented (pre : string) (lines : list string) : string :=
  strings.Join (map (fun line => pre ++ line) lines) nl.

(** A line [UncommentCode] gives back as it is: no newline in it, no
    carriage return at its end, and short enough for the scanner. *)
Definition scannable (line : string) : bool :=
  negb (strings.Contains line nl)
  && String.eqb (bufio.dropCR line) line
  && bufio.fits line.

End utils.

(* ================================================================== *)
(** ** A second concrete world, with a working directory and files *)

Module Lab.

Record World : Type := mkWorld {
  cwd : string;
  files : list (string * string);
  environ : list string;
  outcomes : list Completed;
  started : list Cmd;
  printed : list string
}.

Definition run (cmd : Cmd) : M World Completed :=
  fun w =>
    (hd Sample.notStarted (outcomes w),
     mkWorld (cwd w) (files w) (environ w) (tl (outcomes w))
       (started w ++ [cmd])%list (printed w)).

#[export] Instance host : Host World := {|
  Context_Err := fun _ _ => None;
  os_Environ := environ;
  exec_LookPath := fun _ name =>
    if String.eqb name "kubectl" then Some "/usr/bin/kubectl" else None;
  Cmd_Run := run
|}.

Fixpoint lookup (name : string) (fs : list (string * string)) : option string :=
  match fs with
  | [] => None
  | (n, data) :: fs' => if String.eqb n name then Some data else lookup name fs'
  end.

Fixpoint store (name data : string) (fs : list (string * string))
  : list (string * string) :=
  match fs with
  | [] => [(name, data)]
  | (n, old) :: fs' =>
    if String.eqb n name then (n, data) :: fs' else (n, old) :: store name data fs'
  end.

#[export] Instance desk : Workspace World := {|
  os_Getwd := fun w => (cwd w, None);
  os_Chdir := fun dir w =>
    (None, mkWorld dir (files w) (environ w) (outcomes w) (started w) (printed w));
  os_ReadFile := fun name w =>
    match lookup name (files w) with
    | Some data => (data, None)
    | None => (EmptyString, Some (errorString "no such file or directory"))
    end;
  os_WriteFile := fun name data w =>
    (None, mkWorld (cwd w) (store name data (files w)) (environ w) (outcomes w)
             (started w) (printed w));
  GinkgoWriter := fun text w =>
    mkWorld (cwd w) (files w) (environ w) (outcomes w) (started w)
      (printed w ++ [text])%list
|}.

(** A world in the directory of the end-to-end tests, with one file. *)
Definition start (outs : list Completed) : World :=
  mkWorld "/repo/test/e2e"
    [("kustomization.yaml",
      "resources:" ++ utils.nl ++ "#- ../prometheus" ++ utils.nl ++ "#- ../certs"
      ++ utils.nl ++ "patches:" ++ utils.nl)]
    ["HOME=/root"] outs [] [].

End Lab.

(* ================================================================== *)
(** ** Notions the properties of the helpers are stated with *)

(** The newline byte. *)
Definition newline : ascii := char 10.

(** A string that holds no newline. *)
Definition oneLine (s : string) : bool := negb (strings.Contains s utils.nl).

(** Whether [s] starts with a white-space rune. *)
Definition startsSpace (s : string) : bool :=
  unicode.IsSpace (fst (utf8.DecodeRuneInString s)).

(** A byte that is printable ASCII other than the space. *)
Definition solidByte (b : N) : bool := between 0x21 b 0x7E.

(** A string of such bytes only. *)
Fixpoint solid (s : string) : bool :=
  match s with
  | EmptyString => true
  | String ch s' => solidByte (byte ch) && solid s'
  end.

(** A string with no such byte at all. *)
Fixpoint blank (s : string) : bool :=
  match s with
  | EmptyString => true
  | String ch s' => negb (solidByte (byte ch)) && blank s'
  end.

(** What [UncommentCode] makes of the result of [os.WriteFile]. *)
Definition writeError {U : Unicode} (filename : string) (failed : option error)
  : option error :=
  match failed with
  | Some err =>
    Some (wrapError ("failed to write file " ++ strconv.Quote filename ++ ": "
                     ++ Error err) err)
  | None => None
  end.

(** The arguments of a token request. *)
Definition tokenArgs (ns sa : string) : list string :=
  ["kubectl"; "create"; "--raw";
   "/api/v1/namespaces/" ++ ns ++ "/serviceaccounts/" ++ sa ++ "/token";
   "-f"; "-"].

(** A token request as the runner is given it. *)
Definition isTokenRequest (ns sa : string) (cmd : Cmd) : Prop :=
  Args cmd = tokenArgs ns sa /\ Stdin cmd = Some kubeutil.tokenRequestBody
  /\ Env cmd = [] /\ Dir cmd = EmptyString.

(* ================================================================== *)
(** * Properties *)

Import kubeutil.

(** ** Strings *)

Lemma Contains_unfold (s substr : string) :
  strings.Contains s substr =
  prefix substr s ||
  match s with
  | EmptyString => false
  | String _ s' => strings.Contains s' substr
  end.
Proof. destruct s; reflexivity. Qed.

Lemma prefix_append (a b : string) : prefix a (a ++ b) = true.
Proof.
  induction a as [|ch a IH]; simpl.
  - destruct b; reflexivity.
  - rewrite IH. destruct (ascii_dec ch ch) as [_|Hne]; [reflexivity | now elim Hne].
Qed.

Lemma Contains_append (a substr b : string) :
  strings.Contains (a ++ substr ++ b) substr = true.
Proof.
  induction a as [|ch a IH].
  - simpl. rewrite Contains_unfold, prefix_append. reflexivity.
  - simpl. rewrite IH. apply orb_true_r.
Qed.

Lemma append_assoc (a b d : string) : (a ++ b) ++ d = a ++ b ++ d.
Proof. induction a as [|ch a IH]; simpl; [reflexivity | now rewrite IH]. Qed.

Lemma Contains_prefix (substr b : string) :
  strings.Contains (substr ++ b) substr = true.
Proof. apply (Contains_append EmptyString). Qed.

(** What [plain] says of one byte. *)
Lemma plain_byte (ch : ascii) (s : string) :
  plain (String ch s) = true ->
  (0x20 <= byte ch <= 0x7E /\ byte ch <> 34 /\ byte ch <> 92) /\ plain s = true.
Proof.
  simpl. unfold between. rewrite !andb_true_iff, !negb_true_iff.
  rewrite !N.leb_le, !N.eqb_neq. tauto.
Qed.

Lemma Decode_ascii (ch : ascii) (s : string) :
  byte ch < 0x80 -> utf8.DecodeRuneInString (String ch s) = (byte ch, 1%nat).
Proof.
  intros Hlt. unfold utf8.DecodeRuneInString.
  apply N.ltb_lt in Hlt. rewrite Hlt. reflexivity.
Qed.

Section Quoting.
Context {U : Unicode}.

Lemma quoteBody_plain (s : string) :
  plain s = true -> strconv.quoteBody 0 s = s.
Proof.
  induction s as [|ch s IH]; intros Hp; [reflexivity|].
  apply plain_byte in Hp. destruct Hp as [(Hr & Hq & Hb) Hs].
  cbn [strconv.quoteBody]. rewrite Decode_ascii by lia.
  assert (E1 : (byte ch =? utf8.RuneError) = false)
    by (apply N.eqb_neq; unfold utf8.RuneError; lia).
  rewrite E1, andb_false_r.
  unfold strconv.escapedRune, strconv.IsPrint, between.
  apply N.eqb_neq in Hq, Hb. rewrite Hq, Hb. cbn [orb].
  assert (E2 : (byte ch <=? 0xFF) = true) by (apply N.leb_le; lia).
  assert (E3 : (0x20 <=? byte ch) = true) by (apply N.leb_le; lia).
  assert (E4 : (byte ch <=? 0x7E) = true) by (apply N.leb_le; lia).
  rewrite E2, E3, E4. cbn [andb orb Nat.pred take append].
  rewrite IH by assumption. reflexivity.
Qed.

(** On a plain string [%q] only adds the quotes. *)
Lemma Quote_plain (s : string) :
  plain s = true -> strconv.Quote s = dq ++ s ++ dq.
Proof.
  intros Hp. unfold strconv.Quote. rewrite quoteBody_plain by assumption. reflexivity.
Qed.

End Quoting.

(** ** JSON *)

Lemma scanString_plain (t rest : string) :
  plain t = true ->
  json.scanString 0 (t ++ String (char 34) rest) = Some (t, rest).
Proof.
  induction t as [|ch t IH]; intros Hp; [reflexivity|].
  apply plain_byte in Hp. destruct Hp as [(Hr & Hq & Hb) Hs].
  cbn [append json.scanString].
  apply N.eqb_neq in Hq, Hb. rewrite Hq, Hb.
  assert (E1 : (byte ch <? 0x20) = false) by (apply N.ltb_ge; lia).
  rewrite E1, Decode_ascii by lia.
  assert (E2 : (byte ch =? utf8.RuneError) = false)
    by (apply N.eqb_neq; unfold utf8.RuneError; lia).
  rewrite E2, andb_false_r. cbn [Nat.pred take].
  rewrite IH by assumption. reflexivity.
Qed.

Lemma skipSpace_length (s : string) :
  (String.length (json.skipSpace s) <= String.length s)%nat.
Proof.
  induction s as [|ch s IH]; simpl; [lia|].
  destruct (json.isSpace (byte ch)); simpl; lia.
Qed.

Lemma drop_length (n : nat) (s : string) :
  (String.length (drop n s) <= String.length s)%nat.
Proof.
  revert s. induction n as [|n IH]; intros [|ch s]; simpl; try lia.
  specialize (IH s). lia.
Qed.

Lemma headIs_drop (b : N) (s : string) :
  json.headIs b s = true -> S (String.length (drop 1 s)) = String.length s.
Proof. destruct s; [discriminate | reflexivity]. Qed.

Lemma scanString_length (s : string) :
  forall (k : nat) (v rest : string),
    json.scanString k s = Some (v, rest) ->
    (String.length rest < String.length s)%nat.
Proof.
  induction s as [|ch s IH]; intros k v rest Hs; [discriminate|].
  cbn [json.scanString] in Hs.
  destruct k as [|k].
  - repeat match type of Hs with
           | (if ?b then _ else _) = _ => destruct b
           | match ?x with _ => _ end = _ => destruct x eqn:?
           | (let (_, _) := ?x in _) = _ => destruct x eqn:?
           | None = Some _ => discriminate Hs
           end;
      try (injection Hs as _ <-);
      try match goal with
          | E : json.scanString _ s = Some _ |- _ => apply IH in E
          end; simpl; lia.
  - apply IH in Hs. simpl. lia.
Qed.

Lemma skipDigits_length (s : string) :
  (String.length (json.skipDigits s) <= String.length s)%nat.
Proof.
  induction s as [|ch s IH]; simpl; [lia|].
  destruct (json.isDigit (byte ch)); simpl; lia.
Qed.

Lemma digits1_length (s rest : string) :
  json.digits1 s = Some rest -> (String.length rest <= String.length s)%nat.
Proof.
  destruct s as [|ch s]; simpl; [discriminate|].
  destruct (json.isDigit (byte ch)); [|discriminate].
  intros [= <-]. pose proof (skipDigits_length s). lia.
Qed.

Lemma intPart_length (s rest : string) :
  json.intPart s = Some rest -> (String.length rest <= String.length s)%nat.
Proof.
  unfold json.intPart. destruct (json.headIs 48 s).
  - intros [= <-]. apply (drop_length 1 s).
  - apply digits1_length.
Qed.

Lemma fracPart_length (s rest : string) :
  json.fracPart s = Some rest -> (String.length rest <= String.length s)%nat.
Proof.
  unfold json.fracPart. destruct (json.headIs 46 s).
  - intros Hd. apply digits1_length in Hd. pose proof (drop_length 1 s). lia.
  - intros [= <-]. lia.
Qed.

Lemma expPart_length (s rest : string) :
  json.expPart s = Some rest -> (String.length rest <= String.length s)%nat.
Proof.
  unfold json.expPart. destruct (json.headIs 101 s || json.headIs 69 s).
  - cbv zeta. intros Hd. apply digits1_length in Hd.
    pose proof (drop_length 1 s). pose proof (drop_length 1 (drop 1 s)).
    destruct (json.headIs 43 (drop 1 s) || json.headIs 45 (drop 1 s)); lia.
  - intros [= <-]. lia.
Qed.

Lemma scanNumber_length (s lit rest : string) :
  json.scanNumber s = Some (lit, rest) ->
  (String.length rest <= String.length s)%nat.
Proof.
  unfold json.scanNumber. intros Hn.
  destruct (json.intPart _) as [s1|] eqn:E1; [|discriminate].
  destruct (json.fracPart s1) as [s2|] eqn:E2; [|discriminate].
  destruct (json.expPart s2) as [s3|] eqn:E3; [|discriminate].
  injection Hn as _ <-.
  apply intPart_length in E1. apply fracPart_length in E2. apply expPart_length in E3.
  pose proof (drop_length 1 s).
  destruct (json.headIs 45 s); lia.
Qed.

Lemma scanLiteral_length (lit : string) (v0 v : json.value) (s rest : string) :
  json.scanLiteral lit v0 s = Some (v, rest) ->
  (String.length rest <= String.length s)%nat.
Proof.
  unfold json.scanLiteral. destruct (prefix lit s); [|discriminate].
  intros [= _ <-]. apply (drop_length (String.length lit) s).
Qed.

(** The parser folds [drop 1] away when it computes; this puts it back. *)
Ltac fold_drop :=
  repeat match goal with
         | |- context [match ?x with EmptyString => EmptyString | String _ t => t end] =>
           change (match x with EmptyString => EmptyString | String _ t => t end)
             with (drop 1 x)
         | H : context [match ?x with EmptyString => EmptyString | String _ t => t end] |- _ =>
           change (match x with EmptyString => EmptyString | String _ t => t end)
             with (drop 1 x) in H
         end.

Ltac lengths :=
  fold_drop;
  cbn [String.length] in *;
  repeat match goal with
         | E : json.scanString _ _ = Some _ |- _ => apply scanString_length in E
         | E : json.scanNumber _ = Some _ |- _ => apply scanNumber_length in E
         | E : json.scanLiteral _ _ _ = Some _ |- _ => apply scanLiteral_length in E
         | E : json.headIs _ _ = true |- _ => apply headIs_drop in E
         | E : json.skipSpace ?s = String _ _ |- _ =>
           let L := fresh "L" in
           pose proof (skipSpace_length s) as L; rewrite E in L; clear E;
           cbn [String.length] in L
         | |- context [json.skipSpace ?x] =>
           lazymatch goal with
           | _ : (String.length (json.skipSpace x) <= String.length x)%nat |- _ => fail
           | _ => pose proof (skipSpace_length x)
           end
         | _ : context [json.skipSpace ?x] |- _ =>
           lazymatch goal with
           | _ : (String.length (json.skipSpace x) <= String.length x)%nat |- _ => fail
           | _ => pose proof (skipSpace_length x)
           end
         | |- context [drop ?n ?x] =>
           lazymatch goal with
           | _ : (String.length (drop n x) <= String.length x)%nat |- _ => fail
           | _ => pose proof (drop_length n x)
           end
         | _ : context [drop ?n ?x] |- _ =>
           lazymatch goal with
           | _ : (String.length (drop n x) <= String.length x)%nat |- _ => fail
           | _ => pose proof (drop_length n x)
           end
         end;
  cbn [String.length] in *.

Ltac split_parse Hp :=
  repeat match type of Hp with
         | (if ?b then _ else _) = _ => destruct b eqn:?
         | match ?x with _ => _ end = _ => destruct x as [[? ?]|] eqn:?
         | None = Some _ => discriminate Hp
         end;
  try match type of Hp with
      | Some _ = Some _ => inversion Hp; subst; clear Hp
      end.

Ltac rewrite_conditions :=
  repeat match goal with
         | E : ?x = _ |- context [?x] => rewrite E
         end;
  cbn [String.length] in *.

Ltac finish IHv IHm IHe :=
  repeat match goal with
         | E : json.parseValue _ _ _ = Some _ |- _ => apply IHv in E; destruct E as [? ?]
         | E : json.parseMembers _ _ _ = Some _ |- _ => apply IHm in E; destruct E as [? ?]
         | E : json.parseElems _ _ _ = Some _ |- _ => apply IHe in E; destruct E as [? ?]
         end;
  split; [lengths; lia|];
  intros [|?] ?; [lengths; lia|];
  cbn [json.parseValue json.parseMembers json.parseElems];
  repeat first
    [ progress rewrite_conditions
    | match goal with
      | Hm : forall f : nat, _ -> ?p f ?d ?x = _ |- context [?p _ ?d ?x] =>
        rewrite Hm by (lengths; lia)
      end ];
  first [reflexivity | assumption].

(** Each of the three parsing functions has enough fuel as soon as it has
    more than the number of bytes it reads. *)
Lemma parse_enough (fuel : nat) :
  json.enough json.parseValue fuel /\ json.enough json.parseMembers fuel /\ json.enough json.parseElems fuel.
Proof.
  unfold json.enough.
  induction fuel as [|fuel (IHv & IHm & IHe)].
  - repeat split; discriminate.
  - split; [|split]; intros depth s a rest Hp.
    + cbn [json.parseValue] in Hp.
      destruct (json.skipSpace s) as [|ch s'] eqn:Es; [discriminate|].
      split_parse Hp; finish IHv IHm IHe.
    + cbn [json.parseMembers] in Hp.
      split_parse Hp; finish IHv IHm IHe.
    + cbn [json.parseElems] in Hp.
      split_parse Hp; finish IHv IHm IHe.
Qed.

(** So the fuel [json.parse] gives is enough for every document: a value
    that some fuel reads is read with it. *)
Lemma parse_fuel (data : string) (fuel : nat) (v : json.value) (rest : string) :
  json.parseValue fuel 0 data = Some (v, rest) ->
  json.parseValue (2 * String.length data + 2) 0 data = Some (v, rest).
Proof.
  intros Hp. apply (proj1 (parse_enough fuel)) in Hp. destruct Hp as [_ Hmore].
  apply Hmore. lia.
Qed.

(** Rewriting with a fact about [json.scanString] once the bytes in it are
    in the form computation leaves them in. *)
Ltac rewrite_scan H :=
  let E := fresh "E" in
  pose proof H as E; cbn -[json.scanString] in E; rewrite E; clear E.

Lemma parseValue_string (fuel : nat) (depth : N) (t rest : string) :
  plain t = true ->
  json.parseValue (S fuel) depth (String (char 34) (t ++ String (char 34) rest))
  = Some (json.Str t, rest).
Proof.
  intros Hp. cbn -[json.scanString].
  rewrite_scan (scanString_plain t rest Hp). reflexivity.
Qed.

Lemma parseMembers_single (fuel : nat) (depth : N) (k s rest : string) (v : json.value) :
  plain k = true ->
  json.parseValue fuel depth s = Some (v, String (char 125) rest) ->
  json.parseMembers (S fuel) depth
    (String (char 34) (k ++ String (char 34) (String (char 58) s)))
  = Some ([(k, v)], rest).
Proof.
  intros Hp Hv. cbn -[json.scanString json.parseValue].
  rewrite_scan (scanString_plain k (String (char 58) s) Hp).
  cbn -[json.scanString json.parseValue].
  rewrite Hv. reflexivity.
Qed.

Lemma parseValue_object (fuel : nat) (depth : N) (s rest : string)
  (m : list (string * json.value)) :
  (json.maxNestingDepth <? depth + 1) = false ->
  json.parseMembers fuel (depth + 1) (String (char 34) s) = Some (m, rest) ->
  json.parseValue (S fuel) depth (String (char 123) (String (char 34) s))
  = Some (json.Object m, rest).
Proof.
  intros Hd Hm.
  change (json.parseValue (S fuel) depth (String (char 123) (String (char 34) s)))
    with (if json.maxNestingDepth <? depth + 1 then None
          else match json.parseMembers fuel (depth + 1) (String (char 34) s) with
               | Some (m, rest) => Some (json.Object m, rest)
               | None => None
               end).
  rewrite Hd, Hm. reflexivity.
Qed.

Lemma parseValue_tokenDoc (fuel : nat) (tok : string) :
  plain tok = true ->
  json.parseValue (5 + fuel) 0 (tokenDoc tok)
  = Some (json.Object [("status", json.Object [("token", json.Str tok)])], EmptyString).
Proof.
  intros Hp.
  change (tokenDoc tok) with
    (String (char 123) (String (char 34) ("status" ++ String (char 34) (String (char 58)
      (String (char 123) (String (char 34) ("token" ++ String (char 34) (String (char 58)
        (String (char 34) (tok ++ String (char 34) (String (char 125)
          (String (char 125) EmptyString)))))))))))).
  change (5 + fuel)%nat with (S (S (S (S (S fuel))))).
  apply parseValue_object; [reflexivity|].
  apply parseMembers_single; [reflexivity|].
  apply parseValue_object; [reflexivity|].
  apply parseMembers_single; [reflexivity|].
  apply parseValue_string. assumption.
Qed.

(** The canonical response decodes to its token. *)
Lemma Unmarshal_tokenDoc (tok : string) :
  plain tok = true ->
  Unmarshal (tokenDoc tok) = (mkTokenRequest (mkStatus tok), None).
Proof.
  intros Hp. unfold Unmarshal, json.parse.
  replace (2 * String.length (tokenDoc tok) + 2)%nat
    with (5 + (2 * String.length (tokenDoc tok) - 3))%nat
    by (unfold tokenDoc; simpl; lia).
  rewrite (parseValue_tokenDoc _ tok Hp). reflexivity.
Qed.

(** ** The runner *)

Ltac break_match :=
  repeat match goal with
         | |- context [match ?x with _ => _ end] => destruct x eqn:?
         end.

Lemma is_empty_false (s : string) : is_empty s = false -> s <> EmptyString.
Proof. destruct s; [discriminate | intros _; discriminate]. Qed.

Section Runner.
Context {U : Unicode} {W : Type} {H : Host W}.
Variables (c : Context) (logger : slo.Logger W) (cmd : Cmd) (w : W).

(** [DefaultRunner.Run] in one equation: it reports on the child process
    [launched]. *)
Lemma DefaultRunner_Run_eq :
  DefaultRunner_Run c logger cmd w =
  (match Failure (fst (launched w c logger cmd)) with
   | Some err =>
     (Stdout (fst (launched w c logger cmd)),
      Some (wrapError
              (strconv.Quote (strings.Join (Args (rebuild w c cmd)) " ")
               ++ " failed: "
               ++ strings.TrimSpace (Stderr (fst (launched w c logger cmd)) ++ nl
                                     ++ Stdout (fst (launched w c logger cmd)))
               ++ ": " ++ Error err) err))
   | None => (Stdout (fst (launched w c logger cmd)), None)
   end,
   snd (launched w c logger cmd)).
Proof.
  unfold DefaultRunner_Run, launched, bind, gets, logf, modify, ret. cbn [fst snd].
  destruct (Failure _); reflexivity.
Qed.

Lemma rebuild_Env :
  Env (rebuild w c cmd) =
  ((match Env cmd with [] => os_Environ w | _ :: _ => Env cmd end) ++ [marker])%list.
Proof. unfold rebuild. cbn [Env]. destruct (Env cmd); reflexivity. Qed.

End Runner.

Lemma firstn_length_append {A : Type} (l m : list A) :
  firstn (List.length l) (l ++ m)%list = l.
Proof. induction l as [|x l IH]; simpl; [reflexivity | now rewrite IH]. Qed.

Section RunnerClaims.
Context {U : Unicode} {W : Type} {H : Host W}.

(** [DefaultRunner.Run] hands one command to the host: the rebuilt one,
    in the world where the line [running: ...] has been logged; the world
    it leaves, the output it returns and whether it returns an error are
    those of that run. *)
Lemma DefaultRunner_Run_executes (w : W) (c : Context) (logger : slo.Logger W)
  (cmd : Cmd) :
  let c2 := rebuild w c cmd in
  let finished :=
    Cmd_Run c2
      (slo.Logf (slo.NewLogger logger)
         ("running: " ++ strconv.Quote (strings.Join (Args c2) " ")) w) in
  snd (DefaultRunner_Run c logger cmd w) = snd finished
  /\ fst (fst (DefaultRunner_Run c logger cmd w)) = Stdout (fst finished)
  /\ (snd (fst (DefaultRunner_Run c logger cmd w)) = None
      <-> Failure (fst finished) = None).
Proof.
  cbv zeta. rewrite DefaultRunner_Run_eq. unfold launched. cbn [fst snd].
  split; [reflexivity|].
  destruct (Failure _); cbn [fst snd]; (split; [reflexivity|]); split;
    intros E; (reflexivity || discriminate E).
Qed.

(** C4, as the code has it.  The command [DefaultRunner.Run] hands to the
    host is the rebuilt command [c2]: the world the call leaves, the
    output it returns and whether it returns an error are those of the
    host's run of [c2].  The environment of [c2]: when the caller's list
    has length zero (no list, or a list of no entries), it is the host
    process environment followed by [GO111MODULE=on]; when the list has
    entries, it is exactly that list followed by the marker, so the
    caller's entries are all there, in their order, each as often as
    before (the marker itself once more). *)
Theorem Run_environment (w : W) (c : Context) (logger : slo.Logger W) (cmd : Cmd) :
  let c2 := rebuild w c cmd in
  let finished :=
    Cmd_Run c2
      (slo.Logf (slo.NewLogger logger)
         ("running: " ++ strconv.Quote (strings.Join (Args c2) " ")) w) in
  (snd (DefaultRunner_Run c logger cmd w) = snd finished
   /\ fst (fst (DefaultRunner_Run c logger cmd w)) = Stdout (fst finished)
   /\ (snd (fst (DefaultRunner_Run c logger cmd w)) = None
       <-> Failure (fst finished) = None))
  /\ (Env cmd = [] -> Env c2 = (os_Environ w ++ ["GO111MODULE=on"])%list)
  /\ (Env cmd <> [] ->
      Env c2 = (Env cmd ++ ["GO111MODULE=on"])%list
      /\ firstn (List.length (Env cmd)) (Env c2) = Env cmd
      /\ List.length (Env c2) = S (List.length (Env cmd))
      /\ forall e : string,
           count_occ string_dec (Env c2) e
           = (count_occ string_dec (Env cmd) e
              + if string_dec "GO111MODULE=on" e then 1 else 0)%nat).
Proof.
  cbv zeta. split; [apply DefaultRunner_Run_executes|].
  rewrite rebuild_Env. split.
  - intros ->. reflexivity.
  - intros Hne. destruct (Env cmd) as [|x env] eqn:E; [now elim Hne|].
    repeat split.
    + apply firstn_length_append.
    + rewrite length_app. simpl. lia.
    + intros e. rewrite count_occ_app. simpl.
      destruct (string_dec marker e); reflexivity.
Qed.

(** C5, as the code has it.  When the child process fails,
    [DefaultRunner.Run] returns the standard output captured and an error
    that wraps the failure; its message is the command line as [%q] prints
    it, [ failed: ], the trimmed text of standard error, a newline and
    standard output, [: ] and the failure's message.  The message contains
    the command line itself whenever that is plain. *)
Theorem Run_failure (w : W) (c : Context) (logger : slo.Logger W) (cmd : Cmd)
  (cause : error) :
  Failure (fst (launched w c logger cmd)) = Some cause ->
  let finished := fst (launched w c logger cmd) in
  let command := strings.Join (Args (rebuild w c cmd)) " " in
  let combined := strings.TrimSpace (Stderr finished ++ nl ++ Stdout finished) in
  exists e : error,
    fst (DefaultRunner_Run c logger cmd w) = (Stdout finished, Some e)
    /\ Error e = strconv.Quote command ++ " failed: " ++ combined ++ ": " ++ Error cause
    /\ strings.Contains (Error e) (strconv.Quote command) = true
    /\ (plain command = true -> strings.Contains (Error e) command = true)
    /\ strings.Contains (Error e) combined = true
    /\ Unwrap e = Some cause.
Proof.
  intros Hf finished command combined.
  rewrite DefaultRunner_Run_eq. cbn [fst]. rewrite Hf.
  eexists. split; [reflexivity|]. cbn [Error Unwrap].
  fold finished command combined.
  repeat split.
  - apply Contains_prefix.
  - intros Hp. rewrite (Quote_plain command Hp), !append_assoc.
    apply (Contains_append dq command).
  - rewrite <- (append_assoc (strconv.Quote command)).
    apply (Contains_append (strconv.Quote command ++ " failed: ") combined).
Qed.

(** C6.  Every result of [DefaultRunner.Run] is of one of two kinds: the
    child process succeeded, and the result is its standard output alone
    with a nil error; or it failed with some cause, and the result is its
    standard output with an error that wraps that cause.  Standard error
    reaches the result only inside the error. *)
Theorem Run_result (w : W) (c : Context) (logger : slo.Logger W) (cmd : Cmd) :
  let finished := fst (launched w c logger cmd) in
  let res := fst (DefaultRunner_Run c logger cmd w) in
  (Failure finished = None /\ res = (Stdout finished, None))
  \/ (exists cause e : error,
        Failure finished = Some cause
        /\ res = (Stdout finished, Some e)
        /\ Unwrap e = Some cause).
Proof.
  cbv zeta. rewrite DefaultRunner_Run_eq. cbn [fst].
  destruct (Failure (fst (launched w c logger cmd))) as [cause|].
  - right. exists cause. eexists. repeat split.
  - left. split; reflexivity.
Qed.

(** C7, as the code has it.  The command [DefaultRunner.Run] hands to the
    host is the rebuilt command [c2]: the world the call leaves, the
    output it returns and whether it returns an error are those of the
    host's run of [c2].  And [c2] is [exec.CommandContext] on the caller's
    context, on the caller's path (the first argument when the path is
    empty) and on the caller's arguments after the first; it has the
    caller's working directory and input stream, an empty stream
    included; its environment is the caller's list, or the host's when
    that is empty, with the marker appended.  The path given is kept as
    the path when it has a separator and is not the root. *)
Theorem Run_descriptor (w : W) (c : Context) (logger : slo.Logger W) (cmd : Cmd) :
  let c2 := rebuild w c cmd in
  let finished :=
    Cmd_Run c2
      (slo.Logf (slo.NewLogger logger)
         ("running: " ++ strconv.Quote (strings.Join (Args c2) " ")) w) in
  let name := if is_empty (Path cmd) then hd EmptyString (Args cmd) else Path cmd in
  (snd (DefaultRunner_Run c logger cmd w) = snd finished
   /\ fst (fst (DefaultRunner_Run c logger cmd w)) = Stdout (fst finished)
   /\ (snd (fst (DefaultRunner_Run c logger cmd w)) = None
       <-> Failure (fst finished) = None))
  /\ ctx c2 = Some c
  /\ Args c2 = name :: tl (Args cmd)
  /\ Path c2 = Path (exec.CommandContext w c name (tl (Args cmd)))
  /\ (exec.isBase name = false -> Path c2 = name)
  /\ Dir c2 = Dir cmd
  /\ Stdin c2 = Stdin cmd
  /\ Env c2 = ((match Env cmd with [] => os_Environ w | _ :: _ => Env cmd end)
               ++ ["GO111MODULE=on"])%list.
Proof.
  cbv zeta. split; [apply DefaultRunner_Run_executes|].
  rewrite rebuild_Env. unfold rebuild, exec.CommandContext, exec.Command.
  cbn [ctx Args Path Dir Stdin].
  destruct (Args cmd) as [|a0 [|a1 rest]], (Path cmd) as [|ch p];
    cbn [is_empty List.length Nat.ltb Nat.leb andb hd tl];
    repeat split; try reflexivity; intros ->; reflexivity.
Qed.

End RunnerClaims.

(** ** Declarative apply *)

Section Apply.
Context {U : Unicode} {W : Type} {H : Host W}.


End Apply.

(** ** The credential poller *)

Section Poller.
Context {U : Unicode} {W : Type} {H : Host W}.
Variables (c : Context) (sink : slo.Sink W) (r : CmdRunner W) (ns sa : string).

Local Notation "'attempt'" := (tryOnce c sink r ns sa).
Local Notation "'loop'" := (pollLoop c sink r ns sa).

(** An attempt leaves the world as the runner left it and one more
    command on record. *)
Lemma tryOnce_state (st : State W) :
  snd (attempt st)
  = mkState (snd (Run r c (Some sink) (tokenCmd (world st) ns sa) (world st)))
      (runs st ++ [tokenCmd (world st) ns sa])%list.
Proof.
  unfold tryOnce, bind, gets, callRun, ret. cbn [fst snd].
  break_match; reflexivity.
Qed.

(** What an attempt makes of the runner's answer. *)
Lemma tryOnce_answer (st : State W) :
  fst (attempt st)
  = let answer := fst (Run r c (Some sink) (tokenCmd (world st) ns sa) (world st)) in
    match snd answer with
    | Some err =>
      (EmptyString,
       Some (wrapError ("token request failed (ns=" ++ ns ++ " sa=" ++ sa ++ "): "
                        ++ Error err) err))
    | None =>
      match snd (Unmarshal (fst answer)) with
      | Some err =>
        (EmptyString,
         Some (wrapError ("token response json parse failed: " ++ Error err
                          ++ " (body=" ++ strconv.Quote (fst answer) ++ ")") err))
      | None =>
        if is_empty (Token (Status (fst (Unmarshal (fst answer)))))
        then (EmptyString, Some (errorString "token is empty"))
        else (Token (Status (fst (Unmarshal (fst answer)))), None)
      end
    end.
Proof.
  unfold tryOnce, bind, gets, callRun, ret. cbn [fst snd].
  break_match; reflexivity.
Qed.

Lemma tryOnce_runs (st : State W) :
  List.length (runs (snd (attempt st))) = S (List.length (runs st)).
Proof. rewrite tryOnce_state. cbn [runs]. rewrite length_app. simpl. lia. Qed.

(** A successful attempt yields a token that is not empty, a failed one
    the empty string. *)
Lemma tryOnce_shape (st : State W) :
  (fst (fst (attempt st)) <> EmptyString /\ snd (fst (attempt st)) = None)
  \/ (fst (fst (attempt st)) = EmptyString /\ snd (fst (attempt st)) <> None).
Proof.
  rewrite tryOnce_answer. cbv zeta.
  break_match; cbn [fst snd];
    try (right; split; [reflexivity | discriminate]).
  left. split; [|reflexivity]. now apply is_empty_false.
Qed.

Lemma notReady_runs (err : error) (st : State W) :
  runs (snd (notReady sink err st)) = runs st.
Proof. reflexivity. Qed.

Lemma pollLoop_tick (lastErr : option error) (cases : list selected) (st : State W) :
  loop lastErr (tickerC :: cases) st
  = match snd (fst (attempt st)) with
    | None => (Some (fst (fst (attempt st)), None), snd (attempt st))
    | Some err => loop (Some err) cases (snd (notReady sink err (snd (attempt st))))
    end.
Proof.
  cbn [pollLoop]. unfold bind at 1. unfold ret.
  destruct (snd (fst (attempt st))); reflexivity.
Qed.

Lemma pollLoop_done (err : error) (cases : list selected) (st : State W) :
  loop (Some err) (ctxDone :: cases) st = (Some (EmptyString, Some err), st).
Proof. reflexivity. Qed.

Lemma failures_step (n : nat) (lastErr : option error) (st : State W) :
  failures c sink r ns sa (S n) lastErr st
  = match snd (fst (attempt st)) with
    | None => None
    | Some err =>
      failures c sink r ns sa n (Some err) (snd (notReady sink err (snd (attempt st))))
    end.
Proof. reflexivity. Qed.

Lemma failures_runs (n : nat) :
  forall (lastErr last : option error) (st st' : State W),
    failures c sink r ns sa n lastErr st = Some (last, st') ->
    List.length (runs st') = (List.length (runs st) + n)%nat.
Proof.
  induction n as [|n IH]; intros lastErr last st st' Hf.
  - injection Hf as _ <-. lia.
  - rewrite failures_step in Hf.
    destruct (snd (fst (attempt st))) as [err|]; [|discriminate].
    apply IH in Hf. rewrite notReady_runs, tryOnce_runs in Hf. lia.
Qed.

(** After [n] more failures the loop, told that the context is done,
    returns the last of them. *)
Lemma pollLoop_cancelled (n : nat) :
  forall (e0 e : error) (cases : list selected) (st st' : State W),
    failures c sink r ns sa n (Some e0) st = Some (Some e, st') ->
    loop (Some e0) (repeat tickerC n ++ ctxDone :: cases)%list st
    = (Some (EmptyString, Some e), st').
Proof.
  induction n as [|n IH]; intros e0 e cases st st' Hf.
  - injection Hf as <- <-. reflexivity.
  - rewrite failures_step in Hf. cbn [repeat app]. rewrite pollLoop_tick.
    destruct (snd (fst (attempt st))) as [err|]; [|discriminate].
    now apply IH.
Qed.

(** After [n] more failures the loop makes one more attempt at the next
    tick, and returns its token if it succeeds. *)
Lemma pollLoop_succeeds (n : nat) :
  forall (e0 : error) (last : option error) (tok : string)
         (cases : list selected) (st st1 st2 : State W),
    failures c sink r ns sa n (Some e0) st = Some (last, st1) ->
    attempt st1 = ((tok, None), st2) ->
    loop (Some e0) (repeat tickerC n ++ tickerC :: cases)%list st
    = (Some (tok, None), st2).
Proof.
  induction n as [|n IH]; intros e0 last tok cases st st1 st2 Hf Ha.
  - injection Hf as _ <-. cbn [repeat app]. rewrite pollLoop_tick, Ha. reflexivity.
  - rewrite failures_step in Hf. cbn [repeat app]. rewrite pollLoop_tick.
    destruct (snd (fst (attempt st))) as [err|]; [|discriminate].
    eapply IH; eassumption.
Qed.

(** Whatever the loop returns is a token with a nil error or the empty
    string with an error. *)
Lemma pollLoop_shape (cases : list selected) :
  forall (e0 : error) (st st' : State W) (res : string * option error),
    loop (Some e0) cases st = (Some res, st') ->
    (fst res <> EmptyString /\ snd res = None)
    \/ (fst res = EmptyString /\ snd res <> None).
Proof.
  induction cases as [|[|] cases IH]; intros e0 st st' res Hl.
  - discriminate.
  - rewrite pollLoop_done in Hl. injection Hl as <- _.
    right. split; [reflexivity | discriminate].
  - rewrite pollLoop_tick in Hl.
    destruct (tryOnce_shape st) as [[Hne Hok] | [_ Herr]].
    + rewrite Hok in Hl. injection Hl as <- _. left. split; [assumption | reflexivity].
    + destruct (snd (fst (attempt st))) as [err|]; [|now elim Herr].
      now apply IH in Hl.
Qed.

(** The loop returns once the context is seen done. *)
Lemma pollLoop_returns (cases : list selected) :
  In ctxDone cases ->
  forall (e0 : error) (st : State W),
    exists (res : string * option error) (st' : State W),
      loop (Some e0) cases st = (Some res, st').
Proof.
  induction cases as [|[|] cases IH]; intros Hin e0 st.
  - destruct Hin.
  - rewrite pollLoop_done. eauto.
  - rewrite pollLoop_tick.
    destruct (snd (fst (attempt st))) as [err|]; [|eauto].
    apply IH. destruct Hin as [Heq|Hin]; [discriminate | assumption].
Qed.

End Poller.

Lemma repeat_shift {A : Type} (x : A) (n : nat) (l : list A) :
  (repeat x (S n) ++ l = repeat x n ++ x :: l)%list.
Proof. induction n as [|n IH]; [reflexivity|]. cbn [repeat app] in *. now rewrite IH. Qed.

Section PollerClaims.
Context {U : Unicode} {W : Type} {H : Host W}.

(** [ServiceAccountToken] in one equation: the check of the context, the
    first attempt, then the loop. *)
Lemma ServiceAccountToken_eq (c : Context) (logger : slo.Logger W)
  (r : option (CmdRunner W)) (ns sa : string) (cases : list selected) (st : State W) :
  ServiceAccountToken c logger r ns sa cases st
  = match Context_Err c (world st) with
    | Some err => (Some (EmptyString, Some err), st)
    | None =>
      let first := tryOnce c (slo.NewLogger logger) (orDefault r) ns sa st in
      match snd (fst first) with
      | None => (Some (fst (fst first), None), snd first)
      | Some err =>
        pollLoop c (slo.NewLogger logger) (orDefault r) ns sa (Some err) cases
          (snd (notReady (slo.NewLogger logger) err (snd first)))
      end
    end.
Proof.
  unfold ServiceAccountToken. unfold bind at 1. unfold gets. cbn [fst snd].
  destruct (Context_Err c (world st)); [reflexivity|].
  unfold bind at 1. cbv zeta.
  destruct (snd (fst (tryOnce _ _ _ _ _ st))); reflexivity.
Qed.

(** C1.  A context that is already done when [ServiceAccountToken] is
    called makes it return the context's error at once, with the state
    untouched: no line logged, no command handed to the runner.  And when
    the first attempt and the attempts at the next [k] ticks all fail and
    the loop then sees the context done, it returns the failure of the
    last of these attempts, which is not nil, after [k + 1] calls of the
    runner. *)
Theorem ServiceAccountToken_cancelled (c : Context) (logger : slo.Logger W)
  (r : option (CmdRunner W)) (ns sa : string) :
  (forall (cases : list selected) (st : State W) (err : error),
      Context_Err c (world st) = Some err ->
      ServiceAccountToken c logger r ns sa cases st
      = (Some (EmptyString, Some err), st))
  /\ (forall (k : nat) (cases : list selected) (st st' : State W) (e : error),
        Context_Err c (world st) = None ->
        failures c (slo.NewLogger logger) (orDefault r) ns sa (S k) None st
        = Some (Some e, st') ->
        ServiceAccountToken c logger r ns sa (repeat tickerC k ++ ctxDone :: cases)%list st
        = (Some (EmptyString, Some e), st')
        /\ List.length (runs st') = (List.length (runs st) + S k)%nat).
Proof.
  split.
  - intros cases st err Hc. rewrite ServiceAccountToken_eq, Hc. reflexivity.
  - intros k cases st st' e Hc Hf. split.
    + rewrite ServiceAccountToken_eq, Hc. cbv zeta.
      rewrite failures_step in Hf.
      destruct (snd (fst (tryOnce _ _ _ _ _ st))) as [err|]; [|discriminate].
      now apply pollLoop_cancelled.
    + now apply failures_runs in Hf.
Qed.

(** C2.  With the context not done at the call, if the first [N] attempts
    fail and the next one succeeds with [tok], then [ServiceAccountToken]
    returns [tok] with a nil error once its loop has been given [N] ticks,
    whatever would come after them, and the runner has then been called
    [N + 1] times.  For [N = 0] no tick is needed: the first attempt is
    made before the loop waits for anything. *)
Theorem ServiceAccountToken_retries (c : Context) (logger : slo.Logger W)
  (r : option (CmdRunner W)) (ns sa : string) (N : nat) (cases : list selected)
  (st st1 st2 : State W) (last : option error) (tok : string) :
  Context_Err c (world st) = None ->
  failures c (slo.NewLogger logger) (orDefault r) ns sa N None st = Some (last, st1) ->
  tryOnce c (slo.NewLogger logger) (orDefault r) ns sa st1 = ((tok, None), st2) ->
  ServiceAccountToken c logger r ns sa (repeat tickerC N ++ cases)%list st
  = (Some (tok, None), st2)
  /\ List.length (runs st2) = (List.length (runs st) + N + 1)%nat.
Proof.
  intros Hc Hf Ha. split.
  - rewrite ServiceAccountToken_eq, Hc. cbv zeta.
    destruct N as [|n].
    + injection Hf as _ <-. rewrite Ha. reflexivity.
    + rewrite failures_step in Hf.
      destruct (snd (fst (tryOnce _ _ _ _ _ st))) as [err|]; [|discriminate].
      rewrite repeat_shift.
      eapply pollLoop_succeeds; eassumption.
  - apply failures_runs in Hf.
    pose proof (tryOnce_runs c (slo.NewLogger logger) (orDefault r) ns sa st1) as Hr.
    rewrite Ha in Hr. cbn [snd] in Hr. lia.
Qed.

(** C3.  When the runner answers an attempt with the text [stdout] and a
    nil error: if [stdout] decodes and the token at [status.token] is not
    empty, the attempt succeeds with exactly that token, as it does on the
    response that carries a plain token there; if [stdout] does not decode
    (malformed, or not of the shape of the struct) or the token is empty,
    the attempt fails with an error and the empty string. *)
Theorem tryOnce_token (c : Context) (sink : slo.Sink W) (r : CmdRunner W)
  (ns sa : string) (st : State W) (stdout : string) :
  fst (Run r c (Some sink) (tokenCmd (world st) ns sa) (world st)) = (stdout, None) ->
  let res := fst (tryOnce c sink r ns sa st) in
  (forall tok : string,
      Unmarshal stdout = (mkTokenRequest (mkStatus tok), None) ->
      tok <> EmptyString -> res = (tok, None))
  /\ (forall tok : string,
        plain tok = true -> tok <> EmptyString -> stdout = tokenDoc tok ->
        res = (tok, None))
  /\ (stdout = tokenDoc "abc123" -> res = ("abc123", None))
  /\ (snd (Unmarshal stdout) <> None
      \/ Token (Status (fst (Unmarshal stdout))) = EmptyString ->
      exists e : error, res = (EmptyString, Some e))
  /\ (stdout = tokenDoc EmptyString ->
      res = (EmptyString, Some (errorString "token is empty")))
  /\ (json.parse stdout = None ->
      exists e : error,
        res = (EmptyString, Some e) /\ Unwrap e = Some json.SyntaxError).
Proof.
  intros Hrun res. subst res. rewrite tryOnce_answer, Hrun. cbn [fst snd].
  assert (Hdec : forall tok : string,
             Unmarshal stdout = (mkTokenRequest (mkStatus tok), None) ->
             tok <> EmptyString ->
             match snd (Unmarshal stdout) with
             | Some err =>
               (EmptyString,
                Some (wrapError ("token response json parse failed: " ++ Error err
                                 ++ " (body=" ++ strconv.Quote stdout ++ ")") err))
             | None =>
               if is_empty (Token (Status (fst (Unmarshal stdout))))
               then (EmptyString, Some (errorString "token is empty"))
               else (Token (Status (fst (Unmarshal stdout))), None)
             end = (tok, None)).
  { intros tok -> Hne. cbn [fst snd Status Token].
    destruct tok; [now elim Hne | reflexivity]. }
  split; [exact Hdec|].
  split; [intros tok Hp Hne ->; apply Hdec; [now apply Unmarshal_tokenDoc | assumption]|].
  split; [intros ->; reflexivity|].
  split.
  { intros [Herr | Hempty].
    - destruct (snd (Unmarshal stdout)) as [err|]; [eauto | now elim Herr].
    - destruct (snd (Unmarshal stdout)) as [err|]; [eauto|].
      rewrite Hempty. cbn [is_empty]. eauto. }
  split; [intros ->; reflexivity|].
  intros Hparse. unfold Unmarshal. rewrite Hparse. cbn [fst snd].
  eexists. split; reflexivity.
Qed.

(** C9.  Whatever [ServiceAccountToken] returns is either a token that
    is not empty with a nil error, or the empty string with an error that
    is not nil; and it does return whenever its loop sees the context
    done. *)
Theorem ServiceAccountToken_result (c : Context) (logger : slo.Logger W)
  (r : option (CmdRunner W)) (ns sa : string) (cases : list selected) (st : State W) :
  (In ctxDone cases ->
   exists (res : string * option error) (st' : State W),
     ServiceAccountToken c logger r ns sa cases st = (Some res, st'))
  /\ (forall (res : string * option error) (st' : State W),
        ServiceAccountToken c logger r ns sa cases st = (Some res, st') ->
        (fst res <> EmptyString /\ snd res = None)
        \/ (fst res = EmptyString /\ snd res <> None)).
Proof.
  rewrite ServiceAccountToken_eq. cbv zeta. split.
  - intros Hin. destruct (Context_Err c (world st)); [eauto|].
    destruct (snd (fst (tryOnce _ _ _ _ _ st))) as [err|]; [|eauto].
    now apply pollLoop_returns.
  - intros res st' Hr. destruct (Context_Err c (world st)) as [err|].
    + injection Hr as <- _. right. split; [reflexivity | discriminate].
    + destruct (tryOnce_shape c (slo.NewLogger logger) (orDefault r) ns sa st)
        as [[Hne Hok] | [_ Herr]].
      * rewrite Hok in Hr. injection Hr as <- _. left. split; [assumption | reflexivity].
      * destruct (snd (fst (tryOnce _ _ _ _ _ st))) as [err|]; [|now elim Herr].
        now apply pollLoop_shape in Hr.
Qed.

End PollerClaims.

(** ** Nil collaborators *)

Section Collaborators.
Context {U : Unicode} {W : Type} {H : Host W}.

(** [ApplyClusterRoleBinding] in one equation, for a logger and a runner
    that are there. *)
Lemma ApplyClusterRoleBinding_eq (c : Context) (sink : slo.Sink W) (r : CmdRunner W)
  (name clusterRole ns sa : string) (st : State W) :
  ApplyClusterRoleBinding c (Some sink) (Some r) name clusterRole ns sa st
  = let w1 := slo.Logf sink
                ("apply ClusterRoleBinding name=" ++ strconv.Quote name
                 ++ " role=" ++ strconv.Quote clusterRole
                 ++ " sa=" ++ ns ++ "/" ++ sa) (world st) in
    let cmd := applyCmd w1 name clusterRole ns sa in
    let res := Run r c (Some sink) cmd w1 in
    let s := strings.TrimSpace (fst (fst res)) in
    (match snd (fst res) with
     | Some e => Some (wrapError ("kubectl apply clusterrolebinding failed: " ++ Error e) e)
     | None => None
     end,
     mkState (if negb (is_empty s)
              then slo.Logf sink (strings.TrimRight s nl) (snd res)
              else snd res)
       (runs st ++ [cmd])%list).
Proof.
  cbv zeta.
  unfold ApplyClusterRoleBinding, bind, gets, callRun, onWorld, logf, modify, ret.
  cbn [fst snd world runs orDefault slo.NewLogger].
  destruct (Run r c (Some sink) _ _) as [[stdout err] w2]. cbn [fst snd].
  destruct (negb (is_empty (strings.TrimSpace stdout))), err; reflexivity.
Qed.

(** C10.  Both entry points take nil for the runner and for the logger.
    With nil for both, [ApplyClusterRoleBinding] runs its command as a
    process of the host, logs nothing, and returns nil exactly when the
    process succeeds; [ServiceAccountToken], on a context that is not
    done, makes its first attempt as a process of the host, logs nothing,
    and returns the token the process printed, or goes on waiting when
    the process failed.  In general a call with nil for either is the
    call with [DefaultRunner.Run], respectively the logger that does
    nothing, given explicitly; and a runner and a logger that are given
    are the ones the call goes through. *)
Theorem nil_collaborators (c : Context) (ns sa name clusterRole : string)
  (cases : list selected) (st : State W) :
  let apply := applyCmd (world st) name clusterRole ns sa in
  let applied := Cmd_Run (rebuild (world st) c apply) (world st) in
  let request := tokenCmd (world st) ns sa in
  let requested := Cmd_Run (rebuild (world st) c request) (world st) in
  (snd (ApplyClusterRoleBinding c None None name clusterRole ns sa st)
   = mkState (snd applied) (runs st ++ [apply])%list
   /\ (fst (ApplyClusterRoleBinding c None None name clusterRole ns sa st) = None
       <-> Failure (fst applied) = None))
  /\ (Context_Err c (world st) = None ->
      snd (ServiceAccountToken c None None ns sa [] st)
      = mkState (snd requested) (runs st ++ [request])%list
      /\ (Failure (fst requested) <> None ->
          fst (ServiceAccountToken c None None ns sa [] st) = None)
      /\ (forall tok : string,
            Failure (fst requested) = None ->
            Unmarshal (Stdout (fst requested)) = (mkTokenRequest (mkStatus tok), None) ->
            tok <> EmptyString ->
            fst (ServiceAccountToken c None None ns sa [] st) = Some (tok, None)))
  /\ (forall (logger : slo.Logger W) (r : option (CmdRunner W)),
        let sink := match logger with Some given => given | None => slo.nop end in
        let runner := match r with
                      | Some given => given
                      | None => mkRunner DefaultRunner_Run
                      end in
        ServiceAccountToken c logger r ns sa cases st
        = ServiceAccountToken c (Some sink) (Some runner) ns sa cases st
        /\ ApplyClusterRoleBinding c logger r name clusterRole ns sa st
           = ApplyClusterRoleBinding c (Some sink) (Some runner) name clusterRole ns sa st)
  /\ (forall (sink : slo.Sink W) (r : CmdRunner W),
        ServiceAccountToken c (Some sink) (Some r) ns sa cases st
        = match Context_Err c (world st) with
          | Some err => (Some (EmptyString, Some err), st)
          | None =>
            let first := tryOnce c sink r ns sa st in
            match snd (fst first) with
            | None => (Some (fst (fst first), None), snd first)
            | Some err =>
              pollLoop c sink r ns sa (Some err) cases (snd (notReady sink err (snd first)))
            end
          end
        /\ ApplyClusterRoleBinding c (Some sink) (Some r) name clusterRole ns sa st
           = let w1 := slo.Logf sink
                         ("apply ClusterRoleBinding name=" ++ strconv.Quote name
                          ++ " role=" ++ strconv.Quote clusterRole
                          ++ " sa=" ++ ns ++ "/" ++ sa) (world st) in
             let cmd := applyCmd w1 name clusterRole ns sa in
             let res := Run r c (Some sink) cmd w1 in
             let s := strings.TrimSpace (fst (fst res)) in
             (match snd (fst res) with
              | Some e =>
                Some (wrapError ("kubectl apply clusterrolebinding failed: " ++ Error e) e)
              | None => None
              end,
              mkState (if negb (is_empty s)
                       then slo.Logf sink (strings.TrimRight s nl) (snd res)
                       else snd res)
                (runs st ++ [cmd])%list)).
Proof.
  cbv zeta. split; [|split; [|split]].
  - unfold ApplyClusterRoleBinding, bind, gets, callRun, onWorld, logf, modify, ret.
    cbn [fst snd world runs orDefault slo.NewLogger Run DefaultRunner slo.Logf slo.nop].
    set (apply := applyCmd (world st) name clusterRole ns sa).
    pose proof (DefaultRunner_Run_executes (world st) c (Some slo.nop) apply)
      as (Hw & _ & Hok).
    cbv zeta in Hw, Hok. cbn [slo.NewLogger slo.Logf slo.nop] in Hw, Hok.
    destruct (DefaultRunner_Run c (Some slo.nop) apply (world st)) as [[stdout err] w2].
    cbn [fst snd] in *. subst w2. split.
    + destruct (negb (is_empty (strings.TrimSpace stdout))), err; reflexivity.
    + rewrite <- Hok.
      destruct (negb (is_empty (strings.TrimSpace stdout))), err; cbn [fst];
        split; intros E; (reflexivity || discriminate E).
  - intros Hc. rewrite ServiceAccountToken_eq, Hc. cbv zeta.
    cbn [orDefault slo.NewLogger].
    rewrite tryOnce_answer, tryOnce_state. cbv zeta. cbn [Run DefaultRunner].
    set (request := tokenCmd (world st) ns sa).
    pose proof (DefaultRunner_Run_executes (world st) c (Some slo.nop) request)
      as (Hw & Hout & Hok).
    cbv zeta in Hw, Hout, Hok. cbn [slo.NewLogger slo.Logf slo.nop] in Hw, Hout, Hok.
    destruct (DefaultRunner_Run c (Some slo.nop) request (world st)) as [[stdout err] w2].
    cbn [fst snd] in *. subst w2 stdout.
    set (requested := Cmd_Run (rebuild (world st) c request) (world st)) in *.
    destruct err as [e0|]; cbn [fst snd].
    + split; [reflexivity|]. split; [reflexivity|].
      intros tok Hf. apply Hok in Hf. discriminate Hf.
    + split; [|split].
      * destruct (snd (Unmarshal (Stdout (fst requested)))); cbn [fst snd];
          [reflexivity|].
        destruct (is_empty (Token (Status (fst (Unmarshal (Stdout (fst requested)))))));
          reflexivity.
      * intros Hf. elim Hf. now apply Hok.
      * intros tok _ -> Hne. cbn [fst snd Status Token].
        destruct tok; [now elim Hne | reflexivity].
  - intros logger r. split; destruct logger, r; reflexivity.
  - intros sink r. split; [apply ServiceAccountToken_eq | apply ApplyClusterRoleBinding_eq].
Qed.

End Collaborators.

(* ================================================================== *)
(** * Properties of the helpers of the end-to-end tests *)

(** ** Reversal, prefixes and suffixes *)

Lemma rev_string_append (s acc : string) : rev_string acc s = reverse s ++ acc.
Proof.
  unfold reverse. revert acc. induction s as [|ch s IH]; intros acc; [reflexivity|].
  cbn [rev_string]. rewrite (IH (String ch acc)), (IH (String ch EmptyString)).
  rewrite append_assoc. reflexivity.
Qed.

Lemma append_empty (s : string) : s ++ EmptyString = s.
Proof. induction s as [|ch s IH]; simpl; [reflexivity | now rewrite IH]. Qed.

Lemma reverse_cons (ch : ascii) (s : string) :
  reverse (String ch s) = reverse s ++ String ch EmptyString.
Proof. unfold reverse at 1. cbn [rev_string]. apply rev_string_append. Qed.

Lemma reverse_append (a b : string) : reverse (a ++ b) = reverse b ++ reverse a.
Proof.
  induction a as [|ch a IH]; cbn [append].
  - now rewrite append_empty.
  - rewrite !reverse_cons, IH, append_assoc. reflexivity.
Qed.

Lemma reverse_reverse (s : string) : reverse (reverse s) = s.
Proof.
  induction s as [|ch s IH]; [reflexivity|].
  rewrite reverse_cons, reverse_append, IH. reflexivity.
Qed.

Lemma take_drop (n : nat) (s : string) : take n s ++ drop n s = s.
Proof.
  revert s. induction n as [|n IH]; intros [|ch s]; cbn; try reflexivity.
  now rewrite IH.
Qed.

Lemma drop_drop (n m : nat) (s : string) : drop n (drop m s) = drop (m + n) s.
Proof.
  revert s. induction m as [|m IH]; intros s; [reflexivity|].
  destruct s as [|ch s]; cbn [drop Nat.add]; [now destruct n | apply IH].
Qed.

Lemma drop_append (a b : string) : drop (String.length a) (a ++ b) = b.
Proof. induction a as [|ch a IH]; [reflexivity | exact IH]. Qed.

Lemma take_append (a b : string) : take (String.length a) (a ++ b) = a.
Proof. induction a as [|ch a IH]; cbn; [now destruct b | now rewrite IH]. Qed.

Lemma length_append (a b : string) :
  String.length (a ++ b) = (String.length a + String.length b)%nat.
Proof. induction a as [|ch a IH]; simpl; [reflexivity | now rewrite IH]. Qed.

(** ** Contains as a decomposition *)

Lemma prefix_elim (t s : string) : prefix t s = true -> exists b, s = t ++ b.
Proof.
  revert s. induction t as [|ch t IH]; intros s Hp.
  - exists s. reflexivity.
  - destruct s as [|c s]; [discriminate|]. simpl in Hp.
    destruct (ascii_dec ch c) as [->|]; [|discriminate].
    destruct (IH s Hp) as [b ->]. exists b. reflexivity.
Qed.

Lemma Contains_elim (s t : string) :
  strings.Contains s t = true -> exists a b, s = a ++ t ++ b.
Proof.
  induction s as [|ch s IH]; rewrite Contains_unfold; intros Hc;
    apply orb_true_iff in Hc; destruct Hc as [Hp | Hc].
  - apply prefix_elim in Hp. destruct Hp as [b ->]. exists EmptyString, b. reflexivity.
  - discriminate.
  - apply prefix_elim in Hp. destruct Hp as [b ->]. exists EmptyString, b. reflexivity.
  - destruct (IH Hc) as (a & b & ->). exists (String ch a), b. reflexivity.
Qed.

Lemma Contains_iff (s t : string) :
  strings.Contains s t = true <-> exists a b, s = a ++ t ++ b.
Proof.
  split; [apply Contains_elim|]. intros (a & b & ->). apply Contains_append.
Qed.

(** A part of a part is a part. *)
Lemma Contains_trans (s u t : string) :
  strings.Contains s u = true -> strings.Contains u t = true ->
  strings.Contains s t = true.
Proof.
  rewrite !Contains_iff. intros (a & b & ->) (a' & b' & ->).
  exists (a ++ a'), (b' ++ b). now rewrite !append_assoc.
Qed.

Lemma Contains_false_parts (a u b t : string) :
  strings.Contains (a ++ u ++ b) t = false -> strings.Contains u t = false.
Proof.
  intros Hf. destruct (strings.Contains u t) eqn:E; [|reflexivity].
  rewrite <- Hf. symmetry.
  apply (Contains_trans _ u); [apply Contains_append | assumption].
Qed.

(** ** White space at the two ends *)

Lemma trimLeftSpace_skip (s : string) :
  forall k : nat, strings.trimLeftSpace k s = strings.trimLeftSpace 0 (drop k s).
Proof.
  induction s as [|ch s IH]; intros [|k]; try reflexivity.
  cbn [strings.trimLeftSpace drop]. apply IH.
Qed.

Lemma trimRightSpaceRev_skip (r : string) :
  forall k : nat, strings.trimRightSpaceRev k r = strings.trimRightSpaceRev 0 (drop k r).
Proof.
  induction r as [|ch r IH]; intros [|k]; try reflexivity.
  cbn [strings.trimRightSpaceRev drop]. apply IH.
Qed.

(** A rune read from a string is read alike from any longer one, unless
    it is the error rune. *)
Lemma Decode_append (t q : string) :
  utf8.DecodeRuneInString (t ++ q) = utf8.DecodeRuneInString t
  \/ fst (utf8.DecodeRuneInString t) = utf8.RuneError.
Proof.
  destruct t as [|c0 [|c1 [|c2 [|c3 t]]]]; cbn [append];
    unfold utf8.DecodeRuneInString;
    repeat match goal with
           | |- context [if ?b then _ else _] => destruct b
           end;
    cbn [fst]; auto.
Qed.

Lemma IsSpace_RuneError : unicode.IsSpace utf8.RuneError = false.
Proof. reflexivity. Qed.

Lemma startsSpace_prefix (t q : string) :
  startsSpace (t ++ q) = false -> startsSpace t = false.
Proof.
  unfold startsSpace. destruct (Decode_append t q) as [-> | ->]; [trivial|].
  intros _. apply IsSpace_RuneError.
Qed.

Lemma trimLeftSpace_fixed (s : string) :
  startsSpace s = false -> strings.trimLeftSpace 0 s = s.
Proof.
  unfold startsSpace. destruct s as [|ch s]; [reflexivity|].
  cbn [strings.trimLeftSpace].
  destruct (utf8.DecodeRuneInString (String ch s)) as [r w]. cbn [fst].
  intros ->. reflexivity.
Qed.

(** What [trimLeftSpace] leaves is a tail of the string that does not start
    with white space. *)
Lemma trimLeftSpace_tail (n : nat) :
  forall s : string,
    (String.length s <= n)%nat ->
    startsSpace (strings.trimLeftSpace 0 s) = false
    /\ exists k : nat, strings.trimLeftSpace 0 s = drop k s.
Proof.
  induction n as [|n IH]; intros [|ch s] Hl; try (split; [reflexivity | now exists 0%nat]).
  - simpl in Hl. lia.
  - cbn [strings.trimLeftSpace].
    destruct (utf8.DecodeRuneInString (String ch s)) as [r w] eqn:Ed.
    destruct (unicode.IsSpace r) eqn:Es.
    + rewrite trimLeftSpace_skip.
      pose proof (drop_length (Nat.pred w) s) as Hd.
      destruct (IH (drop (Nat.pred w) s)) as [Hs [k Hk]]; [simpl in Hl; lia|].
      split; [assumption|]. exists (S (Nat.pred w + k))%nat.
      rewrite Hk. cbn [drop]. apply drop_drop.
    + split; [|now exists 0%nat]. unfold startsSpace. rewrite Ed. exact Es.
Qed.

Lemma lastSpaceWidth_empty : strings.lastSpaceWidth EmptyString = 0%nat.
Proof. reflexivity. Qed.

Lemma trimRightSpaceRev_fixed (r : string) :
  strings.lastSpaceWidth r = 0%nat -> strings.trimRightSpaceRev 0 r = r.
Proof.
  destruct r as [|ch r]; [reflexivity|]. intros Hw.
  cbn [strings.trimRightSpaceRev]. rewrite Hw. reflexivity.
Qed.

Lemma trimRightSpaceRev_tail (n : nat) :
  forall r : string,
    (String.length r <= n)%nat ->
    strings.lastSpaceWidth (strings.trimRightSpaceRev 0 r) = 0%nat
    /\ exists k : nat, strings.trimRightSpaceRev 0 r = drop k r.
Proof.
  induction n as [|n IH]; intros [|ch r] Hl; try (split; [reflexivity | now exists 0%nat]).
  - simpl in Hl. lia.
  - cbn [strings.trimRightSpaceRev].
    destruct (strings.lastSpaceWidth (String ch r)) as [|w] eqn:Ew.
    + split; [assumption | now exists 0%nat].
    + rewrite trimRightSpaceRev_skip.
      pose proof (drop_length w r) as Hd.
      destruct (IH (drop w r)) as [Hs [k Hk]]; [simpl in Hl; lia|].
      split; [assumption|]. exists (S (w + k))%nat.
      rewrite Hk. cbn [drop]. apply drop_drop.
Qed.

(** [TrimSpace s] with what it cut off at the two ends. *)
Lemma TrimSpace_parts (s : string) :
  exists a b : string,
    s = a ++ strings.TrimSpace s ++ b
    /\ startsSpace (strings.TrimSpace s ++ b) = false
    /\ strings.lastSpaceWidth (reverse (strings.TrimSpace s)) = 0%nat.
Proof.
  unfold strings.TrimSpace.
  destruct (trimLeftSpace_tail _ s (le_n _)) as [Hs [k Hk]].
  set (u := strings.trimLeftSpace 0 s) in *.
  destruct (trimRightSpaceRev_tail _ (reverse u) (le_n _)) as [Hw [j Hj]].
  set (v := strings.trimRightSpaceRev 0 (reverse u)) in *.
  exists (take k s), (reverse (take j (reverse u))).
  assert (Hu : u = reverse v ++ reverse (take j (reverse u))).
  { rewrite <- reverse_append, Hj, take_drop. symmetry. apply reverse_reverse. }
  split; [|split].
  - rewrite <- Hu, Hk. symmetry. apply take_drop.
  - rewrite <- Hu. exact Hs.
  - rewrite reverse_reverse. exact Hw.
Qed.

(** [strings.TrimSpace] leaves alone what it has trimmed. *)
Lemma TrimSpace_idempotent (s : string) :
  strings.TrimSpace (strings.TrimSpace s) = strings.TrimSpace s.
Proof.
  destruct (TrimSpace_parts s) as (a & b & _ & Hs & Hw).
  apply startsSpace_prefix in Hs.
  unfold strings.TrimSpace at 1.
  rewrite (trimLeftSpace_fixed _ Hs), (trimRightSpaceRev_fixed _ Hw).
  apply reverse_reverse.
Qed.

Lemma TrimSpace_Contains (s : string) :
  strings.Contains s (strings.TrimSpace s) = true.
Proof.
  destruct (TrimSpace_parts s) as (a & b & Hs & _).
  rewrite Hs at 1. apply Contains_append.
Qed.

(** ** Lines *)

Lemma nl_eq : utils.nl = String newline EmptyString.
Proof. reflexivity. Qed.

Lemma prefix_nl (ch : ascii) (s : string) :
  prefix utils.nl (String ch s) = if ascii_dec newline ch then true else false.
Proof.
  rewrite nl_eq. cbn [prefix]. destruct (ascii_dec newline ch); [destruct s|]; reflexivity.
Qed.

Lemma Split_nl_cons (ch : ascii) (s : string) :
  strings.Split (String ch s) utils.nl
  = if ascii_dec newline ch then EmptyString :: strings.Split s utils.nl
    else strings.consHead ch (strings.Split s utils.nl).
Proof.
  unfold strings.Split. cbn [strings.splitFrom]. rewrite prefix_nl.
  destruct (ascii_dec newline ch); reflexivity.
Qed.

Lemma Split_nl_empty : strings.Split EmptyString utils.nl = [EmptyString].
Proof. reflexivity. Qed.

Lemma Split_not_nil (s : string) : strings.Split s utils.nl <> [].
Proof.
  destruct s as [|ch s]; [discriminate|]. rewrite Split_nl_cons.
  destruct (ascii_dec newline ch); [discriminate|].
  destruct (strings.Split s utils.nl); discriminate.
Qed.

(** No newline in [s]. *)
Lemma oneLine_cons (ch : ascii) (s : string) :
  oneLine (String ch s) = (if ascii_dec newline ch then false else true) && oneLine s.
Proof.
  unfold oneLine. rewrite Contains_unfold, prefix_nl.
  destruct (ascii_dec newline ch); reflexivity.
Qed.

Lemma oneLine_append (a b : string) : oneLine (a ++ b) = oneLine a && oneLine b.
Proof.
  induction a as [|ch a IH]; [reflexivity|].
  cbn [append]. rewrite !oneLine_cons, IH. now rewrite andb_assoc.
Qed.

(** The text up to a newline is the first piece. *)
Lemma Split_line (a b : string) :
  oneLine a = true ->
  strings.Split (a ++ utils.nl ++ b) utils.nl = a :: strings.Split b utils.nl.
Proof.
  induction a as [|ch a IH]; intros Ha.
  - change (EmptyString ++ utils.nl ++ b) with (String newline b).
    rewrite Split_nl_cons. destruct (ascii_dec newline newline) as [_|n]; [reflexivity | now elim n].
  - rewrite oneLine_cons in Ha. cbn [append]. rewrite Split_nl_cons.
    destruct (ascii_dec newline ch); [discriminate|].
    rewrite IH by exact Ha. reflexivity.
Qed.

Lemma Split_oneLine (a : string) :
  oneLine a = true -> strings.Split a utils.nl = [a].
Proof.
  induction a as [|ch a IH]; intros Ha; [reflexivity|].
  rewrite oneLine_cons in Ha. rewrite Split_nl_cons.
  destruct (ascii_dec newline ch); [discriminate|].
  rewrite IH by exact Ha. reflexivity.
Qed.

(** Splitting what was joined gives the lines back. *)
Lemma Split_Join (l : list string) :
  l <> [] -> forallb oneLine l = true ->
  strings.Split (strings.Join l utils.nl) utils.nl = l.
Proof.
  induction l as [|e l IH]; intros Hne Hl; [now elim Hne|].
  cbn [forallb] in Hl. apply andb_true_iff in Hl. destruct Hl as [He Hl].
  destruct l as [|e2 l].
  - cbn [strings.Join]. now apply Split_oneLine.
  - change (strings.Join (e :: e2 :: l) utils.nl)
      with (e ++ utils.nl ++ strings.Join (e2 :: l) utils.nl).
    rewrite Split_line by exact He. rewrite IH; [reflexivity | discriminate | exact Hl].
Qed.

(** The first piece is one line at the head of the text. *)
Lemma Split_first (s : string) :
  exists (p : string) (ps : list string) (b : string),
    strings.Split s utils.nl = p :: ps /\ s = p ++ b /\ oneLine p = true.
Proof.
  induction s as [|ch s (p & ps & b & Hsp & Hs & Hp)].
  - exists EmptyString, [], EmptyString. repeat split.
  - rewrite Split_nl_cons. destruct (ascii_dec newline ch) as [E|E].
    + exists EmptyString, (strings.Split s utils.nl), (String ch s). repeat split.
    + exists (String ch p), ps, b. rewrite Hsp. cbn [strings.consHead]. repeat split.
      * cbn [append]. now rewrite <- Hs.
      * rewrite oneLine_cons, Hp. destruct (ascii_dec newline ch); [contradiction | reflexivity].
Qed.

(** Every piece is one line and a part of the text. *)
Lemma Split_pieces (s : string) :
  Forall (fun p => oneLine p = true /\ strings.Contains s p = true)
    (strings.Split s utils.nl).
Proof.
  induction s as [|ch s IH].
  - repeat constructor.
  - assert (Hs : forall p, strings.Contains s p = true ->
                           strings.Contains (String ch s) p = true).
    { intros p Hp. rewrite Contains_unfold, Hp. apply orb_true_r. }
    destruct (Split_first (String ch s)) as (p & ps & b & Hsp & Htext & Hp).
    rewrite Hsp. constructor.
    + split; [exact Hp|]. rewrite Htext. apply Contains_prefix.
    + rewrite Split_nl_cons in Hsp. destruct (ascii_dec newline ch) as [E|E].
      * injection Hsp as _ <-.
        eapply Forall_impl; [|exact IH]. intros q [H1 H2]. split; [exact H1 | now apply Hs].
      * destruct (strings.Split s utils.nl) as [|p0 ps0] eqn:Es;
          [now elim (Split_not_nil s)|].
        cbn [strings.consHead] in Hsp. injection Hsp as _ <-.
        inversion IH as [|? ? _ Hps]; subst.
        eapply Forall_impl; [|exact Hps]. intros q [H1 H2]. split; [exact H1 | now apply Hs].
Qed.

(** ** GetNonEmptyLines *)

Lemma nonEmpty_In (line : string) (lines : list string) :
  In line (utils.nonEmpty lines)
  <-> line <> EmptyString /\ exists p, In p lines /\ line = strings.TrimSpace p.
Proof.
  induction lines as [|p lines IH]; cbn [utils.nonEmpty].
  - split; [intros [] | intros (_ & q & [] & _)].
  - destruct (is_empty (strings.TrimSpace p)) eqn:E.
    + rewrite IH. split.
      * intros (Hne & q & Hq & ->). split; [exact Hne|]. exists q. split; [now right | reflexivity].
      * intros (Hne & q & [<- | Hq] & ->).
        -- destruct (strings.TrimSpace p); [now elim Hne | discriminate].
        -- split; [exact Hne|]. now exists q.
    + cbn [In]. rewrite IH. split.
      * intros [<- | (Hne & q & Hq & ->)].
        -- split; [now apply is_empty_false|]. exists p. split; [now left | reflexivity].
        -- split; [exact Hne|]. exists q. split; [now right | reflexivity].
      * intros (Hne & q & [<- | Hq] & ->); [now left|].
        right. split; [exact Hne|]. now exists q.
Qed.

Lemma oneLine_part (s p : string) :
  strings.Contains s p = true -> oneLine s = true -> oneLine p = true.
Proof.
  unfold oneLine. rewrite !negb_true_iff. intros Hp Hs.
  apply Contains_iff in Hp. destruct Hp as (a & b & ->).
  now apply Contains_false_parts in Hs.
Qed.

(** What [GetNonEmptyLines] returns: lines that are not empty, hold no
    newline, have no white space at either end, and are parts of the
    output. *)
Lemma lines_of_output (output : string) :
  Forall (fun line =>
            line <> EmptyString
            /\ strings.Contains line utils.nl = false
            /\ strings.TrimSpace line = line
            /\ strings.Contains output line = true)
    (utils.GetNonEmptyLines output).
Proof.
  apply Forall_forall. intros line Hin.
  apply nonEmpty_In in Hin. destruct Hin as (Hne & p & Hp & ->).
  pose proof (Split_pieces output) as Hall.
  rewrite Forall_forall in Hall. destruct (Hall p Hp) as [Hone Hpart].
  split; [exact Hne|]. split; [|split].
  - apply negb_true_iff. apply (oneLine_part p); [apply TrimSpace_Contains | exact Hone].
  - apply TrimSpace_idempotent.
  - apply (Contains_trans _ p); [exact Hpart | apply TrimSpace_Contains].
Qed.

Lemma nonEmpty_fixed (l : list string) :
  Forall (fun line => line <> EmptyString /\ strings.TrimSpace line = line) l ->
  utils.nonEmpty l = l.
Proof.
  induction 1 as [|line l [Hne Ht] _ IH]; [reflexivity|].
  cbn [utils.nonEmpty]. rewrite Ht, IH.
  destruct line; [now elim Hne | reflexivity].
Qed.

(** X1.  [GetNonEmptyLines] returns the pieces of the output between its
    newlines, each trimmed of white space, but for those that are empty
    once trimmed: a line is returned exactly when it is not empty and is
    such a trimmed piece.  So every line returned is
    not empty, holds no newline, has no white space left at either end,
    and is a part of the output. *)
Theorem GetNonEmptyLines_lines (output : string) :
  (forall line : string,
      In line (utils.GetNonEmptyLines output)
      <-> line <> EmptyString
          /\ exists p : string,
               In p (strings.Split output utils.nl) /\ line = strings.TrimSpace p)
  /\ Forall (fun line =>
               line <> EmptyString
               /\ strings.Contains line utils.nl = false
               /\ strings.TrimSpace line = line
               /\ strings.Contains output line = true)
       (utils.GetNonEmptyLines output).
Proof.
  split; [intros line; apply nonEmpty_In | apply lines_of_output].
Qed.

(** X2.  A round trip: lines that are not empty, hold no newline and have
    no white space at either end come back as they are, in their order,
    when they are joined by newlines and given to [GetNonEmptyLines]. *)
Theorem GetNonEmptyLines_Join (l : list string) :
  Forall (fun line =>
            line <> EmptyString
            /\ strings.Contains line utils.nl = false
            /\ strings.TrimSpace line = line) l ->
  utils.GetNonEmptyLines (strings.Join l utils.nl) = l.
Proof.
  intros Hl. unfold utils.GetNonEmptyLines.
  destruct l as [|e l]; [reflexivity|].
  rewrite Split_Join.
  - apply nonEmpty_fixed. eapply Forall_impl; [|exact Hl]. intros x (H1 & _ & H3). now split.
  - discriminate.
  - apply forallb_forall. intros x Hx. rewrite Forall_forall in Hl.
    destruct (Hl x Hx) as (_ & H2 & _). unfold oneLine. now rewrite H2.
Qed.

(** X3.  [GetNonEmptyLines] is idempotent: its lines, joined by newlines
    and read again, are the same lines. *)
Theorem GetNonEmptyLines_again (output : string) :
  utils.GetNonEmptyLines (strings.Join (utils.GetNonEmptyLines output) utils.nl)
  = utils.GetNonEmptyLines output.
Proof.
  pose proof (lines_of_output output) as Hall. rewrite Forall_forall in Hall.
  destruct (utils.GetNonEmptyLines output) as [|e l] eqn:E; [reflexivity|].
  unfold utils.GetNonEmptyLines at 1. rewrite Split_Join.
  - apply nonEmpty_fixed. apply Forall_forall. intros x Hx.
    destruct (Hall x Hx) as (H1 & _ & H3 & _). now split.
  - discriminate.
  - apply forallb_forall. intros x Hx.
    destruct (Hall x Hx) as (_ & H2 & _). unfold oneLine. now rewrite H2.
Qed.

(** ** Words that survive the trimming *)

Lemma blank_append (a b : string) : blank (a ++ b) = blank a && blank b.
Proof.
  induction a as [|ch a IH]; [reflexivity|]. cbn [append blank].
  now rewrite IH, andb_assoc.
Qed.

Lemma solid_append (a b : string) : solid (a ++ b) = solid a && solid b.
Proof.
  induction a as [|ch a IH]; [reflexivity|]. cbn [append solid].
  now rewrite IH, andb_assoc.
Qed.

Lemma solid_reverse (s : string) : solid (reverse s) = solid s.
Proof.
  induction s as [|ch s IH]; [reflexivity|].
  rewrite reverse_cons, solid_append, IH. cbn [solid]. rewrite andb_true_r. apply andb_comm.
Qed.

Lemma take_add (n m : nat) (s : string) :
  take (n + m) s = take n s ++ take m (drop n s).
Proof.
  revert s. induction n as [|n IH]; intros s; [reflexivity|].
  destruct s as [|ch s]; cbn [Nat.add take drop append]; [now destruct m|].
  now rewrite IH.
Qed.

(** An ASCII white-space byte is not solid. *)
Lemma space_byte_blank (ch : ascii) :
  (byte ch <? 0x80) = true -> unicode.IsSpace (byte ch) = true ->
  solidByte (byte ch) = false.
Proof.
  destruct ch as [[] [] [] [] [] [] [] []]; vm_compute; intros; congruence.
Qed.

Lemma high_byte_blank (b : N) : (b <? 0x80) = false -> solidByte b = false.
Proof.
  intros Hb. apply N.ltb_ge in Hb. unfold solidByte, between.
  apply andb_false_iff. right. apply N.leb_gt. lia.
Qed.

Lemma cont_blank (b : N) : utf8.cont b = true -> solidByte b = false.
Proof.
  unfold utf8.cont, between. intros Hc. apply andb_true_iff in Hc.
  destruct Hc as [Hc _]. apply N.leb_le in Hc.
  apply high_byte_blank. apply N.ltb_ge. lia.
Qed.

(** The bytes of a white-space rune at the head of a string are not
    solid. *)
Lemma space_rune_blank (ch : ascii) (s : string) :
  unicode.IsSpace (fst (utf8.DecodeRuneInString (String ch s))) = true ->
  blank (String ch (take (Nat.pred (snd (utf8.DecodeRuneInString (String ch s)))) s))
  = true.
Proof.
  unfold utf8.DecodeRuneInString.
  destruct (byte ch <? 0x80) eqn:E0.
  - cbn [fst snd Nat.pred take blank]. intros Hs.
    now rewrite (space_byte_blank ch E0 Hs).
  - cbn [blank]. rewrite (high_byte_blank _ E0). cbn [negb andb]. intros _.
    destruct s as [|c1 [|c2 [|c3 s]]];
      repeat match goal with
             | |- context [if ?b then _ else _] => destruct b eqn:?
             end;
      cbn [fst snd Nat.pred take blank]; try reflexivity;
      unfold utf8.cont, between in *;
      repeat match goal with
             | E : _ && _ = true |- _ => apply andb_true_iff in E; destruct E
             end;
      repeat match goal with
             | E : (_ <=? _) = true |- _ => apply N.leb_le in E
             end;
      repeat match goal with
             | E : context [if ?b then _ else _] |- _ => destruct b
             end;
      repeat match goal with
             | |- context [solidByte ?b] =>
               rewrite (high_byte_blank b) by (apply N.ltb_ge; lia)
             end;
      reflexivity.
Qed.

(** What [trimLeftSpace] cuts off holds no solid byte. *)
Lemma trimLeftSpace_cut (n : nat) :
  forall s : string,
    (String.length s <= n)%nat ->
    exists k : nat,
      strings.trimLeftSpace 0 s = drop k s /\ blank (take k s) = true.
Proof.
  induction n as [|n IH]; intros [|ch s] Hl; try (now exists 0%nat).
  cbn [strings.trimLeftSpace].
  pose proof (space_rune_blank ch s) as Hb.
  destruct (utf8.DecodeRuneInString (String ch s)) as [r w] eqn:Ed.
  cbn [fst snd] in Hb.
  destruct (unicode.IsSpace r) eqn:Es; [|now exists 0%nat].
  rewrite trimLeftSpace_skip.
  pose proof (drop_length (Nat.pred w) s) as Hd.
  destruct (IH (drop (Nat.pred w) s)) as [k [Hk Hbk]]; [simpl in Hl; lia|].
  exists (S (Nat.pred w + k))%nat. split.
  - rewrite Hk. cbn [drop]. apply drop_drop.
  - cbn [take]. rewrite take_add.
    change (String ch (take (Nat.pred w) s ++ take k (drop (Nat.pred w) s)))
      with (String ch (take (Nat.pred w) s) ++ take k (drop (Nat.pred w) s)).
    rewrite blank_append, Hbk, (Hb eq_refl). reflexivity.
Qed.

(** The bytes of a white-space rune at the end of a string are not solid
    either. *)
Lemma lastSpaceWidth_blank (r : string) :
  blank (take (strings.lastSpaceWidth r) r) = true.
Proof.
  destruct r as [|c0 r1]; [reflexivity|]. unfold strings.lastSpaceWidth.
  destruct (byte c0 <? 0x80) eqn:E0.
  { destruct (unicode.IsSpace (byte c0)) eqn:Es; [|reflexivity].
    cbn [take blank]. now rewrite (space_byte_blank c0 E0 Es). }
  destruct (utf8.cont (byte c0)) eqn:C0; [|reflexivity]. cbn [negb].
  destruct r1 as [|c1 r2]; [reflexivity|].
  destruct (utf8.cont (byte c1)) eqn:C1; cbn [negb].
  - destruct r2 as [|c2 r3]; [reflexivity|].
    destruct (utf8.cont (byte c2)) eqn:C2; cbn [negb]; [reflexivity|].
    destruct (byte c2 <? 0x80) eqn:E2.
    + rewrite Decode_ascii by (now apply N.ltb_lt). reflexivity.
    + destruct (utf8.DecodeRuneInString _) as [x w].
      destruct (Nat.eqb w 3 && unicode.IsSpace x); [|reflexivity].
      cbn [take blank].
      now rewrite (cont_blank _ C0), (cont_blank _ C1), (high_byte_blank _ E2).
  - destruct (byte c1 <? 0x80) eqn:E1.
    + rewrite Decode_ascii by (now apply N.ltb_lt). reflexivity.
    + destruct (utf8.DecodeRuneInString _) as [x w].
      destruct (Nat.eqb w 2 && unicode.IsSpace x); [|reflexivity].
      cbn [take blank].
      now rewrite (cont_blank _ C0), (high_byte_blank _ E1).
Qed.

Lemma trimRightSpaceRev_cut (n : nat) :
  forall r : string,
    (String.length r <= n)%nat ->
    exists k : nat,
      strings.trimRightSpaceRev 0 r = drop k r /\ blank (take k r) = true.
Proof.
  induction n as [|n IH]; intros [|ch r] Hl; try (now exists 0%nat).
  cbn [strings.trimRightSpaceRev].
  pose proof (lastSpaceWidth_blank (String ch r)) as Hb.
  destruct (strings.lastSpaceWidth (String ch r)) as [|w]; [now exists 0%nat|].
  rewrite trimRightSpaceRev_skip.
  pose proof (drop_length w r) as Hd.
  destruct (IH (drop w r)) as [k [Hk Hbk]]; [simpl in Hl; lia|].
  exists (S (w + k))%nat. split.
  - rewrite Hk. cbn [drop]. apply drop_drop.
  - cbn [take] in Hb |- *. rewrite take_add.
    change (String ch (take w r ++ take k (drop w r)))
      with (String ch (take w r) ++ take k (drop w r)).
    rewrite blank_append, Hbk, Hb. reflexivity.
Qed.

(** A solid word in a text lies past any bytes at its head that are
    not solid. *)
Lemma Contains_past_blank (u v t : string) :
  blank u = true -> solid t = true -> t <> EmptyString ->
  strings.Contains (u ++ v) t = true -> strings.Contains v t = true.
Proof.
  intros Hu Ht Hne. induction u as [|ch u IH]; [trivial|].
  cbn [blank] in Hu. apply andb_true_iff in Hu. destruct Hu as [Hch Hu].
  cbn [append]. rewrite Contains_unfold. intros Hc.
  apply orb_true_iff in Hc. destruct Hc as [Hp | Hc]; [|now apply IH].
  destruct t as [|c t]; [now elim Hne|]. cbn [prefix] in Hp.
  destruct (ascii_dec c ch) as [->|]; [|discriminate].
  cbn [solid] in Ht. apply andb_true_iff in Ht. destruct Ht as [Hs _].
  rewrite Hs in Hch. discriminate.
Qed.

Lemma Contains_reverse (s t : string) :
  strings.Contains s t = true -> strings.Contains (reverse s) (reverse t) = true.
Proof.
  rewrite !Contains_iff. intros (a & b & ->).
  exists (reverse b), (reverse a). now rewrite !reverse_append, append_assoc.
Qed.

(** A solid word in a text is still there when the text is trimmed. *)
Lemma Contains_TrimSpace (s t : string) :
  solid t = true -> t <> EmptyString ->
  strings.Contains s t = true -> strings.Contains (strings.TrimSpace s) t = true.
Proof.
  intros Ht Hne Hc. unfold strings.TrimSpace.
  destruct (trimLeftSpace_cut _ s (le_n _)) as [k [Hk Hbk]].
  rewrite Hk.
  assert (Hc1 : strings.Contains (drop k s) t = true).
  { apply (Contains_past_blank (take k s)); try assumption. now rewrite take_drop. }
  set (u := drop k s) in *.
  destruct (trimRightSpaceRev_cut _ (reverse u) (le_n _)) as [j [Hj Hbj]].
  rewrite Hj.
  assert (Hc2 : strings.Contains (drop j (reverse u)) (reverse t) = true).
  { apply (Contains_past_blank (take j (reverse u))).
    - exact Hbj.
    - now rewrite solid_reverse.
    - intros E. apply Hne. rewrite <- (reverse_reverse t), E. reflexivity.
    - rewrite take_drop. now apply Contains_reverse. }
  apply Contains_reverse in Hc2. now rewrite reverse_reverse in Hc2.
Qed.

(** A word without a newline in a text lies in one of its lines. *)
Lemma prefix_first_piece (t s : string) :
  oneLine t = true -> prefix t s = true ->
  exists (p : string) (ps : list string),
    strings.Split s utils.nl = p :: ps /\ prefix t p = true.
Proof.
  revert s. induction t as [|c t IH]; intros s Ht Hp.
  - destruct (Split_first s) as (p & ps & _ & Hs & _). exists p, ps.
    split; [exact Hs | now destruct p].
  - destruct s as [|ch s]; [discriminate|]. cbn [prefix] in Hp.
    destruct (ascii_dec c ch) as [<-|]; [|discriminate].
    rewrite oneLine_cons in Ht. rewrite Split_nl_cons.
    destruct (ascii_dec newline c); [discriminate|].
    destruct (IH s Ht Hp) as (p & ps & -> & Hpp).
    exists (String c p), ps. split; [reflexivity|]. cbn [prefix].
    destruct (ascii_dec c c) as [_|E]; [exact Hpp | now elim E].
Qed.

Lemma Contains_in_piece (s t : string) :
  oneLine t = true -> strings.Contains s t = true ->
  exists p : string, In p (strings.Split s utils.nl) /\ strings.Contains p t = true.
Proof.
  intros Ht. induction s as [|ch s IH]; rewrite Contains_unfold; intros Hc;
    apply orb_true_iff in Hc; destruct Hc as [Hp | Hc]; try discriminate.
  - destruct (prefix_first_piece t _ Ht Hp) as (p & ps & Hs & Hpp).
    exists p. rewrite Hs. split; [now left|]. rewrite Contains_unfold, Hpp. reflexivity.
  - destruct (prefix_first_piece t _ Ht Hp) as (p & ps & Hs & Hpp).
    exists p. rewrite Hs. split; [now left|]. rewrite Contains_unfold, Hpp. reflexivity.
  - destruct (IH Hc) as (p & Hin & Hpc). rewrite Split_nl_cons.
    destruct (ascii_dec newline ch).
    + exists p. split; [now right | exact Hpc].
    + destruct (strings.Split s utils.nl) as [|p0 ps]; [destruct Hin|].
      cbn [strings.consHead]. destruct Hin as [<- | Hin].
      * exists (String ch p0). split; [now left|].
        rewrite Contains_unfold, Hpc. apply orb_true_r.
      * exists p. split; [now right | exact Hpc].
Qed.

Lemma solid_oneLine (t : string) : solid t = true -> oneLine t = true.
Proof.
  induction t as [|c t IH]; [reflexivity|]. cbn [solid]. intros Hs.
  apply andb_true_iff in Hs. destruct Hs as [Hc Ht].
  rewrite oneLine_cons, (IH Ht).
  destruct (ascii_dec newline c) as [<-|]; [discriminate Hc | reflexivity].
Qed.

(** A solid word is in one of the lines [GetNonEmptyLines] returns exactly
    when it is in the output. *)
Lemma GetNonEmptyLines_word (output t : string) :
  solid t = true -> t <> EmptyString ->
  existsb (fun line => strings.Contains line t) (utils.GetNonEmptyLines output)
  = strings.Contains output t.
Proof.
  intros Ht Hne. apply eq_true_iff_eq. rewrite existsb_exists. split.
  - intros (line & Hin & Hc).
    pose proof (lines_of_output output) as Hall.
    rewrite Forall_forall in Hall. destruct (Hall line Hin) as (_ & _ & _ & Hpart).
    now apply (Contains_trans _ line).
  - intros Hc.
    destruct (Contains_in_piece output t (solid_oneLine t Ht) Hc) as (p & Hin & Hpc).
    exists (strings.TrimSpace p). split; [|now apply Contains_TrimSpace].
    apply nonEmpty_In. split.
    + intros E. apply (Contains_TrimSpace p t Ht Hne) in Hpc. rewrite E in Hpc.
      destruct t; [now elim Hne | discriminate Hpc].
    + now exists p.
Qed.

(** ** GetProjectDir *)

(** The bytes of an instance still to pass are dropped. *)
Lemma replaceFrom_skip (old new : string) (k : nat) :
  forall s : string,
    strings.replaceFrom old new k s = strings.replaceFrom old new 0 (drop k s).
Proof.
  induction k as [|k IH]; intros [|c s]; try reflexivity.
  cbn [strings.replaceFrom drop]. apply IH.
Qed.

Lemma ReplaceAll_cons (c : ascii) (s old new : string) :
  old <> EmptyString ->
  strings.ReplaceAll (String c s) old new
  = if prefix old (String c s)
    then new ++ strings.ReplaceAll (drop (String.length old) (String c s)) old new
    else String c (strings.ReplaceAll s old new).
Proof.
  intros Hne. unfold strings.ReplaceAll. cbn [strings.replaceFrom].
  destruct (prefix old (String c s)) eqn:E; [|reflexivity].
  rewrite replaceFrom_skip. destruct old as [|o old]; [now elim Hne | reflexivity].
Qed.

(** Nothing to replace: the string comes back as it is. *)
Lemma ReplaceAll_absent (s old new : string) :
  old <> EmptyString ->
  strings.Contains s old = false -> strings.ReplaceAll s old new = s.
Proof.
  intros Hne. induction s as [|c s IH]; [reflexivity|].
  rewrite Contains_unfold. intros H. apply orb_false_iff in H. destruct H as [Hp Hc].
  rewrite ReplaceAll_cons, Hp, IH by assumption. reflexivity.
Qed.

(** Cutting instances out never makes the string longer, and makes it
    shorter when there is one. *)
Lemma ReplaceAll_length (n : nat) (old : string) :
  old <> EmptyString ->
  forall s : string,
    (String.length s <= n)%nat ->
    (String.length (strings.ReplaceAll s old EmptyString) <= String.length s)%nat
    /\ (strings.Contains s old = true ->
        (String.length (strings.ReplaceAll s old EmptyString) < String.length s)%nat).
Proof.
  intros Hne. induction n as [|n IH]; intros [|c s] Hl.
  - split; [reflexivity|]. destruct old; [now elim Hne | discriminate].
  - simpl in Hl. lia.
  - split; [reflexivity|]. destruct old; [now elim Hne | discriminate].
  - rewrite ReplaceAll_cons by exact Hne. rewrite Contains_unfold.
    destruct (prefix old (String c s)) eqn:E.
    + cbn [append orb].
      assert (Hs : (String.length (drop (String.length old) (String c s)) <= n)%nat
                   /\ (String.length (drop (String.length old) (String c s))
                       < String.length (String c s))%nat).
      { destruct old as [|o old]; [now elim Hne|]. cbn [String.length drop] in *.
        pose proof (drop_length (String.length old) s). lia. }
      destruct (IH _ (proj1 Hs)) as [H1 _]. lia.
    + cbn [String.length orb]. destruct (IH s) as [H1 H2]; [simpl in Hl; lia|].
      split; [lia|]. intros Hc. apply H2 in Hc. lia.
Qed.


(** An instance of [/test/e2e] cannot begin before and end inside another
    one: the name has a slash at its head only. *)
Lemma prefix_cons (a b : ascii) (t s : string) :
  prefix (String a t) (String b s) = true -> a = b /\ prefix t s = true.
Proof.
  cbn [prefix]. destruct (ascii_dec a b); [now split | discriminate].
Qed.

Lemma e2e_border (root rest : string) :
  strings.Contains root "/test/e2e" = false ->
  prefix "/test/e2e" (root ++ "/test/e2e" ++ rest) = true -> root = EmptyString.
Proof.
  intros Hc Hp.
  assert (Hr : prefix "/test/e2e" root = false).
  { destruct root; [reflexivity|]. rewrite Contains_unfold in Hc.
    now apply orb_false_iff in Hc. }
  clear Hc.
  destruct root as [|c root]; [reflexivity|]. exfalso. cbn [append] in Hp.
  apply prefix_cons in Hp. destruct Hp as [<- Hp].
  do 8 (destruct root as [|? root];
        [cbn [append] in Hp;
         repeat (apply prefix_cons in Hp; destruct Hp as [? Hp]; try discriminate)
        | cbn [append] in Hp; apply prefix_cons in Hp; destruct Hp as [<- Hp]]).
  destruct root; discriminate Hr.
Qed.

Lemma ReplaceAll_e2e (root rest : string) :
  strings.Contains root "/test/e2e" = false ->
  strings.Contains rest "/test/e2e" = false ->
  strings.ReplaceAll (root ++ "/test/e2e" ++ rest) "/test/e2e" EmptyString = root ++ rest.
Proof.
  intros Hroot Hrest. induction root as [|c root IH].
  - change (EmptyString ++ "/test/e2e" ++ rest) with (String "/" ("test/e2e" ++ rest)).
    rewrite ReplaceAll_cons by discriminate.
    assert (E : prefix "/test/e2e" (String "/" ("test/e2e" ++ rest)) = true)
      by (destruct rest; reflexivity).
    rewrite E.
    change (drop (String.length "/test/e2e") (String "/" ("test/e2e" ++ rest))) with rest.
    now apply ReplaceAll_absent.
  - change (String c root ++ "/test/e2e" ++ rest)
      with (String c (root ++ "/test/e2e" ++ rest)).
    rewrite ReplaceAll_cons by discriminate.
    destruct (prefix "/test/e2e" (String c (root ++ "/test/e2e" ++ rest))) eqn:E.
    + apply (e2e_border (String c root)) in E; [discriminate | exact Hroot].
    + rewrite IH; [reflexivity|]. rewrite Contains_unfold in Hroot.
      now apply orb_false_iff in Hroot.
Qed.

Section Dir.
Context {W : Type} {D : Workspace W}.

(** X4.  [GetProjectDir] fails exactly when [os.Getwd] does, and then
    returns the directory [os.Getwd] gave with an error that wraps its
    error.  Otherwise the directory returned is the working directory
    with instances of [/test/e2e] cut out: it is never longer, and it is
    the working directory itself exactly when that has no [/test/e2e] in
    it. *)
Theorem GetProjectDir_result (w : W) :
  let wd := fst (os_Getwd w) in
  let dir := fst (utils.GetProjectDir w) in
  match snd (os_Getwd w) with
  | Some cause =>
    dir = wd /\ exists e, snd (utils.GetProjectDir w) = Some e /\ Unwrap e = Some cause
  | None =>
    snd (utils.GetProjectDir w) = None
    /\ (String.length dir <= String.length wd)%nat
    /\ (dir = wd <-> strings.Contains wd "/test/e2e" = false)
  end.
Proof.
  cbv zeta. unfold utils.GetProjectDir.
  destruct (snd (os_Getwd w)) as [cause|].
  - split; [reflexivity|]. eexists. split; reflexivity.
  - cbn [fst snd]. split; [reflexivity|].
    destruct (ReplaceAll_length _ "/test/e2e" ltac:(discriminate) (fst (os_Getwd w)) (le_n _))
      as [H1 H2].
    split; [exact H1|]. split.
    + intros E. destruct (strings.Contains (fst (os_Getwd w)) "/test/e2e"); [|reflexivity].
      specialize (H2 eq_refl). rewrite E in H2. lia.
    + intros E. now apply ReplaceAll_absent.
Qed.

(** X5.  From a working directory of the form [root/test/e2e] or
    [root/test/e2e/more], with no other instance of [/test/e2e] in
    [root] or in what follows, [GetProjectDir] returns [root] followed by
    what follows: the one instance is cut out, nothing else. *)
Theorem GetProjectDir_strips (w : W) (root rest : string) :
  os_Getwd w = (root ++ "/test/e2e" ++ rest, None) ->
  strings.Contains root "/test/e2e" = false ->
  strings.Contains rest "/test/e2e" = false ->
  utils.GetProjectDir w = (root ++ rest, None).
Proof.
  intros Hw Hroot Hrest. unfold utils.GetProjectDir. rewrite Hw. cbn [fst snd].
  now rewrite (ReplaceAll_e2e root rest Hroot Hrest).
Qed.
End Dir.

(** ** Run and IsCertManagerCRDsInstalled *)

Section Helpers.
Context {U : Unicode} {W : Type} {H : Host W} {D : Workspace W}.

(** [utils.Run] in one equation: it reports on the child process
    [utils.launched]. *)
Lemma utils_Run_eq (cmd : Cmd) (w : W) :
  utils.Run cmd w =
  (match Failure (fst (utils.launched w cmd)) with
   | Some err =>
     (Stdout (fst (utils.launched w cmd)),
      Some (wrapError
              (strconv.Quote (strings.Join (Args cmd) " ")
               ++ " failed: "
               ++ strings.TrimSpace (Stderr (fst (utils.launched w cmd)) ++ utils.nl
                                     ++ Stdout (fst (utils.launched w cmd)))
               ++ ": " ++ Error err) err))
   | None => (Stdout (fst (utils.launched w cmd)), None)
   end,
   snd (utils.launched w cmd)).
Proof.
  unfold utils.Run, utils.launched, utils.prepared, utils.ready, bind, gets, modify, ret.
  cbn [fst snd Args].
  destruct (fst (os_Chdir _ w)); cbn [fst snd]; destruct (Failure _); reflexivity.
Qed.

(** X6.  [utils.Run] leaves the world as the child process left it and
    returns the standard output of the process, alone; the error is nil
    exactly when the process succeeded.  When it failed, the error wraps
    the failure, and its message is the command line as [%q] prints it,
    [ failed: ], the trimmed text of standard error, a newline and
    standard output, [: ] and the failure's message; it contains the
    command line itself whenever that is plain. *)
Theorem utils_Run_outcome (w : W) (cmd : Cmd) :
  let finished := fst (utils.launched w cmd) in
  let command := strings.Join (Args cmd) " " in
  let combined := strings.TrimSpace (Stderr finished ++ utils.nl ++ Stdout finished) in
  let res := fst (utils.Run cmd w) in
  snd (utils.Run cmd w) = snd (utils.launched w cmd)
  /\ fst res = Stdout finished
  /\ match Failure finished with
     | None => snd res = None
     | Some cause =>
       exists e : error,
         snd res = Some e
         /\ Unwrap e = Some cause
         /\ Error e = strconv.Quote command ++ " failed: " ++ combined ++ ": " ++ Error cause
         /\ (kubeutil.plain command = true -> strings.Contains (Error e) command = true)
         /\ strings.Contains (Error e) combined = true
     end.
Proof.
  cbv zeta. rewrite utils_Run_eq. cbn [fst snd].
  destruct (Failure (fst (utils.launched w cmd))) as [cause|]; cbn [fst snd].
  - repeat split. eexists. split; [reflexivity|]. cbn [Unwrap Error]. repeat split.
    + intros Hp. rewrite (Quote_plain _ Hp), !append_assoc.
      apply (Contains_append kubeutil.dq).
    + rewrite <- (append_assoc (strconv.Quote _)).
      apply (Contains_append (strconv.Quote _ ++ " failed: ")).
  - repeat split.
Qed.

(** [utils.Run] hands one command to the host: the caller's with the
    directory and the environment set anew, in the world after the change
    of directory and the lines written. *)
Lemma utils_Run_executes (w : W) (cmd : Cmd) :
  let dir := fst (utils.GetProjectDir w) in
  let moved := os_Chdir dir w in
  let w1 := match fst moved with
            | Some err =>
              GinkgoWriter ("chdir dir: " ++ strconv.Quote (Error err) ++ utils.nl)
                (snd moved)
            | None => snd moved
            end in
  let started := {| Path := Path cmd; Args := Args cmd;
                    Env := (os_Environ w1 ++ ["GO111MODULE=on"])%list;
                    Dir := dir; Stdin := Stdin cmd; ctx := ctx cmd |} in
  let finished :=
    Cmd_Run started
      (GinkgoWriter ("running: " ++ strconv.Quote (strings.Join (Args cmd) " ") ++ utils.nl)
         w1) in
  snd (utils.Run cmd w) = snd finished
  /\ fst (fst (utils.Run cmd w)) = Stdout (fst finished)
  /\ (snd (fst (utils.Run cmd w)) = None <-> Failure (fst finished) = None).
Proof.
  cbv zeta. rewrite utils_Run_eq.
  unfold utils.launched, utils.prepared, utils.ready. cbn [fst snd].
  split; [reflexivity|].
  destruct (Failure _); cbn [fst snd]; (split; [reflexivity|]); split;
    intros E; (reflexivity || discriminate E).
Qed.

(** X7.  The command [utils.Run] hands to the host is the caller's with
    its directory and its environment set anew: when the working
    directory is [root/test/e2e], possibly with more behind, the process
    is started in [root] with that behind, after the change to that
    directory, with the host's environment followed by [GO111MODULE=on];
    path, arguments, input and context are the caller's, its directory
    and its environment are not used.  The world [Run] leaves, the output
    it returns and whether it returns an error are those of that
    process. *)
Theorem utils_Run_directory (w : W) (cmd : Cmd) (root rest : string) :
  os_Getwd w = (root ++ "/test/e2e" ++ rest, None) ->
  strings.Contains root "/test/e2e" = false ->
  strings.Contains rest "/test/e2e" = false ->
  let moved := os_Chdir (root ++ rest) w in
  let w1 := match fst moved with
            | Some err =>
              GinkgoWriter ("chdir dir: " ++ strconv.Quote (Error err) ++ utils.nl)
                (snd moved)
            | None => snd moved
            end in
  let started := {| Path := Path cmd; Args := Args cmd;
                    Env := (os_Environ w1 ++ ["GO111MODULE=on"])%list;
                    Dir := root ++ rest; Stdin := Stdin cmd; ctx := ctx cmd |} in
  let finished :=
    Cmd_Run started
      (GinkgoWriter ("running: " ++ strconv.Quote (strings.Join (Args cmd) " ") ++ utils.nl)
         w1) in
  snd (utils.Run cmd w) = snd finished
  /\ fst (fst (utils.Run cmd w)) = Stdout (fst finished)
  /\ (snd (fst (utils.Run cmd w)) = None <-> Failure (fst finished) = None).
Proof.
  intros Hw Hroot Hrest.
  assert (Hdir : fst (utils.GetProjectDir w) = root ++ rest).
  { unfold utils.GetProjectDir. rewrite Hw. cbn [fst snd]. now apply ReplaceAll_e2e. }
  pose proof (utils_Run_executes w cmd) as Hrun. cbv zeta in Hrun.
  rewrite Hdir in Hrun. exact Hrun.
Qed.

(** X8.  [IsCertManagerCRDsInstalled] starts one process, [kubectl get
    crds], and says true exactly when that succeeds and its standard
    output contains one of the six names: the cut into lines and the
    trimming of each line do not change the answer. *)
Theorem IsCertManagerCRDsInstalled_output (w : W) :
  let cmd := exec.Command w "kubectl" ["get"; "crds"] in
  let finished := fst (utils.launched w cmd) in
  utils.IsCertManagerCRDsInstalled w
  = (match Failure finished with
     | Some _ => false
     | None => existsb (fun crd => strings.Contains (Stdout finished) crd)
                 utils.certManagerCRDs
     end,
     snd (utils.launched w cmd)).
Proof.
  cbv zeta. unfold utils.IsCertManagerCRDsInstalled, bind, gets, ret. cbn [fst snd].
  rewrite utils_Run_eq. cbn [fst snd].
  destruct (Failure _) as [cause|]; cbn [fst snd]; [reflexivity|].
  f_equal. unfold utils.certManagerCRDs. cbn [existsb].
  rewrite !GetNonEmptyLines_word by (reflexivity || discriminate). reflexivity.
Qed.

End Helpers.

(** ** InstallCertManager *)

Section Install.
Context {U : Unicode} {W : Type} {H : Host W} {D : Workspace W}.

(** X19.  [InstallCertManager] stops at the first failure: when the
    process of [kubectl apply] fails, the result is the error of [Run],
    which wraps the failure, and the world is the one that process left,
    so the wait for the webhook is never started.  When the apply
    succeeds the wait runs in the world the apply left, and the result is
    nil exactly when the wait succeeds, and otherwise wraps its failure. *)
Theorem InstallCertManager_steps (w : W) :
  let first :=
    utils.launched w (exec.Command w "kubectl" ["apply"; "-f"; utils.certmanagerURL]) in
  let second :=
    utils.launched (snd first) (exec.Command (snd first) "kubectl" utils.waitArgs) in
  let res := utils.InstallCertManager w in
  (forall cause : error,
      Failure (fst first) = Some cause ->
      snd res = snd first
      /\ exists e : error, fst res = Some e /\ Unwrap e = Some cause)
  /\ (Failure (fst first) = None ->
      snd res = snd second
      /\ (fst res = None <-> Failure (fst second) = None)
      /\ forall cause : error,
           Failure (fst second) = Some cause ->
           exists e : error, fst res = Some e /\ Unwrap e = Some cause).
Proof.
  cbv zeta. unfold utils.InstallCertManager, bind, gets, ret. cbn [fst snd].
  rewrite utils_Run_eq. cbn [fst snd]. split.
  - intros cause ->. cbn [fst snd]. split; [reflexivity|]. eexists. split; reflexivity.
  - intros ->. cbn [fst snd]. rewrite utils_Run_eq. cbn [fst snd].
    split; [reflexivity|].
    destruct (Failure (fst (utils.launched _ _))) as [cause|]; cbn [fst snd].
    + split; [split; discriminate|]. intros cause0 [= <-]. eexists. split; reflexivity.
    + split; [split; reflexivity | discriminate].
Qed.

End Install.

(** ** UncommentCode *)

(** ** Index *)

Lemma prefix_empty (s : string) : prefix EmptyString s = true.
Proof. now destruct s. Qed.

(** Where [Index] finds the substring, it is, and nowhere before. *)
Lemma Index_found (s t : string) (i : nat) :
  strings.Index s t = Some i ->
  s = take i s ++ t ++ drop (i + String.length t) s
  /\ forall j : nat, (j < i)%nat -> prefix t (drop j s) = false.
Proof.
  revert i. induction s as [|c s IH]; intros i; cbn [strings.Index].
  - destruct (prefix t EmptyString) eqn:E; [|discriminate].
    intros [= <-]. destruct t; [|discriminate]. split; [reflexivity | lia].
  - destruct (prefix t (String c s)) eqn:E.
    + intros [= <-]. cbn [take append Nat.add]. split; [|lia].
      destruct (prefix_elim _ _ E) as [b Hb]. rewrite Hb at 1.
      f_equal. rewrite Hb. now rewrite drop_append.
    + destruct (strings.Index s t) as [k|]; [|discriminate]. intros [= <-].
      destruct (IH k eq_refl) as [Hs Hj]. cbn [take append Nat.add drop]. split.
      * now rewrite <- Hs.
      * intros [|j] Hlt; [exact E|]. cbn [drop]. apply Hj. lia.
Qed.

Lemma prefix_length (t s : string) :
  prefix t s = true -> (String.length t <= String.length s)%nat.
Proof.
  revert s. induction t as [|c t IH]; intros [|d s] Hp; cbn [String.length]; try lia.
  - discriminate.
  - apply prefix_cons in Hp. destruct Hp as [_ Hp]. apply IH in Hp. lia.
Qed.

Lemma Index_bound (s t : string) (i : nat) :
  strings.Index s t = Some i -> (i + String.length t <= String.length s)%nat.
Proof.
  revert i. induction s as [|c s IH]; intros i; cbn [strings.Index].
  - destruct (prefix t EmptyString) eqn:E; [|discriminate].
    intros [= <-]. now apply prefix_length in E.
  - destruct (prefix t (String c s)) eqn:E.
    + intros [= <-]. now apply prefix_length in E.
    + destruct (strings.Index s t) as [k|]; [|discriminate]. intros [= <-].
      specialize (IH k eq_refl). cbn [String.length]. lia.
Qed.

Lemma take_length (n : nat) (s : string) :
  (n <= String.length s)%nat -> String.length (take n s) = n.
Proof.
  revert s. induction n as [|n IH]; intros [|c s] Hl; cbn in *; try lia.
  rewrite IH; lia.
Qed.

(** [Index] finds the substring exactly when [Contains] holds. *)
Lemma Index_None (s t : string) :
  strings.Index s t = None <-> strings.Contains s t = false.
Proof.
  induction s as [|c s IH]; rewrite Contains_unfold; cbn [strings.Index].
  - destruct (prefix t EmptyString); cbn [orb]; split; congruence.
  - destruct (prefix t (String c s)); cbn [orb]; [split; congruence|].
    rewrite <- IH. destruct (strings.Index s t); split; congruence.
Qed.

(** ** The scanner on a block of lines *)

Lemma scan_fixed (l : list string) :
  l <> [] ->
  Forall (fun x => x <> EmptyString /\ bufio.fits x = true /\ bufio.dropCR x = x) l ->
  bufio.scan l = l.
Proof.
  intros Hne Hl. induction Hl as [|x l (Hx & Hf & Hd) Hl IH]; [now elim Hne|].
  destruct l as [|y l].
  - cbn [bufio.scan]. rewrite Hf, Hd. destruct x; [now elim Hx | reflexivity].
  - change (bufio.scan (x :: y :: l))
      with (if bufio.fits x then bufio.dropCR x :: bufio.scan (y :: l) else []).
    rewrite Hf, Hd, IH by discriminate. reflexivity.
Qed.

Lemma TrimPrefix_append (pre l : string) : strings.TrimPrefix (pre ++ l) pre = l.
Proof.
  unfold strings.TrimPrefix, strings.HasPrefix. now rewrite prefix_append, drop_append.
Qed.

Lemma scannable_iff (x : string) :
  utils.scannable x = true
  <-> oneLine x = true /\ bufio.dropCR x = x /\ bufio.fits x = true.
Proof.
  unfold utils.scannable, oneLine. rewrite !andb_true_iff.
  split; intros [[H1 H2] H3] || intros (H1 & H2 & H3).
  - repeat split; try assumption. now apply String.eqb_eq.
  - repeat split; try assumption. now apply String.eqb_eq.
Qed.

(** The lines of a commented block are the lines behind the prefix. *)
Lemma Lines_commented (pre : string) (ls : list string) :
  pre <> EmptyString -> ls <> [] ->
  forallb utils.scannable (map (fun line => pre ++ line) ls) = true ->
  bufio.Lines (utils.commented pre ls) = map (fun line => pre ++ line) ls.
Proof.
  intros Hpre Hne Hs. unfold bufio.Lines, utils.commented.
  rewrite forallb_forall in Hs.
  change (str1 10) with utils.nl. rewrite Split_Join.
  - apply scan_fixed.
    + destruct ls; [now elim Hne | discriminate].
    + apply Forall_forall. intros x Hx. pose proof (Hs x Hx) as H.
      apply scannable_iff in H. destruct H as (_ & Hd & Hf).
      apply in_map_iff in Hx. destruct Hx as (l & <- & _). repeat split; try assumption.
      destruct pre; [now elim Hpre | discriminate].
  - destruct ls; [now elim Hne | discriminate].
  - apply forallb_forall. intros x Hx. now apply scannable_iff, Hs.
Qed.

Lemma uncommented_commented (pre : string) (ls : list string) :
  pre <> EmptyString -> ls <> [] ->
  forallb utils.scannable (map (fun line => pre ++ line) ls) = true ->
  utils.uncommented (utils.commented pre ls) pre = strings.Join ls utils.nl.
Proof.
  intros Hpre Hne Hs. unfold utils.uncommented.
  rewrite Lines_commented by assumption. rewrite map_map. f_equal.
  rewrite <- (map_id ls) at 2. apply map_ext. intros l. apply TrimPrefix_append.
Qed.

(** ** A target that ends in a newline *)

Lemma Split_append_nl (s : string) :
  strings.Split (s ++ utils.nl) utils.nl = (strings.Split s utils.nl ++ [EmptyString])%list.
Proof.
  induction s as [|c s IH]; [reflexivity|].
  cbn [append]. rewrite !Split_nl_cons, IH.
  destruct (ascii_dec newline c); [reflexivity|].
  destruct (strings.Split s utils.nl) eqn:E; [now apply Split_not_nil in E | reflexivity].
Qed.

Lemma Split_last (s : string) (c : ascii) :
  c <> newline ->
  exists (ps : list string) (p : string),
    strings.Split (s ++ String c EmptyString) utils.nl = (ps ++ [p])%list
    /\ p <> EmptyString.
Proof.
  intros Hc. induction s as [|d s (ps & p & E & Hp)].
  - exists [], (String c EmptyString). cbn [append]. rewrite Split_nl_cons.
    destruct (ascii_dec newline c) as [<-|]; [now elim Hc|]. split; [reflexivity | discriminate].
  - cbn [append]. rewrite Split_nl_cons, E.
    destruct (ascii_dec newline d).
    + exists (EmptyString :: ps), p. split; [reflexivity | exact Hp].
    + destruct ps as [|q ps].
      * exists [], (String d p). split; [reflexivity | discriminate].
      * exists (String d q :: ps), p. split; [reflexivity | exact Hp].
Qed.

Lemma scan_empty_last (ps : list string) (p : string) :
  p <> EmptyString ->
  bufio.scan ((ps ++ [p]) ++ [EmptyString]) = bufio.scan (ps ++ [p]).
Proof.
  intros Hp. induction ps as [|q ps IH].
  - cbn. destruct p; [now elim Hp | reflexivity].
  - change (((q :: ps) ++ [p]) ++ [EmptyString])%list
      with (q :: ((ps ++ [p]) ++ [EmptyString]))%list.
    change ((q :: ps) ++ [p])%list with (q :: (ps ++ [p]))%list.
    destruct (ps ++ [p])%list as [|y l] eqn:E; [now destruct ps|].
    change ((y :: l) ++ [EmptyString])%list with (y :: (l ++ [EmptyString]))%list in *.
    change (bufio.scan (q :: y :: l ++ [EmptyString]))
      with (if bufio.fits q then bufio.dropCR q :: bufio.scan (y :: l ++ [EmptyString]) else []).
    change (bufio.scan (q :: y :: l))
      with (if bufio.fits q then bufio.dropCR q :: bufio.scan (y :: l) else []).
    now rewrite IH.
Qed.

(** The scanner does not tell a block from the block with a newline
    after it. *)
Lemma Lines_newline (body : string) (c : ascii) :
  c <> newline ->
  bufio.Lines ((body ++ String c EmptyString) ++ utils.nl)
  = bufio.Lines (body ++ String c EmptyString).
Proof.
  intros Hc. unfold bufio.Lines. change (str1 10) with utils.nl.
  rewrite Split_append_nl.
  destruct (Split_last body c Hc) as (ps & p & -> & Hp). now apply scan_empty_last.
Qed.

Lemma Lines_not_nil (body : string) (c : ascii) :
  c <> newline ->
  bufio.fits (hd EmptyString (strings.Split (body ++ String c EmptyString) utils.nl)) = true ->
  bufio.Lines (body ++ String c EmptyString) <> [].
Proof.
  intros Hc. unfold bufio.Lines. change (str1 10) with utils.nl.
  destruct (Split_last body c Hc) as (ps & p & -> & Hp).
  destruct ps as [|q ps]; cbn [hd app]; intros Hf.
  - cbn [bufio.scan]. rewrite Hf. destruct p; [now elim Hp | discriminate].
  - destruct (ps ++ [p])%list eqn:E; [now destruct ps|].
    cbn [bufio.scan]. rewrite Hf. discriminate.
Qed.

Section Files.
Context {U : Unicode} {W : Type} {D : Workspace W}.

(** [UncommentCode] when it comes to write. *)
Lemma UncommentCode_writes (w : W) (filename target pre content : string) (idx : nat) :
  os_ReadFile filename w = (content, None) ->
  strings.Index content target = Some idx ->
  bufio.Lines target <> [] ->
  utils.UncommentCode filename target pre w
  = (let r := os_WriteFile filename
                (take idx content ++ utils.uncommented target pre
                 ++ drop (idx + String.length target) content) w in
     (writeError filename (fst r), snd r)).
Proof.
  intros Hr Hi Hl. unfold utils.UncommentCode, bind, gets, ret. cbn [fst snd].
  rewrite Hr. cbn [fst snd]. rewrite Hi.
  destruct (bufio.Lines target) eqn:E; [now elim Hl|].
  cbv zeta. destruct (fst (os_WriteFile _ _ w)); reflexivity.
Qed.

(** X9.  A round trip: when the target is a block of lines, each behind
    a prefix that is not empty, and each line as the scanner gives it
    back (no newline in it, no carriage return at its end, shorter than
    the scanner's buffer), [UncommentCode] writes the file with the first
    instance of the block replaced by the lines without the prefix,
    joined by newlines; what is before and after the block is kept.  The
    result is nil exactly when the write succeeds. *)
Theorem UncommentCode_uncomments (w : W) (filename pre content : string)
  (ls : list string) (idx : nat) :
  pre <> EmptyString -> ls <> [] ->
  forallb utils.scannable (map (fun line => pre ++ line) ls) = true ->
  os_ReadFile filename w = (content, None) ->
  strings.Index content (utils.commented pre ls) = Some idx ->
  let before := take idx content in
  let after := drop (idx + String.length (utils.commented pre ls)) content in
  let r := os_WriteFile filename (before ++ strings.Join ls utils.nl ++ after) w in
  content = before ++ utils.commented pre ls ++ after
  /\ String.length before = idx
  /\ utils.UncommentCode filename (utils.commented pre ls) pre w
     = (writeError filename (fst r), snd r).
Proof.
  intros Hpre Hne Hs Hr Hi. cbv zeta.
  destruct (Index_found _ _ _ Hi) as [Hc _]. pose proof (Index_bound _ _ _ Hi) as Hb.
  split; [exact Hc|]. split; [apply take_length; lia|].
  rewrite (UncommentCode_writes w filename _ pre content idx Hr Hi).
  - now rewrite uncommented_commented.
  - rewrite Lines_commented by assumption. destruct ls; [now elim Hne | discriminate].
Qed.

(** X10.  A target that ends in a newline loses it: for a target that
    does not end in a newline and whose first line fits the scanner,
    [UncommentCode] on the target followed by a newline writes, in place
    of both, what it writes for the target alone, so the last line of the
    block runs into the text behind it. *)
Theorem UncommentCode_newline_lost (w : W) (filename pre content body : string)
  (c : ascii) (idx : nat) :
  c <> newline ->
  let target := body ++ String c EmptyString in
  bufio.fits (hd EmptyString (strings.Split target utils.nl)) = true ->
  os_ReadFile filename w = (content, None) ->
  strings.Index content (target ++ utils.nl) = Some idx ->
  let before := take idx content in
  let after := drop (idx + String.length target + 1) content in
  let r := os_WriteFile filename (before ++ utils.uncommented target pre ++ after) w in
  content = before ++ target ++ utils.nl ++ after
  /\ String.length before = idx
  /\ utils.UncommentCode filename (target ++ utils.nl) pre w
     = (writeError filename (fst r), snd r).
Proof.
  intros Hc target Hf Hr Hi. cbv zeta.
  destruct (Index_found _ _ _ Hi) as [Hs _]. pose proof (Index_bound _ _ _ Hi) as Hb.
  assert (Hlen : (idx + String.length target + 1
                  = idx + String.length (target ++ utils.nl))%nat)
    by (rewrite length_append; cbn [String.length utils.nl str1]; lia).
  rewrite Hlen.
  split; [rewrite <- (append_assoc target utils.nl); exact Hs|].
  split; [apply take_length; lia|].
  rewrite (UncommentCode_writes w filename _ pre content idx Hr Hi).
  - unfold utils.uncommented, target. now rewrite Lines_newline.
  - unfold target. rewrite Lines_newline by exact Hc. now apply Lines_not_nil.
Qed.

(** X11.  When [UncommentCode] does not write: if the file cannot be
    read, the world is untouched and the error wraps the cause; if the
    file does not contain the target, the world is untouched and the
    error wraps nothing; and on an empty target the call returns nil with
    the world untouched, whatever the file holds. *)
Theorem UncommentCode_no_write (w : W) (filename target pre : string) :
  let content := fst (os_ReadFile filename w) in
  let res := utils.UncommentCode filename target pre w in
  (forall cause : error,
     snd (os_ReadFile filename w) = Some cause ->
     snd res = w /\ exists e, fst res = Some e /\ Unwrap e = Some cause)
  /\ (snd (os_ReadFile filename w) = None ->
      strings.Contains content target = false ->
      snd res = w /\ exists e, fst res = Some e /\ Unwrap e = None)
  /\ (snd (os_ReadFile filename w) = None ->
      target = EmptyString -> res = (None, w)).
Proof.
  cbv zeta. unfold utils.UncommentCode, bind, gets, ret. cbn [fst snd].
  split; [|split].
  - intros cause Hr. rewrite Hr. split; [reflexivity|].
    eexists. split; reflexivity.
  - intros Hr Hc. rewrite Hr. apply Index_None in Hc. rewrite Hc.
    split; [reflexivity|]. eexists. split; reflexivity.
  - intros Hr ->. rewrite Hr.
    destruct (fst (os_ReadFile filename w)); reflexivity.
Qed.
End Files.

(** ** What [%q] prints is one line *)

Lemma char_newline (b : N) : b < 256 -> b <> 10 -> newline <> char b.
Proof.
  intros Hb Hn E. apply Hn. apply (f_equal byte) in E.
  unfold byte, char, newline in E. unfold char in E.
  rewrite !N_ascii_embedding in E by lia. now symmetry.
Qed.

Lemma oneLine_str1 (b : N) : b < 256 -> b <> 10 -> oneLine (str1 b) = true.
Proof.
  intros Hb Hn. unfold str1. rewrite oneLine_cons.
  destruct (ascii_dec newline (char b)) as [E|]; [|reflexivity].
  now apply char_newline in E.
Qed.

Lemma oneLine_hexdigit (r : N) : oneLine (strconv.hexdigit (N.land r 0xF)) = true.
Proof.
  assert (Hd : N.land r 0xF < 16).
  { change 0xF with (N.ones 4). rewrite N.land_ones. now apply N.mod_lt. }
  unfold strconv.hexdigit. destruct (N.land r 0xF <? 10) eqn:E.
  - apply N.ltb_lt in E. apply oneLine_str1; lia.
  - apply N.ltb_ge in E. apply oneLine_str1; lia.
Qed.

Lemma oneLine_hex (n : nat) : forall r : N, oneLine (strconv.hex n r) = true.
Proof.
  induction n as [|n IH]; intros r; [reflexivity|].
  cbn [strconv.hex]. now rewrite oneLine_append, IH, oneLine_hexdigit.
Qed.

Section Quoted.
Context {U : Unicode}.

(** A rune whose own bytes hold no newline is printed without one. *)
Lemma oneLine_escapedRune (r : N) (enc : string) :
  oneLine enc = true -> oneLine (strconv.escapedRune r enc) = true.
Proof.
  intros He. unfold strconv.escapedRune.
  repeat match goal with
         | |- context [if ?b then _ else _] => destruct b
         end;
    rewrite ?oneLine_append, ?oneLine_hex, ?He; reflexivity.
Qed.

(** The newline itself is printed as an escape. *)
Lemma oneLine_escaped_ascii (ch : ascii) :
  (byte ch <? 0x80) = true ->
  oneLine (strconv.escapedRune (byte ch) (String ch EmptyString)) = true.
Proof.
  destruct ch as [[] [] [] [] [] [] [] []]; vm_compute; intros; congruence.
Qed.

Lemma oneLine_high (ch : ascii) (s : string) :
  (byte ch <? 0x80) = false -> oneLine (String ch s) = oneLine s.
Proof.
  intros Hb. rewrite oneLine_cons.
  destruct (ascii_dec newline ch) as [<-|]; [discriminate Hb | reflexivity].
Qed.

(** The bytes of a rune of more than one byte are all above the ASCII
    range. *)
Lemma oneLine_rune (ch : ascii) (s : string) :
  (byte ch <? 0x80) = false ->
  oneLine (take (snd (utf8.DecodeRuneInString (String ch s))) (String ch s)) = true.
Proof.
  intros E0. unfold utf8.DecodeRuneInString. rewrite E0.
  destruct s as [|c1 [|c2 [|c3 s]]];
    repeat match goal with
           | |- context [if ?b then _ else _] => destruct b eqn:?
           end;
    cbn [fst snd take]; rewrite ?(oneLine_high ch) by exact E0; try reflexivity;
    unfold utf8.cont, between in *;
    repeat match goal with
           | E : _ && _ = true |- _ => apply andb_true_iff in E; destruct E
           end;
    repeat match goal with
           | E : (_ <=? _) = true |- _ => apply N.leb_le in E
           end;
    repeat match goal with
           | E : context [if ?b then _ else _] |- _ => destruct b
           end;
    repeat match goal with
           | |- context [oneLine (String ?c _)] =>
             rewrite (oneLine_high c) by (apply N.ltb_ge; lia)
           end;
    reflexivity.
Qed.

Lemma quoteBody_skip (k : nat) :
  forall s : string, strconv.quoteBody k s = strconv.quoteBody 0 (drop k s).
Proof.
  induction k as [|k IH]; intros [|c s]; try reflexivity.
  cbn [strconv.quoteBody drop]. apply IH.
Qed.

Lemma oneLine_quoteBody (n : nat) :
  forall s : string,
    (String.length s <= n)%nat -> oneLine (strconv.quoteBody 0 s) = true.
Proof.
  induction n as [|n IH]; intros [|ch s] Hl; try reflexivity.
  - simpl in Hl. lia.
  - cbn [strconv.quoteBody].
    pose proof (oneLine_rune ch s) as Hr.
    pose proof (oneLine_escaped_ascii ch) as Ha.
    destruct (byte ch <? 0x80) eqn:E0.
    + unfold utf8.DecodeRuneInString. rewrite E0.
      assert (E1 : (byte ch =? utf8.RuneError) = false).
      { apply N.eqb_neq. apply N.ltb_lt in E0. unfold utf8.RuneError. lia. }
      rewrite E1, andb_false_r. cbn [take Nat.pred].
      rewrite oneLine_append, (Ha eq_refl). apply (IH s). simpl in Hl. lia.
    + specialize (Hr eq_refl).
      destruct (utf8.DecodeRuneInString (String ch s)) as [r w]. cbn [snd] in Hr.
      rewrite quoteBody_skip, oneLine_append.
      rewrite (IH (drop (Nat.pred w) s))
        by (pose proof (drop_length (Nat.pred w) s); simpl in Hl; lia).
      rewrite andb_true_r.
      destruct (Nat.eqb w 1 && (r =? utf8.RuneError)).
      * now rewrite !oneLine_append, oneLine_hex.
      * now apply oneLine_escapedRune.
Qed.

(** What [%q] prints has no newline in it. *)
Lemma oneLine_Quote (s : string) : oneLine (strconv.Quote s) = true.
Proof.
  unfold strconv.Quote. rewrite !oneLine_append, (oneLine_quoteBody _ s (le_n _)).
  reflexivity.
Qed.

End Quoted.

Section RunningLine.
Context {U : Unicode} {W : Type} {H : Host W} {D : Workspace W}.

(** X16.  Both runners announce the command on one line, whatever its
    arguments hold.  [utils.Run] starts its process in the world where it
    has written [running: ], the command line as [%q] prints it, and a
    newline; [DefaultRunner.Run] starts its process in the world where it
    has logged the same line without the newline.  In both the line
    holds no newline: one in an argument is written as an escape. *)
Theorem running_line (w : W) (c : Context) (logger : slo.Logger W) (cmd : Cmd) :
  (let dir := fst (utils.GetProjectDir w) in
   let moved := os_Chdir dir w in
   let w1 := match fst moved with
             | Some err =>
               GinkgoWriter ("chdir dir: " ++ strconv.Quote (Error err) ++ utils.nl)
                 (snd moved)
             | None => snd moved
             end in
   let started := {| Path := Path cmd; Args := Args cmd;
                     Env := (os_Environ w1 ++ ["GO111MODULE=on"])%list;
                     Dir := dir; Stdin := Stdin cmd; ctx := ctx cmd |} in
   let line := "running: " ++ strconv.Quote (strings.Join (Args cmd) " ") in
   snd (utils.Run cmd w) = snd (Cmd_Run started (GinkgoWriter (line ++ utils.nl) w1))
   /\ strings.Contains line utils.nl = false)
  /\ (let c2 := rebuild w c cmd in
      let line := "running: " ++ strconv.Quote (strings.Join (Args c2) " ") in
      snd (DefaultRunner_Run c logger cmd w)
      = snd (Cmd_Run c2 (slo.Logf (slo.NewLogger logger) line w))
      /\ strings.Contains line utils.nl = false).
Proof.
  cbv zeta. split; split.
  - apply utils_Run_executes.
  - apply negb_true_iff.
    change (oneLine ("running: " ++ strconv.Quote (strings.Join (Args cmd) " ")) = true).
    now rewrite oneLine_append, oneLine_Quote.
  - apply DefaultRunner_Run_executes.
  - apply negb_true_iff.
    change (oneLine ("running: "
                     ++ strconv.Quote (strings.Join (Args (rebuild w c cmd)) " "))
            = true).
    now rewrite oneLine_append, oneLine_Quote.
Qed.

End RunningLine.

(* ================================================================== *)
(** * More on the credential poller and the apply *)

Section Poller2.
Context {U : Unicode} {W : Type} {H : Host W}.
Variables (c : Context) (sink : slo.Sink W) (r : CmdRunner W) (ns sa : string).

Local Notation "'attempt'" := (tryOnce c sink r ns sa).
Local Notation "'loop'" := (pollLoop c sink r ns sa).

(** The loop returns an error only when it has seen the context done. *)
Lemma pollLoop_error (cases : list selected) :
  forall (e0 e : error) (tok : string) (st st' : State W),
    loop (Some e0) cases st = (Some (tok, Some e), st') -> In ctxDone cases.
Proof.
  induction cases as [|[|] cases IH]; intros e0 e tok st st' Hl.
  - discriminate.
  - now left.
  - right. rewrite pollLoop_tick in Hl.
    destruct (snd (fst (attempt st))) as [err|]; [|discriminate].
    eapply IH; eassumption.
Qed.

(** On ticks alone the loop is still waiting exactly when every attempt
    has failed. *)
Lemma pollLoop_waiting (cases : list selected) :
  Forall (fun s => s = tickerC) cases ->
  forall (e0 : error) (st : State W),
    match failures c sink r ns sa (List.length cases) (Some e0) st with
    | Some (_, st') => loop (Some e0) cases st = (None, st')
    | None => exists tok st', loop (Some e0) cases st = (Some (tok, None), st')
    end.
Proof.
  induction 1 as [|s cases -> _ IH]; intros e0 st.
  - reflexivity.
  - cbn [List.length]. rewrite failures_step, pollLoop_tick.
    destruct (snd (fst (attempt st))) as [err|]; [apply IH | eauto].
Qed.

(** What the attempts put on record. *)

Lemma tokenCmd_request (w : W) : isTokenRequest ns sa (tokenCmd w ns sa).
Proof. repeat split. Qed.

Lemma pollLoop_requests (cases : list selected) :
  forall (lastErr : option error) (st : State W),
    exists added : list Cmd,
      runs (snd (loop lastErr cases st)) = (runs st ++ added)%list
      /\ (List.length added <= List.length cases)%nat
      /\ Forall (isTokenRequest ns sa) added.
Proof.
  induction cases as [|[|] cases IH]; intros lastErr st.
  - exists []. rewrite app_nil_r. repeat split; [reflexivity | constructor].
  - exists []. rewrite app_nil_r. split; [now destruct lastErr|].
    split; [cbn; lia | constructor].
  - rewrite pollLoop_tick.
    destruct (snd (fst (attempt st))) as [err|].
    + assert (Hst : runs (snd (notReady sink err (snd (attempt st))))
                    = (runs st ++ [tokenCmd (world st) ns sa])%list)
        by (now rewrite notReady_runs, tryOnce_state).
      destruct (IH (Some err) (snd (notReady sink err (snd (attempt st)))))
        as (added & Hr & Hl & Hall).
      rewrite Hst in Hr.
      exists (tokenCmd (world st) ns sa :: added). split; [|split].
      * rewrite Hr, <- app_assoc. reflexivity.
      * cbn [List.length]. lia.
      * constructor; [apply tokenCmd_request | exact Hall].
    + cbn [snd]. rewrite tryOnce_state. cbn [runs].
      exists [tokenCmd (world st) ns sa]. split; [reflexivity|].
      split; [cbn; lia|]. constructor; [apply tokenCmd_request | constructor].
Qed.

End Poller2.

(** A part of the tail is a part of the whole. *)
Lemma Contains_tail (a b t : string) :
  strings.Contains b t = true -> strings.Contains (a ++ b) t = true.
Proof.
  rewrite !Contains_iff. intros (x & y & ->). exists (a ++ x), y.
  now rewrite append_assoc.
Qed.

Lemma Contains_end (a t : string) : strings.Contains (a ++ t) t = true.
Proof.
  apply Contains_iff. exists a, EmptyString. now rewrite append_empty.
Qed.

Section Poller3.
Context {U : Unicode} {W : Type} {H : Host W}.

Lemma pollLoop_ticks (c : Context) (sink : slo.Sink W) (r : CmdRunner W)
  (ns sa : string) (n : nat) (e0 : error) (st : State W) :
  match failures c sink r ns sa n (Some e0) st with
  | Some (_, st') => pollLoop c sink r ns sa (Some e0) (repeat tickerC n) st = (None, st')
  | None =>
    exists tok st',
      pollLoop c sink r ns sa (Some e0) (repeat tickerC n) st = (Some (tok, None), st')
  end.
Proof.
  pose proof (pollLoop_waiting c sink r ns sa (repeat tickerC n)) as Hw.
  rewrite repeat_length in Hw. apply Hw.
  apply Forall_forall. intros x Hx. now apply repeat_spec in Hx.
Qed.

(** X12.  [ServiceAccountToken] returns an error only on a context that
    is done: either the context was done at the call, and the error is
    the context's, or one of the [select] statements of the loop went on
    with [ctx.Done].  A failed attempt alone never ends the call. *)
Theorem ServiceAccountToken_error_cancelled (c : Context) (logger : slo.Logger W)
  (r : option (CmdRunner W)) (ns sa : string) (cases : list selected)
  (st st' : State W) (tok : string) (e : error) :
  ServiceAccountToken c logger r ns sa cases st = (Some (tok, Some e), st') ->
  Context_Err c (world st) = Some e \/ In ctxDone cases.
Proof.
  rewrite ServiceAccountToken_eq. cbv zeta.
  destruct (Context_Err c (world st)) as [err|].
  - intros [= _ <- _]. now left.
  - destruct (snd (fst (tryOnce _ _ _ _ _ st))) as [err|]; [|discriminate].
    intros Hl. right. eapply pollLoop_error; eassumption.
Qed.

(** X13.  There is no limit to the attempts: on a context that is not
    done, after [n] ticks and nothing else, the call is still waiting
    exactly when the first attempt and those at the [n] ticks have all
    failed, and the runner has then been called [n + 1] times; otherwise
    it has returned a token. *)
Theorem ServiceAccountToken_waiting (c : Context) (logger : slo.Logger W)
  (r : option (CmdRunner W)) (ns sa : string) (n : nat) (st : State W) :
  Context_Err c (world st) = None ->
  match failures c (slo.NewLogger logger) (orDefault r) ns sa (S n) None st with
  | Some (_, st') =>
    ServiceAccountToken c logger r ns sa (repeat tickerC n) st = (None, st')
    /\ List.length (runs st') = (List.length (runs st) + S n)%nat
  | None =>
    exists (tok : string) (st' : State W),
      ServiceAccountToken c logger r ns sa (repeat tickerC n) st = (Some (tok, None), st')
  end.
Proof.
  intros Hc. rewrite ServiceAccountToken_eq, Hc. cbv zeta.
  destruct (failures _ _ _ _ _ (S n) None st) as [[last st']|] eqn:Hf.
  - split; [|now apply failures_runs in Hf].
    rewrite failures_step in Hf.
    destruct (snd (fst (tryOnce _ _ _ _ _ st))) as [err|]; [|discriminate].
    pose proof (pollLoop_ticks c (slo.NewLogger logger) (orDefault r) ns sa n err
                  (snd (notReady (slo.NewLogger logger) err
                          (snd (tryOnce c (slo.NewLogger logger) (orDefault r) ns sa st)))))
      as Hw.
    rewrite Hf in Hw. exact Hw.
  - rewrite failures_step in Hf.
    destruct (snd (fst (tryOnce _ _ _ _ _ st))) as [err|] eqn:E; [|eauto].
    pose proof (pollLoop_ticks c (slo.NewLogger logger) (orDefault r) ns sa n err
                  (snd (notReady (slo.NewLogger logger) err
                          (snd (tryOnce c (slo.NewLogger logger) (orDefault r) ns sa st)))))
      as Hw.
    rewrite Hf in Hw. exact Hw.
Qed.

(** X14.  The commands [ServiceAccountToken] hands to the runner are
    token requests and nothing else: each is [kubectl create --raw] on
    the token path of the service account with [-f -], with the request
    body on its standard input and no directory or environment set.
    There are at most as many as the [select] statements that went on,
    and one more; there is none when the context is done at the call. *)
Theorem ServiceAccountToken_requests (c : Context) (logger : slo.Logger W)
  (r : option (CmdRunner W)) (ns sa : string) (cases : list selected) (st : State W) :
  exists added : list Cmd,
    runs (snd (ServiceAccountToken c logger r ns sa cases st)) = (runs st ++ added)%list
    /\ (List.length added <= S (List.length cases))%nat
    /\ Forall (isTokenRequest ns sa) added
    /\ (Context_Err c (world st) <> None -> added = []).
Proof.
  rewrite ServiceAccountToken_eq. cbv zeta.
  destruct (Context_Err c (world st)) as [err|].
  - exists []. rewrite app_nil_r. repeat split; [cbn; lia | constructor].
  - set (sink := slo.NewLogger logger). set (r' := orDefault r).
    assert (Hfirst : runs (snd (tryOnce c sink r' ns sa st))
                     = (runs st ++ [tokenCmd (world st) ns sa])%list)
      by (now rewrite tryOnce_state).
    destruct (snd (fst (tryOnce c sink r' ns sa st))) as [err|].
    + destruct (pollLoop_requests c sink r' ns sa cases (Some err)
                  (snd (notReady sink err (snd (tryOnce c sink r' ns sa st)))))
        as (added & Hr & Hl & Hall).
      rewrite notReady_runs, Hfirst in Hr.
      exists (tokenCmd (world st) ns sa :: added). split; [|split; [|split]].
      * rewrite Hr, <- app_assoc. reflexivity.
      * cbn [List.length]. lia.
      * constructor; [apply tokenCmd_request | exact Hall].
      * intros E. now elim E.
    + cbn [snd]. exists [tokenCmd (world st) ns sa]. split; [exact Hfirst|].
      split; [cbn; lia|]. split; [|intros E; now elim E].
      constructor; [apply tokenCmd_request | constructor].
Qed.

(** X15.  With the default runner, [ApplyClusterRoleBinding] returns nil
    exactly when the [kubectl] process succeeds.  When the process fails
    the error reaches the caller through two wrappings, the runner's and
    the stage's; its message begins with the stage, and still holds the
    trimmed output of the process and the message of the failure. *)
Theorem ApplyClusterRoleBinding_diagnosis (c : Context) (logger : slo.Logger W)
  (name clusterRole ns sa : string) (st : State W) :
  let sink := slo.NewLogger logger in
  let w1 := slo.Logf sink
              ("apply ClusterRoleBinding name=" ++ strconv.Quote name
               ++ " role=" ++ strconv.Quote clusterRole
               ++ " sa=" ++ ns ++ "/" ++ sa) (world st) in
  let finished := fst (launched w1 c (Some sink) (applyCmd w1 name clusterRole ns sa)) in
  let res := fst (ApplyClusterRoleBinding c logger None name clusterRole ns sa st) in
  match Failure finished with
  | None => res = None
  | Some cause =>
    exists e e1 : error,
      res = Some e /\ Unwrap e = Some e1 /\ Unwrap e1 = Some cause
      /\ prefix "kubectl apply clusterrolebinding failed: " (Error e) = true
      /\ strings.Contains (Error e)
           (strings.TrimSpace (Stderr finished ++ nl ++ Stdout finished)) = true
      /\ strings.Contains (Error e) (Error cause) = true
  end.
Proof.
  cbv zeta.
  unfold ApplyClusterRoleBinding, bind, gets, callRun, onWorld, logf, modify, ret.
  cbn [fst snd world runs orDefault Run DefaultRunner].
  set (w1 := slo.Logf _ _ (world st)).
  set (cmd := applyCmd w1 name clusterRole ns sa).
  rewrite (DefaultRunner_Run_eq c (Some (slo.NewLogger logger)) cmd w1).
  set (finished := fst (launched w1 c (Some (slo.NewLogger logger)) cmd)).
  destruct (Failure finished) as [cause|]; cbn [fst snd].
  - destruct (negb (is_empty (strings.TrimSpace (Stdout finished)))); cbn [fst snd];
      (eexists; eexists; split; [reflexivity|]; cbn [Unwrap Error];
       split; [reflexivity|]; split; [reflexivity|]; split; [apply prefix_append|]; split;
       [ do 3 apply Contains_tail; apply Contains_prefix
       | do 4 apply Contains_tail; apply Contains_end ]).
  - destruct (negb (is_empty (strings.TrimSpace (Stdout finished)))); reflexivity.
Qed.
End Poller3.

(** ** The manifest of the apply *)

(** The next line of a text. *)
Ltac next_line a Ha :=
  etransitivity;
  [ apply (Split_line a); rewrite ?oneLine_append, ?Ha; reflexivity
  | f_equal ].

(** X17.  When none of the four values holds a newline, the manifest
    [ApplyClusterRoleBinding] sends is a document of twelve lines, each
    ended by a newline, with each value on a line of its own: the binding
    under [metadata], the role under [roleRef], the service account as
    the subject's [name] and the namespace as its [namespace]. *)
Theorem manifest_lines (name clusterRole ns sa : string) :
  strings.Contains name nl = false ->
  strings.Contains clusterRole nl = false ->
  strings.Contains ns nl = false ->
  strings.Contains sa nl = false ->
  strings.Split (manifest name clusterRole ns sa) nl
  = ["apiVersion: rbac.authorization.k8s.io/v1";
     "kind: ClusterRoleBinding";
     "metadata:";
     "  name: " ++ name;
     "roleRef:";
     "  apiGroup: rbac.authorization.k8s.io";
     "  kind: ClusterRole";
     "  name: " ++ clusterRole;
     "subjects:";
     "- kind: ServiceAccount";
     "  name: " ++ sa;
     "  namespace: " ++ ns;
     EmptyString].
Proof.
  intros Hname Hrole Hns Hsa.
  assert (H1 : oneLine name = true) by (apply negb_true_iff; exact Hname).
  assert (H2 : oneLine clusterRole = true) by (apply negb_true_iff; exact Hrole).
  assert (H3 : oneLine ns = true) by (apply negb_true_iff; exact Hns).
  assert (H4 : oneLine sa = true) by (apply negb_true_iff; exact Hsa).
  unfold manifest.
  next_line "apiVersion: rbac.authorization.k8s.io/v1" H1.
  next_line "kind: ClusterRoleBinding" H1.
  next_line "metadata:" H1.
  next_line ("  name: " ++ name) H1.
  next_line "roleRef:" H1.
  next_line "  apiGroup: rbac.authorization.k8s.io" H1.
  next_line "  kind: ClusterRole" H1.
  next_line ("  name: " ++ clusterRole) H2.
  next_line "subjects:" H1.
  next_line "- kind: ServiceAccount" H1.
  next_line ("  name: " ++ sa) H4.
  etransitivity;
    [ apply (Split_line ("  namespace: " ++ ns) EmptyString);
      rewrite oneLine_append, H3; reflexivity
    | reflexivity ].
Qed.

(** ** An attempt through the default runner *)

Section Diagnosis.
Context {U : Unicode} {W : Type} {H : Host W}.

(** X18.  An attempt of [ServiceAccountToken] through the default runner:
    when the [kubectl] process fails, the attempt fails with the empty
    string and an error that reaches the failure through two wrappings;
    its message begins with the namespace and the service account, and
    holds the trimmed output of the process and the message of the
    failure.  When the process succeeds, the attempt succeeds exactly
    when its standard output decodes to a token that is not empty, and
    then returns that token. *)
Theorem tryOnce_diagnosis (c : Context) (sink : slo.Sink W) (ns sa : string)
  (st : State W) :
  let finished := fst (launched (world st) c (Some sink) (tokenCmd (world st) ns sa)) in
  let decoded := Unmarshal (Stdout finished) in
  let res := fst (tryOnce c sink DefaultRunner ns sa st) in
  match Failure finished with
  | None =>
    (snd res = None
     <-> snd decoded = None /\ Token (Status (fst decoded)) <> EmptyString)
    /\ (snd res = None -> fst res = Token (Status (fst decoded)))
  | Some cause =>
    exists e e1 : error,
      res = (EmptyString, Some e) /\ Unwrap e = Some e1 /\ Unwrap e1 = Some cause
      /\ prefix ("token request failed (ns=" ++ ns ++ " sa=" ++ sa ++ "): ") (Error e) = true
      /\ strings.Contains (Error e)
           (strings.TrimSpace (Stderr finished ++ nl ++ Stdout finished)) = true
      /\ strings.Contains (Error e) (Error cause) = true
  end.
Proof.
  cbv zeta. rewrite tryOnce_answer. cbv zeta. cbn [Run DefaultRunner].
  rewrite (DefaultRunner_Run_eq c (Some sink) (tokenCmd (world st) ns sa) (world st)).
  set (finished := fst (launched (world st) c (Some sink) (tokenCmd (world st) ns sa))).
  cbn [fst]. destruct (Failure finished) as [cause|]; cbn [fst snd].
  - eexists. eexists. split; [reflexivity|]. cbn [Unwrap Error].
    split; [reflexivity|]. split; [reflexivity|]. split; [|split].
    + match goal with
      | |- prefix ?p (?a ++ ?b ++ ?d ++ ?e ++ ?f ++ ?rest) = true =>
        replace (a ++ b ++ d ++ e ++ f ++ rest) with (p ++ rest)
          by (now rewrite !append_assoc)
      end.
      apply prefix_append.
    + do 7 apply Contains_tail. apply Contains_prefix.
    + do 8 apply Contains_tail. apply Contains_end.
  - destruct (snd (Unmarshal (Stdout finished))) as [err|]; cbn [fst snd].
    + split; [split; [discriminate | intros [E _]; discriminate E] | discriminate].
    + destruct (Token (Status (fst (Unmarshal (Stdout finished))))) as [|ch tok];
        cbn [is_empty fst snd].
      * split; [split; [discriminate | intros [_ E]; now elim E] | discriminate].
      * split; [split; [intros _; split; [reflexivity | discriminate] | reflexivity]
               | reflexivity].
Qed.

End Diagnosis.

(* ================================================================== *)
(** * The definitions at work in the sample world *)

Import Sample.

(** C1 at work: a cancelled context stops the call before anything
    happens; and with a failed process, then a malformed response, then
    the context done, the call returns the parse failure after two
    commands. *)
Lemma ServiceAccountToken_cancelled_sample :
  ServiceAccountToken background (Some recorder) None "ns" "sa" [tickerC] cancelled
  = (Some (EmptyString, Some (errorString "context canceled")), cancelled)
  /\ fst (ServiceAccountToken background (Some recorder) None "ns" "sa"
            (repeat tickerC 1 ++ [ctxDone])%list
            (start [exited EmptyString "not found"; ok "{"]))
     = Some (EmptyString,
             Some (wrapError
                     ("token response json parse failed: json: syntax error (body="
                      ++ dq ++ "{" ++ dq ++ ")") json.SyntaxError)).
Proof.
  pose proof (ServiceAccountToken_cancelled background (Some recorder) None "ns" "sa")
    as [Hpre Hloop].
  split.
  - apply Hpre. reflexivity.
  - edestruct (Hloop 1%nat [] (start [exited EmptyString "not found"; ok "{"]))
      as [E _]; [reflexivity | reflexivity |].
    exact (f_equal fst E).
Defined.

(** C2 at work: two failures, then a token at the second tick, after three
    commands; and a token at once with no tick at all. *)
Lemma ServiceAccountToken_retries_sample :
  (fst (ServiceAccountToken background (Some recorder) None "ns" "sa"
          (repeat tickerC 2 ++ [])%list
          (start [exited EmptyString "not found"; ok "{"; ok (tokenDoc "abc123")]))
   = Some ("abc123", None)
   /\ List.length
        (runs (snd (ServiceAccountToken background (Some recorder) None "ns" "sa"
                      (repeat tickerC 2 ++ [])%list
                      (start [exited EmptyString "not found"; ok "{";
                              ok (tokenDoc "abc123")]))))
      = 3%nat)
  /\ fst (ServiceAccountToken background (Some recorder) None "ns" "sa" []
            (start [ok (tokenDoc "abc123")]))
     = Some ("abc123", None).
Proof.
  split.
  - edestruct (ServiceAccountToken_retries background (Some recorder) None "ns" "sa"
                 2%nat []
                 (start [exited EmptyString "not found"; ok "{"; ok (tokenDoc "abc123")]))
      as [E L]; [reflexivity | reflexivity | reflexivity |].
    split; [exact (f_equal fst E) | rewrite E; exact L].
  - edestruct (ServiceAccountToken_retries background (Some recorder) None "ns" "sa"
                 0%nat [] (start [ok (tokenDoc "abc123")]))
      as [E _]; [reflexivity | reflexivity | reflexivity |].
    exact (f_equal fst E).
Defined.

(** C3 at work: a token, an empty token, a malformed response. *)
Lemma tryOnce_token_sample :
  fst (tryOnce background recorder DefaultRunner "ns" "sa"
         (start [ok (tokenDoc "abc123")]))
  = ("abc123", None)
  /\ fst (tryOnce background recorder DefaultRunner "ns" "sa"
            (start [ok (tokenDoc EmptyString)]))
     = (EmptyString, Some (errorString "token is empty"))
  /\ exists e : error,
       fst (tryOnce background recorder DefaultRunner "ns" "sa" (start [ok "{"]))
       = (EmptyString, Some e)
       /\ Unwrap e = Some json.SyntaxError.
Proof.
  split; [|split].
  - pose proof (tryOnce_token background recorder DefaultRunner "ns" "sa"
                  (start [ok (tokenDoc "abc123")]) (tokenDoc "abc123") eq_refl)
      as (_ & _ & E & _).
    exact (E eq_refl).
  - pose proof (tryOnce_token background recorder DefaultRunner "ns" "sa"
                  (start [ok (tokenDoc EmptyString)]) (tokenDoc EmptyString) eq_refl)
      as (_ & _ & _ & _ & E & _).
    exact (E eq_refl).
  - pose proof (tryOnce_token background recorder DefaultRunner "ns" "sa"
                  (start [ok "{"]) "{" eq_refl)
      as (_ & _ & _ & _ & _ & E).
    exact (E eq_refl).
Defined.

(** C4 at work: the command assembled by hand, with its one variable, is
    started with that variable and the marker, once each. *)
Lemma Run_environment_sample :
  started (snd (DefaultRunner_Run background None handmade (host0 [ok "v1"])))
  = [mkCmd "/usr/bin/kubectl" ["kubectl"; "version"] ["A=1"; "GO111MODULE=on"] "/tmp"
       (Some EmptyString) (Some background)]
  /\ Env (rebuild (host0 [ok "v1"]) background handmade) = ["A=1"; "GO111MODULE=on"]
  /\ count_occ string_dec (Env (rebuild (host0 [ok "v1"]) background handmade)) "A=1"
     = 1%nat.
Proof.
  destruct (Run_environment (host0 [ok "v1"]) background None handmade)
    as ((Hw & _) & _ & Hlist).
  destruct Hlist as (Henv & _ & _ & Hcount); [discriminate|].
  split; [rewrite Hw; reflexivity|]. split; [exact Henv|].
  rewrite Hcount. reflexivity.
Defined.

(** C4 against the code: a caller who supplies a list of no entries gets
    the host's environment and the marker, not the marker alone. *)
Lemma Run_environment_empty_list :
  Env (mkCmd "/usr/bin/kubectl" ["kubectl"; "version"] [] EmptyString None None) = []
  /\ map Env
       (started
          (snd (DefaultRunner_Run background None
                  (mkCmd "/usr/bin/kubectl" ["kubectl"; "version"] [] EmptyString None None)
                  (host0 [ok "v1"]))))
     = [["HOME=/root"; "GO111MODULE=on"]]
  /\ map Env
       (started
          (snd (DefaultRunner_Run background None
                  (mkCmd "/usr/bin/kubectl" ["kubectl"; "version"] [] EmptyString None None)
                  (host0 [ok "v1"]))))
     <> [([] ++ ["GO111MODULE=on"])%list].
Proof. repeat split; discriminate. Qed.

(** C5 against the code: the command line [/bin/sh -c echo "hi"] fails;
    the message of the error holds it with its quotes escaped, not as it
    is. *)
Lemma Run_failure_message_differs :
  strings.Join (Args (rebuild (host0 [exited EmptyString "boom"]) background echo)) " "
  = "/bin/sh -c echo " ++ dq ++ "hi" ++ dq
  /\ exists e : error,
       fst (DefaultRunner_Run background None echo (host0 [exited EmptyString "boom"]))
       = (EmptyString, Some e)
       /\ Error e
          = dq ++ "/bin/sh -c echo " ++ str1 92 ++ dq ++ "hi" ++ str1 92 ++ dq ++ dq
            ++ " failed: boom: exit status 1"
       /\ strings.Contains (Error e)
            (strings.Join
               (Args (rebuild (host0 [exited EmptyString "boom"]) background echo)) " ")
          = false.
Proof.
  split; [reflexivity|]. eexists. split; [reflexivity|]. split; reflexivity.
Qed.

(** C5 at work, on a plain command line. *)
Lemma Run_failure_sample :
  exists e : error,
    fst (DefaultRunner_Run background None resolved
           (host0 [exited "partial " " boom"]))
    = ("partial ", Some e)
    /\ Error e
       = dq ++ "/usr/bin/kubectl version" ++ dq ++ " failed: boom" ++ nl
         ++ "partial: exit status 1"
    /\ strings.Contains (Error e) "/usr/bin/kubectl version" = true
    /\ Unwrap e = Some (errorString "exit status 1").
Proof.
  destruct (Run_failure (U := tables) (H := host)
              (host0 [exited "partial " " boom"]) background None
              resolved (errorString "exit status 1") eq_refl)
    as (e & Hres & Hmsg & _ & Hplain & _ & Hcause).
  exists e.
  exact (conj Hres (conj Hmsg (conj (Hplain eq_refl) Hcause))).
Defined.

(** C7 against the code: the command started for [handmade] has the
    marker after the caller's variable, and the path the host resolves
    the bare name to. *)
Lemma Run_descriptor_differs :
  map Env (started (snd (DefaultRunner_Run background None handmade (host0 [ok "v1"]))))
  = [["A=1"; "GO111MODULE=on"]]
  /\ map Env (started (snd (DefaultRunner_Run background None handmade (host0 [ok "v1"]))))
     <> [Env handmade]
  /\ map Path (started (snd (DefaultRunner_Run background None handmade (host0 [ok "v1"]))))
     = ["/usr/bin/kubectl"]
  /\ map Path (started (snd (DefaultRunner_Run background None handmade (host0 [ok "v1"]))))
     <> [Path handmade].
Proof. repeat split; discriminate. Qed.

(** C7 at work: the command started for [resolved]; a path with a
    separator is kept, and so are the directory and the empty input
    stream of [handmade]. *)
Lemma Run_descriptor_sample :
  started (snd (DefaultRunner_Run background None resolved (host0 [ok "v1"])))
  = [mkCmd "/usr/bin/kubectl" ["/usr/bin/kubectl"; "version"]
       ["HOME=/root"; "GO111MODULE=on"] EmptyString None (Some background)]
  /\ Path (rebuild (host0 [ok "v1"]) background resolved) = "/usr/bin/kubectl"
  /\ Stdin (rebuild (host0 [ok "v1"]) background handmade) = Some EmptyString
  /\ Dir (rebuild (host0 [ok "v1"]) background handmade) = "/tmp"
  /\ ctx (rebuild (host0 [ok "v1"]) background handmade) = Some background.
Proof.
  pose proof (Run_descriptor (host0 [ok "v1"]) background None resolved)
    as ((Hw & _) & _ & _ & _ & Hpath & _).
  pose proof (Run_descriptor (host0 [ok "v1"]) background None handmade)
    as (_ & Hctx & _ & _ & _ & Hdir & Hin & _).
  split; [rewrite Hw; reflexivity|].
  exact (conj (Hpath eq_refl) (conj Hin (conj Hdir Hctx))).
Defined.


(** C10 at work: with nil for both the apply runs its one process and
    logs nothing; the token call returns the token the process printed,
    and logs nothing when the process fails. *)
Lemma nil_collaborators_sample :
  ApplyClusterRoleBinding background None None "binding" "reader" "ns" "sa"
    (start [ok "created"])
  = (None,
     mkState
       (mkWorld None ["HOME=/root"] []
          [mkCmd "/usr/bin/kubectl" ["/usr/bin/kubectl"; "apply"; "-f"; "-"]
             ["HOME=/root"; "GO111MODULE=on"] EmptyString
             (Some (manifest "binding" "reader" "ns" "sa")) (Some background)]
          [])
       [applyCmd (host0 []) "binding" "reader" "ns" "sa"])
  /\ fst (ServiceAccountToken background None None "ns" "sa" []
            (start [ok (tokenDoc "abc123")]))
     = Some ("abc123", None)
  /\ logged (world (snd (ServiceAccountToken background None None "ns" "sa" []
                           (start [exited EmptyString "not found"]))))
     = [].
Proof.
  split; [|split].
  - destruct (nil_collaborators background "ns" "sa" "binding" "reader" []
                (start [ok "created"])) as ((Hst & Hok) & _).
    apply injective_projections; [now apply Hok | rewrite Hst; reflexivity].
  - destruct (nil_collaborators background "ns" "sa" "binding" "reader" []
                (start [ok (tokenDoc "abc123")])) as (_ & Htok & _).
    destruct (Htok eq_refl) as (_ & _ & Hyes).
    apply Hyes; [reflexivity | reflexivity | discriminate].
  - destruct (nil_collaborators background "ns" "sa" "binding" "reader" []
                (start [exited EmptyString "not found"])) as (_ & Htok & _).
    destruct (Htok eq_refl) as (Hst & _). rewrite Hst. reflexivity.
Defined.

(** C9 at work: the call returns once the context is done, here with the
    empty string and an error. *)
Lemma ServiceAccountToken_result_sample :
  exists (res : string * option error) (st' : State World),
    ServiceAccountToken background None None "ns" "sa" [tickerC; ctxDone]
      (start [ok "{"; exited EmptyString "not found"])
    = (Some res, st')
    /\ fst res = EmptyString /\ snd res <> None.
Proof.
  pose proof (ServiceAccountToken_result background None None "ns" "sa"
                [tickerC; ctxDone] (start [ok "{"; exited EmptyString "not found"]))
    as [Hret Hshape].
  destruct Hret as (res & st' & E); [right; left; reflexivity|].
  exists res, st'. split; [exact E|].
  destruct (Hshape res st' E) as [[Hne Hok] | Herr]; [|exact Herr].
  exfalso. revert Hok. injection E as <- _. discriminate.
Defined.

(** The library models on small inputs. *)

Example TrimSpace_sample :
  strings.TrimSpace (" " ++ nl ++ str1 0xC2 ++ str1 0xA0 ++ "a b" ++ str1 9 ++ nl) = "a b"
  /\ strings.TrimSpace (" " ++ nl) = EmptyString
  /\ strings.TrimRight ("applied" ++ nl ++ nl) nl = "applied".
Proof. repeat split. Qed.

Example Quote_sample :
  strconv.Quote ("a" ++ dq ++ "b" ++ str1 92 ++ nl ++ str1 1)
  = dq ++ "a" ++ str1 92 ++ dq ++ "b" ++ str1 92 ++ str1 92 ++ str1 92 ++ "n"
    ++ str1 92 ++ "x01" ++ dq
  /\ strconv.Quote "kubectl apply -f -" = dq ++ "kubectl apply -f -" ++ dq.
Proof. repeat split. Qed.

Example Unmarshal_sample :
  Unmarshal ("{" ++ dq ++ "Status" ++ dq ++ ": { " ++ dq ++ "TOKEN" ++ dq ++ " : " ++ dq
             ++ "t" ++ str1 92 ++ "u0041" ++ dq ++ " }, " ++ dq ++ "kind" ++ dq ++ ":[1,{}] } ")
  = (mkTokenRequest (mkStatus "tA"), None)
  /\ Unmarshal "{}" = (mkTokenRequest (mkStatus EmptyString), None)
  /\ Unmarshal "null" = (mkTokenRequest (mkStatus EmptyString), None)
  /\ snd (Unmarshal "[]") = Some json.UnmarshalTypeError
  /\ snd (Unmarshal ("{" ++ dq ++ "status" ++ dq ++ ":{" ++ dq ++ "token" ++ dq ++ ":12}}"))
     = Some json.UnmarshalTypeError
  /\ snd (Unmarshal (tokenDoc "abc" ++ "x")) = Some json.SyntaxError
  /\ snd (Unmarshal EmptyString) = Some json.SyntaxError.
Proof. repeat split. Qed.

Example manifest_sample :
  manifest "b" "r" "ns" "sa"
  = "apiVersion: rbac.authorization.k8s.io/v1" ++ nl
    ++ "kind: ClusterRoleBinding" ++ nl
    ++ "metadata:" ++ nl
    ++ "  name: b" ++ nl
    ++ "roleRef:" ++ nl
    ++ "  apiGroup: rbac.authorization.k8s.io" ++ nl
    ++ "  kind: ClusterRole" ++ nl
    ++ "  name: r" ++ nl
    ++ "subjects:" ++ nl
    ++ "- kind: ServiceAccount" ++ nl
    ++ "  name: sa" ++ nl
    ++ "  namespace: ns" ++ nl.
Proof. reflexivity. Qed.

(** ** The helpers of the end-to-end tests in a world with files *)

#[local] Existing Instance Lab.host.
#[local] Existing Instance Lab.desk.

(** X2 at work: the table [kubectl] prints comes back line by line. *)
Lemma GetNonEmptyLines_Join_sample :
  utils.GetNonEmptyLines ("NAME   READY" ++ nl ++ "web-0  1/1")
  = ["NAME   READY"; "web-0  1/1"].
Proof.
  apply (GetNonEmptyLines_Join ["NAME   READY"; "web-0  1/1"]).
  repeat constructor; discriminate.
Defined.

(** X5 at work: the tests run in [/repo/test/e2e], the project is in
    [/repo]. *)
Lemma GetProjectDir_strips_sample :
  utils.GetProjectDir (Lab.start []) = ("/repo", None).
Proof.
  exact (GetProjectDir_strips (Lab.start []) "/repo" EmptyString eq_refl eq_refl eq_refl).
Defined.

(** X7 at work: the process is started in [/repo] with the host's
    environment and the marker; the caller's directory [/tmp] and variable
    [A=1] are gone. *)
Lemma utils_Run_directory_sample :
  Lab.started (snd (utils.Run handmade (Lab.start [ok "v1"])))
  = [mkCmd "kubectl" ["kubectl"; "version"] ["HOME=/root"; "GO111MODULE=on"] "/repo"
       (Some EmptyString) None]
  /\ Lab.cwd (snd (utils.Run handmade (Lab.start [ok "v1"]))) = "/repo".
Proof.
  pose proof (utils_Run_directory (Lab.start [ok "v1"]) handmade "/repo" EmptyString
                eq_refl eq_refl eq_refl) as (Hw & _).
  rewrite Hw. split; reflexivity.
Defined.

(** X8 at work: a table with one of the names, a table with none of
    them, and a process that failed after it had printed one. *)
Lemma IsCertManagerCRDsInstalled_output_sample :
  fst (utils.IsCertManagerCRDsInstalled
         (Lab.start [ok ("NAME   CREATED AT" ++ nl
                         ++ "issuers.cert-manager.io   2024-01-01T00:00:00Z" ++ nl)]))
  = true
  /\ fst (utils.IsCertManagerCRDsInstalled
            (Lab.start [ok ("NAME   CREATED AT" ++ nl
                            ++ "widgets.example.com   2024-01-01T00:00:00Z" ++ nl)]))
     = false
  /\ fst (utils.IsCertManagerCRDsInstalled
            (Lab.start [exited "issuers.cert-manager.io" "connection refused"]))
     = false.
Proof.
  rewrite !IsCertManagerCRDsInstalled_output.
  repeat split.
Defined.

(** X9 at work: the two resources of the file are uncommented. *)
Lemma UncommentCode_uncomments_sample :
  utils.UncommentCode "kustomization.yaml"
    ("#- ../prometheus" ++ nl ++ "#- ../certs") "#" (Lab.start [])
  = (None,
     Lab.mkWorld "/repo/test/e2e"
       [("kustomization.yaml",
         "resources:" ++ nl ++ "- ../prometheus" ++ nl ++ "- ../certs" ++ nl
         ++ "patches:" ++ nl)]
       ["HOME=/root"] [] [] []).
Proof.
  refine (proj2 (proj2 (UncommentCode_uncomments
                          (Lab.start []) "kustomization.yaml" "#"
                          ("resources:" ++ nl ++ "#- ../prometheus" ++ nl ++ "#- ../certs"
                           ++ nl ++ "patches:" ++ nl)
                          ["- ../prometheus"; "- ../certs"] 11%nat _ _ eq_refl eq_refl eq_refl)));
    discriminate.
Defined.

(** X10 at work: with the newline in the target, [patches:] ends up on
    the line of the last resource. *)
Lemma UncommentCode_newline_lost_sample :
  utils.UncommentCode "kustomization.yaml"
    ("#- ../prometheus" ++ nl ++ "#- ../certs" ++ nl) "#" (Lab.start [])
  = (None,
     Lab.mkWorld "/repo/test/e2e"
       [("kustomization.yaml",
         "resources:" ++ nl ++ "- ../prometheus" ++ nl ++ "- ../certs"
         ++ "patches:" ++ nl)]
       ["HOME=/root"] [] [] []).
Proof.
  refine (proj2 (proj2 (UncommentCode_newline_lost
                          (Lab.start []) "kustomization.yaml" "#"
                          ("resources:" ++ nl ++ "#- ../prometheus" ++ nl ++ "#- ../certs"
                           ++ nl ++ "patches:" ++ nl)
                          ("#- ../prometheus" ++ nl ++ "#- ../cert") "s" 11%nat
                          _ eq_refl eq_refl eq_refl))).
  discriminate.
Defined.

(** X11 at work: a file that is not there, a target that is not in the
    file, an empty target. *)
Lemma UncommentCode_no_write_sample :
  snd (utils.UncommentCode "missing.yaml" "#x" "#" (Lab.start [])) = Lab.start []
  /\ utils.UncommentCode "kustomization.yaml" "#- ../crd" "#" (Lab.start [])
     = (Some (errorString ("unable to find the code " ++ dq ++ "#- ../crd" ++ dq
                           ++ " to be uncomment")),
        Lab.start [])
  /\ utils.UncommentCode "kustomization.yaml" EmptyString "#" (Lab.start [])
     = (None, Lab.start []).
Proof.
  split; [|split].
  - exact (proj1 (proj1 (UncommentCode_no_write (Lab.start []) "missing.yaml" "#x" "#")
                    (errorString "no such file or directory") eq_refl)).
  - pose proof (proj1 (proj2 (UncommentCode_no_write (Lab.start []) "kustomization.yaml"
                                "#- ../crd" "#"))
                  eq_refl eq_refl) as [Hw _].
    rewrite <- Hw at 2. reflexivity.
  - exact (proj2 (proj2 (UncommentCode_no_write (Lab.start []) "kustomization.yaml"
                           EmptyString "#"))
             eq_refl eq_refl).
Defined.

(** X12 at work: the error of a context done at the call, and the error
    of the first attempt, returned once the loop sees the context done. *)
Lemma ServiceAccountToken_error_cancelled_sample :
  (Context_Err background (world cancelled) = Some (errorString "context canceled")
   \/ In ctxDone [tickerC])
  /\ exists e : error,
       fst (ServiceAccountToken background (Some recorder) None "ns" "sa" [ctxDone]
              (start [exited EmptyString "not found"]))
       = Some (EmptyString, Some e)
       /\ (Context_Err background (world (start [exited EmptyString "not found"])) = Some e
           \/ In ctxDone [ctxDone]).
Proof.
  split.
  - exact (ServiceAccountToken_error_cancelled
             background (Some recorder) None "ns" "sa" [tickerC] cancelled cancelled
             EmptyString (errorString "context canceled") eq_refl).
  - eexists. split; [reflexivity|].
    exact (ServiceAccountToken_error_cancelled
             background (Some recorder) None "ns" "sa" [ctxDone]
             (start [exited EmptyString "not found"]) _ EmptyString _ eq_refl).
Defined.

(** X13 at work: two failures, one tick, and the call still waits. *)
Lemma ServiceAccountToken_waiting_sample :
  fst (ServiceAccountToken background (Some recorder) None "ns" "sa" (repeat tickerC 1)
         (start [exited EmptyString "not found"; exited EmptyString "not found"]))
  = None
  /\ List.length
       (runs (snd (ServiceAccountToken background (Some recorder) None "ns" "sa"
                     (repeat tickerC 1)
                     (start [exited EmptyString "not found";
                             exited EmptyString "not found"]))))
     = 2%nat.
Proof.
  pose proof (ServiceAccountToken_waiting
                background (Some recorder) None "ns" "sa" 1%nat
                (start [exited EmptyString "not found"; exited EmptyString "not found"])
                eq_refl) as Hw.
  remember (failures _ _ _ _ _ _ _ _) as f eqn:Hf in Hw.
  vm_compute in Hf. subst f. destruct Hw as [E L].
  rewrite E. split; [reflexivity | exact L].
Defined.

(** X17 at work. *)
Lemma manifest_lines_sample :
  strings.Split (manifest "b" "r" "ns" "sa") nl
  = ["apiVersion: rbac.authorization.k8s.io/v1";
     "kind: ClusterRoleBinding";
     "metadata:";
     "  name: b";
     "roleRef:";
     "  apiGroup: rbac.authorization.k8s.io";
     "  kind: ClusterRole";
     "  name: r";
     "subjects:";
     "- kind: ServiceAccount";
     "  name: sa";
     "  namespace: ns";
     EmptyString].
Proof. exact (manifest_lines "b" "r" "ns" "sa" eq_refl eq_refl eq_refl eq_refl). Defined.

(** X19 at work: one process when the apply fails, two when it
    succeeds. *)
Lemma InstallCertManager_steps_sample :
  List.length (Lab.started (snd (utils.InstallCertManager
                                   (Lab.start [exited EmptyString "refused"; ok "met"]))))
  = 1%nat
  /\ List.length (Lab.started (snd (utils.InstallCertManager
                                      (Lab.start [ok "created"; ok "met"]))))
     = 2%nat.
Proof.
  split.
  - destruct (InstallCertManager_steps (Lab.start [exited EmptyString "refused"; ok "met"]))
      as [Hfail _].
    destruct (Hfail (errorString "exit status 1")) as [Hw _]; [reflexivity|].
    rewrite Hw. reflexivity.
  - destruct (InstallCertManager_steps (Lab.start [ok "created"; ok "met"])) as [_ Hok].
    destruct Hok as [Hw _]; [reflexivity|].
    rewrite Hw. reflexivity.
Defined.

(** X16 at work: a shell command of two lines is announced on one. *)
Lemma running_line_sample :
  Lab.printed
    (snd (utils.Run
            (mkCmd "/bin/sh" ["sh"; "-c"; "echo a" ++ nl ++ "echo b"] [] EmptyString None None)
            (Lab.start [ok "a"])))
  = ["running: " ++ dq ++ "sh -c echo a" ++ str1 92 ++ "necho b" ++ dq ++ nl]
  /\ Lab.printed
       (snd (DefaultRunner_Run background (Some (slo.mkSink GinkgoWriter))
               (mkCmd "/bin/sh" ["sh"; "-c"; "echo a" ++ nl ++ "echo b"] [] EmptyString
                  None None)
               (Lab.start [ok "a"])))
     = ["running: " ++ dq ++ "/bin/sh -c echo a" ++ str1 92 ++ "necho b" ++ dq].
Proof.
  pose proof (running_line (Lab.start [ok "a"]) background
                (Some (slo.mkSink GinkgoWriter))
                (mkCmd "/bin/sh" ["sh"; "-c"; "echo a" ++ nl ++ "echo b"] [] EmptyString
                   None None))
    as ((Hrun & _) & (Hdef & _)).
  rewrite Hrun, Hdef. split; reflexivity.
Defined.
